(** * gatsby-plugin-automatic-importer: a shallow embedding of [gatsby-node.mjs]

    The plugin reads source files, collects the identifiers they export into
    one generated module and rewrites the leading import statement of the
    files it manages.  Everything below is translated from [gatsby-node.mjs].

    Text is a [string]: each [ascii] stands for one UTF-16 code unit below
    256, so the development speaks about texts in the Latin-1 range.  The
    numbers the source computes with ([indexOf] results, lengths, depths) are
    in [Z], because the source relies on [-1] and on [+ 1] applied to it. *)

From Stdlib Require Import String Ascii List ZArith Lia Bool Arith Permutation Sorted.
Import ListNotations.
Open Scope string_scope.
Set Warnings "-register-all".

(** ** JavaScript strings *)

Module JsString.

(** WhiteSpace and LineTerminator code units below 256: what [trim],
    [trimStart] and the regular expression class [\s] accept. *)
Definition isWhiteSpace (c : ascii) : bool :=
  match c with
  | "009"%char | "010"%char | "011"%char | "012"%char | "013"%char
  | " "%char | "160"%char => true
  | _ => false
  end.

(** LineTerminator code units below 256: what the class [.] rejects. *)
Definition isLineTerminator (c : ascii) : bool :=
  match c with
  | "010"%char | "013"%char => true
  | _ => false
  end.

(** [String.prototype.toLowerCase] on one code unit below 256: the letters
    A-Z and the Latin-1 capitals U+00C0-U+00DE, the sign U+00D7 apart. *)
Definition lowerChar (c : ascii) : ascii :=
  let n := nat_of_ascii c in
  if (((65 <=? n) && (n <=? 90))
      || ((192 <=? n) && (n <=? 222) && negb (n =? 215)))%nat
  then ascii_of_nat (n + 32) else c.

Fixpoint toLowerCase (s : string) : string :=
  match s with
  | "" => ""
  | String c s' => String (lowerChar c) (toLowerCase s')
  end.

Definition len (s : string) : Z := Z.of_nat (String.length s).

Fixpoint drop (n : nat) (s : string) : string :=
  match n, s with
  | O, _ => s
  | S n', String _ s' => drop n' s'
  | S _, "" => ""
  end.

Fixpoint take (n : nat) (s : string) : string :=
  match n, s with
  | O, _ => ""
  | S n', String c s' => String c (take n' s')
  | S _, "" => ""
  end.

(** [s.startsWith(p)] *)
Fixpoint startsWith (s p : string) {struct p} : bool :=
  match p, s with
  | "", _ => true
  | String a p', String b s' => Ascii.eqb a b && startsWith s' p'
  | String _ _, "" => false
  end.

(** [s.endsWith(p)] *)
Definition endsWith (s p : string) : bool :=
  (String.length p <=? String.length s)%nat
  && String.eqb (drop (String.length s - String.length p) s) p.

(** The first position, counted from [k], at which [sub] occurs in [s]. *)
Fixpoint search (sub s : string) (k : nat) : option nat :=
  if startsWith s sub then Some k
  else match s with
       | "" => None
       | String _ s' => search sub s' (S k)
       end.

Definition clamp (s : string) (i : Z) : nat := Z.to_nat (Z.min (Z.max i 0) (len s)).

(** [s.indexOf(sub, pos)]: the position is clamped into the string, the
    answer is [-1] when there is no occurrence. *)
Definition indexOf (s sub : string) (pos : Z) : Z :=
  let p := clamp s pos in
  match search sub (drop p s) p with
  | Some k => Z.of_nat k
  | None => (-1)%Z
  end.

(** [s.includes(sub)] *)
Definition includes (s sub : string) : bool :=
  match search sub s 0 with Some _ => true | None => false end.

(** [s.substring(a, b)]: both ends are clamped into the string and swapped
    when they come in the wrong order. *)
Definition substring (s : string) (a b : Z) : string :=
  let a' := clamp s a in
  let b' := clamp s b in
  take (Nat.max a' b' - Nat.min a' b') (drop (Nat.min a' b') s).

(** [s.substring(a)] *)
Definition substringFrom (s : string) (a : Z) : string := substring s a (len s).

Fixpoint trimStart (s : string) : string :=
  match s with
  | "" => ""
  | String c s' => if isWhiteSpace c then trimStart s' else s
  end.

Fixpoint trimEnd (s : string) : string :=
  match s with
  | "" => ""
  | String c s' =>
      match trimEnd s' with
      | "" => if isWhiteSpace c then "" else String c ""
      | r => String c r
      end
  end.

Definition trim (s : string) : string := trimEnd (trimStart s).

(** [s.split(sep)] for a separator of one code unit. *)
Fixpoint split (sep : ascii) (s : string) : list string :=
  match s with
  | "" => [""]
  | String c s' =>
      if Ascii.eqb c sep then "" :: split sep s'
      else match split sep s' with
           | [] => [String c ""]
           | p :: ps => String c p :: ps
           end
  end.

(** [parts.join(sep)] *)
Fixpoint join (sep : string) (parts : list string) : string :=
  match parts with
  | [] => ""
  | [p] => p
  | p :: ps => p ++ sep ++ join sep ps
  end.

Fixpoint repeatNat (s : string) (n : nat) : string :=
  match n with
  | O => ""
  | S n' => s ++ repeatNat s n'
  end.

(** [s.repeat(n)]: a negative count raises [RangeError], here [None]. *)
Definition repeat (s : string) (n : Z) : option string :=
  if (n <? 0)%Z then None else Some (repeatNat s (Z.to_nat n)).

(** [s.replace(/\\/g, '/')] *)
Fixpoint replaceBackslashes (s : string) : string :=
  match s with
  | "" => ""
  | String c s' =>
      String (if Ascii.eqb c "\"%char then "/"%char else c) (replaceBackslashes s')
  end.

(** [array.includes(x)] on an array of strings. *)
Definition arrayIncludes (l : list string) (x : string) : bool :=
  existsb (String.eqb x) l.

End JsString.

Import JsString.

(** ** Regular expressions

    The two regular expressions of the source are built from code-unit
    classes, greedy stars over a class, concatenation and capturing groups
    that follow one another.  [run] is the backtracking matcher of
    JavaScript for this fragment: a star first takes as many code units as
    it can and gives them back one at a time when the rest fails. *)

Module Regex.

Inductive re : Type :=
| Eps
| Chr (p : ascii -> bool)
| Star (p : ascii -> bool)
| Cat (r1 r2 : re)
| Grp (r : re).

Fixpoint star {A : Type} (p : ascii -> bool) (s : string)
    (k : string -> option A) : option A :=
  match s with
  | String c s' =>
      if p c
      then match star p s' k with
           | Some r => Some r
           | None => k s
           end
      else k s
  | "" => k s
  end.

Fixpoint run {A : Type} (r : re) (s : string) (caps : list string)
    (k : string -> list string -> option A) : option A :=
  match r with
  | Eps => k s caps
  | Chr p =>
      match s with
      | String c s' => if p c then k s' caps else None
      | "" => None
      end
  | Star p => star p s (fun s' => k s' caps)
  | Cat r1 r2 => run r1 s caps (fun s' caps' => run r2 s' caps' k)
  | Grp r1 =>
      run r1 s caps
        (fun s' caps' => k s' (caps' ++ [take (String.length s - String.length s') s])%list)
  end.

(** A match anchored at the start of the text ([^], no [m] flag): the
    captured groups in order and the text left after the match. *)
Definition exec (r : re) (s : string) : option (list string * string) :=
  run r s [] (fun s' caps => Some (caps, s')).

Definition test (r : re) (s : string) : bool :=
  match exec r s with Some _ => true | None => false end.

(** Canonicalize of the [i] flag (no [u] flag) on a code unit below 256:
    the upper-case letter when it is again one code unit below 256. *)
Definition canonicalize (c : ascii) : ascii :=
  let n := nat_of_ascii c in
  if (((97 <=? n) && (n <=? 122))
      || ((224 <=? n) && (n <=? 254) && negb (n =? 247)))%nat
  then ascii_of_nat (n - 32) else c.

(** A literal code unit of a pattern that carries the [i] flag. *)
Definition chrI (l : ascii) : re :=
  Chr (fun c => Ascii.eqb (canonicalize c) (canonicalize l)).

Fixpoint litI (l : string) : re :=
  match l with
  | "" => Eps
  | String c l' => Cat (chrI c) (litI l')
  end.

Definition oneOf (l : string) : ascii -> bool :=
  fun c => existsb (Ascii.eqb c) (list_ascii_of_string l).

Definition noneOf (l : string) : ascii -> bool := fun c => negb (oneOf l c).

(** [\s], [\S], [.] and [[\s\S]] *)
Definition space : ascii -> bool := isWhiteSpace.
Definition nonSpace : ascii -> bool := fun c => negb (isWhiteSpace c).
Definition dot : ascii -> bool := fun c => negb (isLineTerminator c).
Definition anything : ascii -> bool := fun _ => true.

Fixpoint seq (rs : list re) : re :=
  match rs with
  | [] => Eps
  | [r] => r
  | r :: rs' => Cat r (seq rs')
  end.

End Regex.

(** ** Path and text utilities of the module *)

Definition purgePath_strip : string -> string :=
  fix strip (s : string) : string :=
    match s with
    | "" => ""
    | String c s' =>
        match strip s' with
        | "" => if Ascii.eqb c "/"%char then "" else String c ""
        | r => String c r
        end
    end.

(** [purgePath]: backslashes become slashes, then the loop
    [while(path.endsWith('/'))] removes every trailing slash. *)
Definition purgePath (path : string) : string :=
  purgePath_strip (replaceBackslashes path).

(** [isFileOfType]: only the file name is lower-cased; a configured type is
    used as it is written, with a dot put in front when it has none. *)
Definition isFileOfType (file : string) (types : list string) : bool :=
  let f := toLowerCase file in
  existsb (fun type => endsWith f (if startsWith type "." then type else "." ++ type)) types.

(** JavaScript's [>] and [===] on strings compare code units. *)
Fixpoint stringGt (a b : string) : bool :=
  match a, b with
  | "", _ => false
  | String _ _, "" => true
  | String x a', String y b' =>
      if (nat_of_ascii y <? nat_of_ascii x)%nat then true
      else if (nat_of_ascii x <? nat_of_ascii y)%nat then false
      else stringGt a' b'
  end.

Definition _compareFileOrderString (a b : string) : Z :=
  let aa := toLowerCase a in
  let bb := toLowerCase b in
  if stringGt aa bb then 1%Z
  else if String.eqb aa bb then 0%Z
  else (-1)%Z.

Fixpoint _compareFileOrderArray (aParts bParts : list string) : Z :=
  match aParts, bParts with
  | a :: aParts', b :: bParts' =>
      let cmp := _compareFileOrderString a b in
      if negb (cmp =? 0)%Z then cmp else _compareFileOrderArray aParts' bParts'
  | _, _ => (Z.of_nat (List.length aParts) - Z.of_nat (List.length bParts))%Z
  end.

Definition compareFileOrder (a b : string) : Z :=
  _compareFileOrderArray (split "/" a) (split "/" b).

(** [stringIncludesAny]: the [forEach] keeps the first positive answer. *)
Definition stringIncludesAny (s : string) (substrings : list string) : bool :=
  fold_left (fun includes_ substring => if negb includes_ then includes s substring else includes_)
    substrings false.

Definition getFirstCodeLine (code : string) : string :=
  let firstLine := indexOf code ";" 0 in
  trim (if (0 <=? firstLine)%Z then substring code 0 firstLine else code).

(** [/^\s*import\s*{/i] *)
Definition regexStartsWithImport : Regex.re :=
  Regex.seq [Regex.Star Regex.space; Regex.litI "import"; Regex.Star Regex.space;
             Regex.chrI "{"].

Definition getFirstImportStatement (code : string) : string :=
  if negb (Regex.test regexStartsWithImport code) then ""
  else substring code 0 (indexOf code ";" 0 + 1).

(** [purgeOutputName] on a name that is not [null]. *)
Definition purgeOutputName_string (name : string) : string :=
  let name := purgePath name in
  let name := if negb (endsWith name ".js") then name ++ ".js" else name in
  last (split "/" name) "".

Definition purgeOutputName (name : option string) : option string :=
  option_map purgeOutputName_string name.

(** ** The syntax tree the parser hands back

    Only the parts of Babel's tree that [getExportedFields] looks at.  A
    property the source reads through [?.] and that a node does not have is
    [undefined], here [None]. *)

Inductive pattern : Type :=
| Identifier (name : string)
| ArrayPattern (elements : list (option pattern))
| ObjectPattern (properties : list objectMember)
| AssignmentPattern (left : pattern)
| RestElement (argument : pattern)
with objectMember : Type :=
| ObjectProperty (key : string) (value : pattern)
| RestMember (argument : pattern).

Inductive declaration : Type :=
| VariableDeclaration (declarations : list pattern)
| FunctionDeclaration (name : string)
| ClassDeclaration (name : string).

Inductive moduleExportName : Type :=
| ExportedIdentifier (name : string)
| ExportedStringLiteral (value : string).

Inductive statement : Type :=
| ExportNamedDeclaration (specifiers : list moduleExportName)
    (declaration_ : option declaration)
| OtherStatement (type : string).

Inductive jsError : Type :=
| SyntaxError (message : string)
| RangeError (message : string)
| FsError (path : string).

Inductive logEntry : Type :=
| ConsoleWarn (message path : string)
| ConsoleError (e : jsError).

(** [node?.name] *)
Definition nameOf (p : pattern) : option string :=
  match p with Identifier n => Some n | _ => None end.

(** [decl?.id?.elements?.map(elem => elem?.name) ?? []] *)
Definition elementNames (p : pattern) : list (option string) :=
  match p with
  | ArrayPattern elements =>
      map (fun elem => match elem with Some e => nameOf e | None => None end) elements
  | _ => []
  end.

(** [decl?.id?.properties?.map(prop => prop?.value?.name) ?? []] *)
Definition propertyNames (p : pattern) : list (option string) :=
  match p with
  | ObjectPattern properties =>
      map (fun prop => match prop with
                       | ObjectProperty _ v => nameOf v
                       | RestMember _ => None
                       end) properties
  | _ => []
  end.

(** [exportNode.declaration?.declarations], [undefined] when the node has
    no declaration or the declaration is not a variable declaration. *)
Definition declarationsOf (d : option declaration) : option (list pattern) :=
  match d with
  | Some (VariableDeclaration ds) => Some ds
  | _ => None
  end.

Definition orEmpty {A : Type} (o : option (list A)) : list A :=
  match o with Some l => l | None => [] end.

Definition isExportNamedDeclaration (node : statement) : bool :=
  match node with ExportNamedDeclaration _ _ => true | OtherStatement _ => false end.

(** The body of the arrow function that [getExportedFields] maps over the
    export nodes. *)
Definition exportedOfNode (exportNode : statement) : list (option string) :=
  match exportNode with
  | ExportNamedDeclaration specs decl =>
      let specifiers :=
        map (fun spec => match spec with
                         | ExportedIdentifier n => Some n
                         | ExportedStringLiteral _ => None
                         end) specs in
      let declarations := orEmpty (option_map (map nameOf) (declarationsOf decl)) in
      let declarationsArray :=
        orEmpty (option_map (fun ds => concat (map elementNames ds)) (declarationsOf decl)) in
      let declarationsObject :=
        orEmpty (option_map (fun ds => concat (map propertyNames ds)) (declarationsOf decl)) in
      (specifiers ++ declarations ++ declarationsArray ++ declarationsObject)%list
  | OtherStatement _ => []
  end.

(** [.filter(x => typeof x !== 'undefined' && ...)]: the entries are names
    or [undefined], never arrays. *)
Fixpoint definedOnly (l : list (option string)) : list string :=
  match l with
  | [] => []
  | Some x :: l' => x :: definedOnly l'
  | None :: l' => definedOnly l'
  end.

(** What [getExportedFields] computes from [ast.program.body]. *)
Definition exportedFieldsOfBody (body : list statement) : list string :=
  definedOnly (concat (map exportedOfNode (filter isExportNamedDeclaration body))).

(** ** The object [exportedFields], used as a set of names

    The own property names in the order of their creation. *)

Definition jsObject : Type := list string.

(** [obj[field] = true] on an object created by [{}]: the name
    [__proto__] reaches the setter inherited from [Object.prototype], which
    ignores [true], and creates no property. *)
Definition setTrue (obj : jsObject) (field : string) : jsObject :=
  if String.eqb field "__proto__" then obj
  else if arrayIncludes obj field then obj
  else (obj ++ [field])%list.

Definition isDigit (c : ascii) : bool :=
  ((48 <=? nat_of_ascii c) && (nat_of_ascii c <=? 57))%nat.

Fixpoint decimalValue (s : string) (acc : N) : N :=
  match s with
  | "" => acc
  | String c s' => decimalValue s' (acc * 10 + (N_of_ascii c - 48))%N
  end.

(** The array index a property name denotes: a canonical decimal numeral
    below 2^32 - 1. *)
Definition arrayIndex (key : string) : option N :=
  match key with
  | "" => None
  | String c rest =>
      if forallb isDigit (list_ascii_of_string key)
         && (negb (Ascii.eqb c "0"%char) || String.eqb rest "")
         && (String.length key <=? 10)%nat
         && (decimalValue key 0 <? 4294967295)%N
      then Some (decimalValue key 0) else None
  end.

Fixpoint insertIndex (k : N * string) (l : list (N * string)) : list (N * string) :=
  match l with
  | [] => [k]
  | k' :: l' => if (fst k <=? fst k')%N then k :: l else k' :: insertIndex k l'
  end.

Fixpoint indexKeys (obj : jsObject) : list (N * string) :=
  match obj with
  | [] => []
  | key :: obj' =>
      match arrayIndex key with
      | Some i => insertIndex (i, key) (indexKeys obj')
      | None => indexKeys obj'
      end
  end.

(** [Object.keys(obj)]: array indices in ascending order, then the other
    names in the order of their creation. *)
Definition Object_keys (obj : jsObject) : list string :=
  (map snd (indexKeys obj)
   ++ filter (fun key => match arrayIndex key with Some _ => false | None => true end) obj)%list.

(** ** The file system

    A tree of directories and files below the working directory.  A path is
    read relative to the working directory; its empty and [.] segments are
    skipped and [..] is not interpreted. *)

Inductive node : Type :=
| File (content : string)
| Directory (entries : list (string * node)).

Definition segments (path : string) : list string :=
  filter (fun seg => negb (String.eqb seg "" || String.eqb seg ".")) (split "/" path).

Fixpoint findEntry (name : string) (entries : list (string * node)) : option node :=
  match entries with
  | [] => None
  | (n, child) :: entries' => if String.eqb n name then Some child else findEntry name entries'
  end.

Fixpoint lookupNode (segs : list string) (n : node) : option node :=
  match segs with
  | [] => Some n
  | seg :: segs' =>
      match n with
      | Directory entries =>
          match findEntry seg entries with
          | Some child => lookupNode segs' child
          | None => None
          end
      | File _ => None
      end
  end.

(** [fs.existsSync] followed by [fs.statSync]: the empty path names nothing. *)
Definition stat (root : node) (path : string) : option node :=
  if String.eqb path "" then None else lookupNode (segments path) root.

(** [fs.readFileSync(file, 'utf8')], which throws unless [file] is a file. *)
Definition readFileSync (root : node) (file : string) : jsError + string :=
  match stat root file with
  | Some (File content) => inr content
  | _ => inl (FsError file)
  end.

Fixpoint replaceEntry (name : string) (f : option node -> option node)
    (entries : list (string * node)) : option (list (string * node)) :=
  match entries with
  | [] => option_map (fun n => [(name, n)]) (f None)
  | (n, child) :: entries' =>
      if String.eqb n name
      then option_map (fun c => (n, c) :: entries') (f (Some child))
      else option_map (cons (n, child)) (replaceEntry name f entries')
  end.

Fixpoint writeNode (segs : list string) (content : string) (n : option node) : option node :=
  match segs, n with
  | [], Some (File _) => Some (File content)
  | [], None => Some (File content)
  | [], Some (Directory _) => None
  | seg :: segs', Some (Directory entries) =>
      option_map Directory (replaceEntry seg (writeNode segs' content) entries)
  | _ :: _, _ => None
  end.

(** [fs.writeFileSync(file, content)]: the file is created or replaced; it
    throws when [file] is a directory or lies below something that is not
    a directory. *)
Definition writeFileSync (root : node) (file content : string) : jsError + node :=
  if String.eqb file "" then inl (FsError file)
  else match writeNode (segments file) content (Some root) with
       | Some root' => inr root'
       | None => inl (FsError file)
       end.

(** ** Configuration, state and results *)

(** What [fileExtensionsCustom] may return: [{code, exports}]. *)
Record customResult : Type := mkCustomResult {
  code_ : option string;
  exports_ : option (list string)
}.

(** The plugin options after the schema has filled in the defaults.  The
    user's [filter] receives the file (twice, through [...arguments]); the
    custom handler receives the file and, through [...arguments], the
    arguments [forEach] gave to [importFile]: file, index and array. *)
Record pluginOptions : Type := mkOptions {
  import_ : list string;
  modify_ : list string;
  filter_ : option (string -> bool);
  outputName_ : option string;
  previousOutputNames_ : list string;
  fileExtensionsJs : list string;
  fileExtensionsOther : list string;
  fileExtensionsCustom : option (string -> nat -> list string -> option customResult)
}.

(** The world outside the plugin: the file tree, what was printed on the
    console, and every [fs.writeFileSync] performed, oldest first. *)
Record world : Type := mkWorld {
  root : node;
  console : list logEntry;
  written : list (string * string)
}.

(** The two variables [onPreInit] shares between its inner functions. *)
Record accumulator : Type := mkAcc {
  importsCode : string;
  exportedFields : jsObject
}.

(** A computation returns, throws, or is still inside the purge loop when
    the fuel is used up. *)
Inductive outcome (A : Type) : Type :=
| Done (a : A)
| Raised (e : jsError)
| NoFuel.
Arguments Done {A} a.
Arguments Raised {A} e.
Arguments NoFuel {A}.

Definition bind {A B : Type} (m : outcome A) (f : A -> outcome B) : outcome B :=
  match m with
  | Done a => f a
  | Raised e => Raised e
  | NoFuel => NoFuel
  end.

Notation "x <- m ;; k" := (bind m (fun x => k))
  (at level 61, m at next level, right associativity).

Definition LF : string := String "010"%char "".

Definition log (entry : logEntry) (w : world) : world :=
  mkWorld (root w) (console w ++ [entry])%list (written w).

(** [fs.writeFileSync] as a step of the world. *)
Definition write (file content : string) (w : world) : outcome world :=
  match writeFileSync (root w) file content with
  | inr root' => Done (mkWorld root' (console w) (written w ++ [(file, content)])%list)
  | inl e => Raised e
  end.

(** The [try]/[catch] that both writers put around [fs.readFileSync] when
    no old content is given. *)
Definition oldContentOr (w : world) (file : string) (oldContent : option string) : string :=
  match oldContent with
  | Some old => old
  | None => match readFileSync (root w) file with
            | inr content => content
            | inl _ => ""
            end
  end.

Definition setFileContentIfDifferent (file newContent : string)
    (oldContent : option string) (w : world) : outcome world :=
  let oldContent := oldContentOr w file oldContent in
  if negb (String.eqb (trim oldContent) (trim newContent))
  then write file newContent w
  else Done w.

Definition setFileContentIfFirstCodeLineIsDifferent (file newContent : string)
    (oldContent : option string) (w : world) : outcome world :=
  let oldContent := oldContentOr w file oldContent in
  if negb (String.eqb (getFirstCodeLine oldContent) (getFirstCodeLine newContent))
  then write file newContent w
  else Done w.

(** [getAllFiles] below a path that exists: [readdirSync] lists the entries
    of a directory and [path + '/' + file] names each of them. *)
Fixpoint getAllFiles_node (n : node) (path : string) (allFilesList : list string)
    : list string :=
  match n with
  | File _ => (allFilesList ++ [path])%list
  | Directory entries =>
      (fix forEach (files : list (string * node)) (acc : list string) : list string :=
         match files with
         | [] => acc
         | (file, child) :: files' =>
             forEach files' (getAllFiles_node child (path ++ "/" ++ file) acc)
         end) entries allFilesList
  end.

Definition getAllFiles (path : string) (w : world) : list string * world :=
  match stat (root w) path with
  | None =>
      ([], log (ConsoleWarn "[gatsby-plugin-automatic-importer] Path does not exist:" path) w)
  | Some n => (getAllFiles_node n path [], w)
  end.

(** [array.sort(compare)]: the sort is stable. *)
Fixpoint sortInsert (compare : string -> string -> Z) (x : string) (l : list string)
    : list string :=
  match l with
  | [] => [x]
  | y :: l' => if (compare x y <=? 0)%Z then x :: l else y :: sortInsert compare x l'
  end.

Definition sort (compare : string -> string -> Z) (l : list string) : list string :=
  fold_right (sortInsert compare) [] l.

(** [array.forEach(f)] with the element, its index and the array, for a
    callback that threads a state and may throw. *)
Fixpoint forEachFrom {S : Type} (f : string -> nat -> list string -> S -> outcome S)
    (array rest : list string) (i : nat) (s : S) : outcome S :=
  match rest with
  | [] => Done s
  | x :: rest' => s' <- f x i array s ;; forEachFrom f array rest' (Datatypes.S i) s'
  end.

Definition forEach {S : Type} (f : string -> nat -> list string -> S -> outcome S)
    (array : list string) (s : S) : outcome S :=
  forEachFrom f array array 0 s.

(** ** [onPreInit] *)

Section OnPreInit.

(** [babel.transformSync] with the options the source passes to it: the
    body of the program, or the exception it throws. *)
Variable transformSync : string -> jsError + list statement.

Variable options : pluginOptions.

Definition outputName : option string := purgeOutputName (outputName_ options).

Definition previousOutputNames : list string :=
  map purgeOutputName_string (previousOutputNames_ options).

Definition possibleImportLines : list string :=
  map (fun path => "./" ++ path ++ "';")
    ((match outputName with Some name => [name] | None => [] end)
     ++ previousOutputNames)%list.

Definition containsOurImportStatement (code : string) : bool :=
  stringIncludesAny code possibleImportLines.

(** One turn of the [while(changed)] loop of [purgeImportedFieldsCode]:
    [Some code'] when the turn sets [changed] and assigns [code'] to
    [code], [None] when it leaves [changed] false. *)
Definition purgeStep (code : string) : option string :=
  let newCode := trimStart code in
  let firstImportStatement := getFirstImportStatement newCode in
  if containsOurImportStatement firstImportStatement then
    let importStatementEnd := indexOf newCode LF (len firstImportStatement) in
    Some (if (importStatementEnd <? 0)%Z then ""
          else substringFrom newCode (importStatementEnd + 1))
  else if startsWith newCode "<<<<<<< HEAD" then
    let headStartA := (indexOf newCode LF 0 + 1)%Z in
    if (1 <=? headStartA)%Z then
      let headEndA := indexOf newCode "=======" headStartA in
      if (0 <=? headEndA)%Z then
        let headA := trim (substring newCode headStartA headEndA) in
        let headStartB := (indexOf newCode LF headEndA + 1)%Z in
        if (1 <=? headStartB)%Z then
          let headEndB := indexOf newCode ">>>>>>>" headStartB in
          if (0 <=? headEndB)%Z then
            let headB := trim (substring newCode headStartB headEndB) in
            if containsOurImportStatement headA && containsOurImportStatement headB then
              let headEnd := (indexOf newCode LF headEndB + 1)%Z in
              Some (substringFrom newCode headEnd)
            else None
          else None
        else None
      else None
    else None
  else None.

(** [purgeImportedFieldsCode]: the loop runs until a turn changes nothing;
    [None] when it is still running after [fuel] turns. *)
Fixpoint purgeImportedFieldsCode (fuel : nat) (code : string) : option string :=
  match fuel with
  | O => None
  | S fuel' =>
      match purgeStep code with
      | Some code' => purgeImportedFieldsCode fuel' code'
      | None => Some code
      end
  end.

Definition purged (fuel : nat) (code : string) : outcome string :=
  match purgeImportedFieldsCode fuel code with
  | Some code' => Done code'
  | None => NoFuel
  end.

(** [getExportedFields]: whatever [babel.transformSync] throws is printed
    and answered by the empty list. *)
Definition getExportedFields (fuel : nat) (code : string) (codeIsPurged : bool)
    (w : world) : outcome (list string * world) :=
  text <- (if codeIsPurged then Done code else purged fuel code) ;;
  match transformSync text with
  | inr body => Done (exportedFieldsOfBody body, w)
  | inl e => Done ([], log (ConsoleError e) w)
  end.

Definition filter (file : string) : bool :=
  match filter_ options with
  | Some f => f file
  | None => true
  end.

Definition isSome {A : Type} (o : option A) : bool :=
  match o with Some _ => true | None => false end.

Definition state : Type := (accumulator * world)%type.

(** The three branches of [importFile], each with its own [filter] test. *)
Definition importJsFile (fuel : nat) (file : string) (st : state) : outcome state :=
  let '(acc, w) := st in
  if filter file then
    match readFileSync (root w) file with
    | inl e => Raised e
    | inr content =>
        r <- getExportedFields fuel content false w ;;
        let '(fields, w') := r in
        Done (mkAcc (importsCode acc ++ "import {" ++ join ", " fields
                       ++ "} from '" ++ file ++ "';" ++ LF)
                    (fold_left setTrue fields (exportedFields acc)), w')
    end
  else Done st.

Definition importOtherFile (file : string) (st : state) : outcome state :=
  let '(acc, w) := st in
  if filter file then
    Done (mkAcc (importsCode acc ++ "import '" ++ file ++ "';" ++ LF)
                (exportedFields acc), w)
  else Done st.

(** [result?.code] is appended when it is a string that is not empty, and
    a quote follows it; [result?.exports] is used when it is an array. *)
Definition importCustomFile (file : string) (index : nat) (array : list string)
    (st : state) : outcome state :=
  let '(acc, w) := st in
  match fileExtensionsCustom options with
  | Some custom =>
      if filter file then
        let result := custom file index array in
        let importsCode' :=
          match result with
          | Some (mkCustomResult (Some code) _) =>
              if String.eqb code "" then importsCode acc
              else importsCode acc ++ code ++ "'" ++ LF
          | _ => importsCode acc
          end in
        let exportedFields' :=
          match result with
          | Some (mkCustomResult _ (Some exports)) =>
              fold_left setTrue exports (exportedFields acc)
          | _ => exportedFields acc
          end in
        Done (mkAcc importsCode' exportedFields', w)
      else Done st
  | None => Done st
  end.

Definition importFile (fuel : nat) (file : string) (index : nat) (array : list string)
    (st : state) : outcome state :=
  if isSome outputName && isFileOfType file (fileExtensionsJs options) then
    importJsFile fuel file st
  else if isSome outputName && isFileOfType file (fileExtensionsOther options) then
    importOtherFile file st
  else
    importCustomFile file index array st.

Definition isQuote (c : ascii) : bool := Ascii.eqb c "'"%char || Ascii.eqb c "034"%char.

(** [regexImportReplacer], with the flag [i] and anchored at the start:
    group 1 is [\s*import\s*{\s*]; then [[^}]*]; group 2 is [[\S,]\s*}\s*from\s*]
    and a quote; then [.*]; group 3 is a quote, [\s*;] and all the text
    that follows.  A quote is ['] or the double quote. *)
Definition regexImportReplacer : Regex.re :=
  Regex.seq
    [Regex.Grp (Regex.seq [Regex.Star Regex.space; Regex.litI "import";
                           Regex.Star Regex.space; Regex.chrI "{"; Regex.Star Regex.space]);
     Regex.Star (Regex.noneOf "}");
     Regex.Grp (Regex.seq [Regex.Chr (fun c => Regex.nonSpace c || Ascii.eqb c ","%char);
                           Regex.Star Regex.space; Regex.chrI "}"; Regex.Star Regex.space;
                           Regex.litI "from"; Regex.Star Regex.space; Regex.Chr isQuote]);
     Regex.Star Regex.dot;
     Regex.Grp (Regex.seq [Regex.Chr isQuote; Regex.Star Regex.space; Regex.chrI ";";
                           Regex.Star Regex.anything])].

(** [Object.keys(exportedFields).filter(value => !fields.includes(value))] *)
Definition requiredFields (exported : jsObject) (fields : list string) : list string :=
  List.filter (fun value => negb (arrayIncludes fields value)) (Object_keys exported).

(** [firstImportStatement.replace(regexImportReplacer, (match, p1, p2, p3) => ...)]:
    the match is replaced by what the callback returns; the text is
    returned as it is when the expression does not match. *)
Definition replaceImport (firstImportStatement importLineFields importLineFrom : string)
    : string :=
  match Regex.exec regexImportReplacer firstImportStatement with
  | Some (groups, rest) =>
      let p1 := nth 0 groups "" in
      let p2 := nth 1 groups "" in
      let p3 := nth 2 groups "" in
      let p2 := if negb (startsWith p2 ",") then substringFrom p2 1 else p2 in
      p1 ++ importLineFields ++ p2 ++ importLineFrom ++ p3 ++ rest
  | None => firstImportStatement
  end.

(** [file.split('/').length - 2] *)
Definition levelsDeep (file : string) : Z :=
  (Z.of_nat (List.length (split "/" file)) - 2)%Z.

(** ['./' + '../'.repeat(levelsDeep) + outputName] *)
Definition importLineFrom (file name : string) : outcome string :=
  match repeat "../" (levelsDeep file) with
  | Some ups => Done ("./" ++ ups ++ name)
  | None => Raised (RangeError "Invalid count value")
  end.

(** The import line [modifyFile] puts in front of the purged code. *)
Definition newImportLine (code importLineFields from : string) : string :=
  let firstImportStatement := getFirstImportStatement code in
  if negb (String.eqb firstImportStatement "")
     && containsOurImportStatement firstImportStatement
     && Regex.test regexImportReplacer firstImportStatement
  then replaceImport firstImportStatement importLineFields from
  else "import {" ++ importLineFields ++ "} from '" ++ from ++ "';".

Definition modifyFile (fuel : nat) (file : string) (index : nat) (array : list string)
    (st : state) : outcome state :=
  let '(acc, w) := st in
  if isFileOfType file (fileExtensionsJs options) then
    match readFileSync (root w) file with
    | inl e => Raised e
    | inr code =>
        purgedCode <- purged fuel code ;;
        match outputName with
        | None =>
            w' <- setFileContentIfFirstCodeLineIsDifferent file purgedCode (Some code) w ;;
            Done (acc, w')
        | Some name =>
            r <- getExportedFields fuel purgedCode true w ;;
            let '(fields, w1) := r in
            let importLineFields := join ", " (requiredFields (exportedFields acc) fields) in
            from <- importLineFrom file name ;;
            let newCode := newImportLine code importLineFields from ++ LF ++ purgedCode in
            w' <- setFileContentIfFirstCodeLineIsDifferent file newCode (Some code) w1 ;;
            Done (acc, w')
        end
    end
  else Done st.

(** [roots.forEach(path => getAllFiles(purgePath(path)).sort(compareFileOrder).forEach(f))] *)
Fixpoint forEachRoot (f : string -> nat -> list string -> state -> outcome state)
    (roots : list string) (st : state) : outcome state :=
  match roots with
  | [] => Done st
  | path :: roots' =>
      let '(files, w) := getAllFiles (purgePath path) (snd st) in
      st' <- forEach f (sort compareFileOrder files) (fst st, w) ;;
      forEachRoot f roots' st'
  end.

(** The whole run, from a world to the world it leaves behind. *)
Definition onPreInit (fuel : nat) (w : world) : outcome world :=
  st <- forEachRoot (importFile fuel) (import_ options) (mkAcc "" [], w) ;;
  let '(acc, w1) := st in
  w2 <- match outputName with
        | Some name =>
            setFileContentIfDifferent ("./" ++ name)
              (importsCode acc ++ LF ++ "export {"
                 ++ join ", " (Object_keys (exportedFields acc)) ++ "};" ++ LF)
              None w1
        | None => Done w1
        end ;;
  st' <- forEachRoot (modifyFile fuel) (modify_ options) (acc, w2) ;;
  Done (snd st').

End OnPreInit.

(** ** Shapes of text the properties speak about *)

(** [sub] occurs in [a ++ sub] for the first time at its end: [a] is the
    text in front of the first occurrence of [sub]. *)
Definition firstAtEnd (sub a : string) : Prop :=
  search sub (a ++ sub) 0 = Some (String.length a).

(** A conflict block and the text after it: the three marker lines, each
    with the rest of its line, and the two sides between them. *)
Definition conflictBlock (l1 a l2 b l3 rest : string) : string :=
  "<<<<<<< HEAD" ++ l1 ++ LF ++ a ++ "=======" ++ l2 ++ LF
    ++ b ++ ">>>>>>>" ++ l3 ++ LF ++ rest.

(** The words of the specification for a side of a conflict block whose
    leading statement is ours: the side begins with an import statement
    and that statement refers to the output module. *)
Definition leadingStatementIsOurs (options : pluginOptions) (side : string) : bool :=
  containsOurImportStatement options (getFirstImportStatement side).

(** The names an export declaration binds, as the language defines them:
    the identifiers of a pattern, at any depth. *)
Fixpoint boundNames (p : pattern) : list string :=
  match p with
  | Identifier name => [name]
  | ArrayPattern elements =>
      (fix each (l : list (option pattern)) : list string :=
         match l with
         | [] => []
         | Some e :: l' => boundNames e ++ each l'
         | None :: l' => each l'
         end)%list elements
  | ObjectPattern properties =>
      (fix each (l : list objectMember) : list string :=
         match l with
         | [] => []
         | ObjectProperty _ v :: l' => boundNames v ++ each l'
         | RestMember r :: l' => boundNames r ++ each l'
         end)%list properties
  | AssignmentPattern target => boundNames target
  | RestElement argument => boundNames argument
  end.

(** The names a statement exports by name. *)
Definition exportedNames (node : statement) : list string :=
  match node with
  | ExportNamedDeclaration specs decl =>
      (map (fun spec => match spec with
                        | ExportedIdentifier n => n
                        | ExportedStringLiteral v => v
                        end) specs
       ++ match decl with
          | Some (VariableDeclaration ds) => concat (map boundNames ds)
          | Some (FunctionDeclaration n) => [n]
          | Some (ClassDeclaration n) => [n]
          | None => []
          end)%list
  | OtherStatement _ => []
  end.

(** The four shapes the extractor reads: an export specifier named by an
    identifier, and a variable declarator whose target is an identifier,
    an array pattern of identifiers and holes, or an object pattern whose
    property values are identifiers. *)
Definition isIdentifier (p : pattern) : bool :=
  match p with Identifier _ => true | _ => false end.

Definition flatPattern (p : pattern) : bool :=
  match p with
  | Identifier _ => true
  | ArrayPattern elements =>
      forallb (fun e => match e with Some q => isIdentifier q | None => true end) elements
  | ObjectPattern properties =>
      forallb (fun m => match m with
                        | ObjectProperty _ v => isIdentifier v
                        | RestMember _ => false
                        end) properties
  | _ => false
  end.

Definition flatExport (node : statement) : bool :=
  match node with
  | ExportNamedDeclaration specs decl =>
      forallb (fun spec => match spec with
                           | ExportedIdentifier _ => true
                           | ExportedStringLiteral _ => false
                           end) specs
      && match decl with
         | Some (VariableDeclaration ds) => forallb flatPattern ds
         | Some _ => false
         | None => true
         end
  | OtherStatement _ => true
  end.

(** ** Sample trees and configurations *)

Module Sample.

(** A parser given by its table: a text that is not listed does not parse. *)
Definition parserOf (table : list (string * list statement)) (text : string)
    : jsError + list statement :=
  match find (fun entry => String.eqb (fst entry) text) table with
  | Some entry => inr (snd entry)
  | None => inl (SyntaxError "Unexpected token")
  end.

Definition transformSync : string -> jsError + list statement :=
  parserOf
    [("foo();", [OtherStatement "ExpressionStatement"]);
     ("export const A = 1;",
      [ExportNamedDeclaration [] (Some (VariableDeclaration [Identifier "A"]))]);
     ("export const __proto__ = 1, B = 2;",
      [ExportNamedDeclaration []
         (Some (VariableDeclaration [Identifier "__proto__"; Identifier "B"]))]);
     ("const A = 0; export {A}; export const B = 1, [C] = list, {D} = object;",
      [OtherStatement "VariableDeclaration";
       ExportNamedDeclaration [ExportedIdentifier "A"] None;
       ExportNamedDeclaration []
         (Some (VariableDeclaration
                  [Identifier "B";
                   ArrayPattern [Some (Identifier "C")];
                   ObjectPattern [ObjectProperty "D" (Identifier "D")]]))]);
     ("export const {A = 1, B} = object;",
      [ExportNamedDeclaration []
         (Some (VariableDeclaration
                  [ObjectPattern [ObjectProperty "A" (AssignmentPattern (Identifier "A"));
                                  ObjectProperty "B" (Identifier "B")]]))]);
     ("export const [[A], B] = list;",
      [ExportNamedDeclaration []
         (Some (VariableDeclaration
                  [ArrayPattern [Some (ArrayPattern [Some (Identifier "A")]);
                                 Some (Identifier "B")]]))])].

(** The defaults of the schema, with [./src] both read and rewritten. *)
Definition options : pluginOptions :=
  mkOptions ["./src"] ["./src"] None (Some "imports.js") []
    ["js"; "jsx"] ["css"; "less"; "sass"; "scss"] None.

(** The handler of the README, for [.ts] files. *)
Definition custom (file : string) (index : nat) (array : list string)
    : option customResult :=
  if endsWith (toLowerCase file) ".ts"
  then Some (mkCustomResult (Some ("import {a, b, c} from '" ++ file ++ "';"))
                            (Some ["a"; "b"; "c"]))
  else None.

(** No output file, and the handler above. *)
Definition noOutput : pluginOptions :=
  mkOptions ["./src"] ["./src"] None None []
    ["js"; "jsx"] ["css"; "less"; "sass"; "scss"] (Some custom).

(** A file whose generated import was reformatted with spaces inside the
    braces, in a project that exports nothing. *)
Definition spaced : string := "import { A } from './../imports.js';" ++ LF ++ "foo();".

Definition tree : node := Directory [("src", Directory [("p.js", File spaced)])].

Definition start : world := mkWorld tree [] [].

(** A file that is one conflict block between two generated imports and
    ends with the closing marker, without a line end after it. *)
Definition unterminated : string :=
  "<<<<<<< HEAD" ++ LF ++ "import {A} from './imports.js';" ++ LF
    ++ "=======" ++ LF ++ "import {A, B} from './imports.js';" ++ LF
    ++ ">>>>>>> other".

(** The first side of this block starts with a statement of the user. *)
Definition sideA : string := "foo();" ++ LF ++ "import {A} from './imports.js';" ++ LF.
Definition sideB : string := "import {B} from './imports.js';" ++ LF.
Definition mixed : string := conflictBlock "" sideA "" sideB " other" "rest".

(** A file that exports the name [__proto__] besides [B]. *)
Definition exporting : string := "export const __proto__ = 1, B = 2;".

Definition exportingTree : node := Directory [("src", Directory [("a.js", File exporting)])].

(** A file that exports in each of the four shapes the extractor reads. *)
Definition fourShapes : string :=
  "const A = 0; export {A}; export const B = 1, [C] = list, {D} = object;".

Definition fourShapesTree : node :=
  Directory [("src", Directory [("a.js", File fourShapes)])].

(** Two files that declare [A] and [B] by destructuring: [A] with a default
    value, and [A] one level down. *)
Definition withDefault : string := "export const {A = 1, B} = object;".
Definition nested : string := "export const [[A], B] = list;".

(** The accumulator when another file has exported [A] and [B]. *)
Definition collected : accumulator := mkAcc "" ["A"; "B"].

End Sample.

(** ** Further notions the properties speak about *)

(** A name [readdirSync] can return: not empty, not [.], without a slash. *)
Definition validName (name : string) : bool :=
  negb (String.eqb name "") && negb (String.eqb name ".") && negb (includes name "/").

(** A tree as a file system holds it: in each directory the names are
    valid and no name occurs twice. *)
Fixpoint wellFormed (n : node) : Prop :=
  match n with
  | File _ => True
  | Directory entries =>
      NoDup (map fst entries)
      /\ (fix each (l : list (string * node)) : Prop :=
            match l with
            | [] => True
            | (name, child) :: l' => validName name = true /\ wellFormed child /\ each l'
            end) entries
  end.

(** The number of files in a tree. *)
Fixpoint fileCount (n : node) : nat :=
  match n with
  | File _ => 1
  | Directory entries =>
      (fix each (l : list (string * node)) : nat :=
         match l with
         | [] => 0
         | (_, child) :: l' => fileCount child + each l'
         end) entries
  end.

(** The path of what lies [segs] below [path]. *)
Definition pathBelow (path : string) (segs : list string) : string :=
  fold_left (fun p seg => p ++ "/" ++ seg) segs path.

(** A write the "modify" phase may perform: to a js-like path below one of
    the configured "modify" roots. *)
Definition managed (options : pluginOptions) (entry : string * string) : Prop :=
  isFileOfType (fst entry) (fileExtensionsJs options) = true
  /\ exists r, In r (modify_ options) /\ startsWith (fst entry) (purgePath r) = true.

(** Every code unit of a text passes a test. *)
Fixpoint allChars (p : ascii -> bool) (s : string) : bool :=
  match s with
  | "" => true
  | String c s' => p c && allChars p s'
  end.

(** What a star that has taken [x] in front of [s] tries when the rest
    fails: to give back the code units of [x], the last one first. *)
Fixpoint retreat {A : Type} (x s : string) (k : string -> option A) : option A :=
  match x with
  | "" => None
  | String c x' =>
      match retreat x' s k with
      | Some r => Some r
      | None => k (String c x' ++ s)
      end
  end.

(** The three groups of [regexImportReplacer]. *)
Definition group1 : Regex.re :=
  Regex.Grp (Regex.seq [Regex.Star Regex.space; Regex.litI "import";
                        Regex.Star Regex.space; Regex.chrI "{"; Regex.Star Regex.space]).
Definition group2 : Regex.re :=
  Regex.Grp (Regex.seq [Regex.Chr (fun c => Regex.nonSpace c || Ascii.eqb c ","%char);
                        Regex.Star Regex.space; Regex.chrI "}"; Regex.Star Regex.space;
                        Regex.litI "from"; Regex.Star Regex.space; Regex.Chr isQuote]).
Definition group3 : Regex.re :=
  Regex.Grp (Regex.seq [Regex.Chr isQuote; Regex.Star Regex.space; Regex.chrI ";";
                        Regex.Star Regex.anything]).

(** A code unit of a name in an import list: no white space and none of
    the punctuation of the statement. *)
Definition nameChar (c : ascii) : bool :=
  negb (isWhiteSpace c) && Regex.noneOf "{},;" c.

(** A name the import list can carry: not empty, made of such code units. *)
Definition plainName (name : string) : bool :=
  negb (String.eqb name "") && allChars nameChar name.

(** ** A second sample project *)

Module Project.

(** A file that carries the import the plugin generates for it. *)
Definition imported : string :=
  "import {A, B} from './../imports.js';" ++ LF ++ "foo();".

(** A generated import with a remark after it on the same line. *)
Definition remarked : string :=
  "import {A} from './imports.js'; // generated" ++ LF ++ "foo();".

(** The output switched off after [imports.js] had been in use. *)
Definition retired : pluginOptions :=
  mkOptions ["./src"] ["./src"] None None ["imports.js"]
    ["js"; "jsx"] ["css"; "less"; "sass"; "scss"] None.

Definition src : node :=
  Directory [("components", Directory [("App.jsx", File "export const A = 1;")]);
             ("p.js", File imported);
             ("style.css", File "body {}")].

Definition layout : node := Directory [("src", src)].

Definition initial : world := mkWorld layout [] [].

End Project.

(** ** Matches, lines and classes *)

(** What an expression can match: [matches r x caps] when [r] can take
    the text [x] and captures [caps] on the way. *)
Fixpoint matches (r : Regex.re) (x : string) (caps : list string) : Prop :=
  match r with
  | Regex.Eps => x = "" /\ caps = []
  | Regex.Chr p => exists c, x = String c "" /\ p c = true /\ caps = []
  | Regex.Star p => allChars p x = true /\ caps = []
  | Regex.Cat r1 r2 =>
      exists x1 x2 caps1 caps2,
        x = x1 ++ x2 /\ matches r1 x1 caps1 /\ matches r2 x2 caps2
        /\ caps = (caps1 ++ caps2)%list
  | Regex.Grp r1 => exists inner, matches r1 x inner /\ caps = (inner ++ [x])%list
  end.

(** An import statement as the replacement of [modifyFile] leaves it: white
    space where [regexImportReplacer] allows it, the two words in any letter
    casing, the list [fields] - followed by the comma that closed the old
    list, if it had one - and [from] between two quotes. *)
Definition splicedLine (fields from line : string) : Prop :=
  exists ws0 imp ws1 ws2 comma ws3 ws4 frm ws5 q1 q2 ws6 tail,
    allChars Regex.space (ws0 ++ ws1 ++ ws2 ++ ws3 ++ ws4 ++ ws5 ++ ws6) = true
    /\ toLowerCase imp = "import" /\ toLowerCase frm = "from"
    /\ (comma = "" \/ comma = ",")
    /\ isQuote q1 = true /\ isQuote q2 = true
    /\ line = ws0 ++ imp ++ ws1 ++ "{" ++ ws2 ++ fields ++ comma ++ ws3 ++ "}" ++ ws4
              ++ frm ++ ws5 ++ String q1 (from ++ String q2 (ws6 ++ ";" ++ tail)).

(** The extension as [isFileOfType] compares it: with a dot in front when
    it has none. *)
Definition withDot (type : string) : string :=
  if startsWith type "." then type else "." ++ type.

(** The words of the specification for the class of a file: a suffix
    match that ignores letter casing, against a list of extensions. *)
Definition endsWithIgnoringCase (file suffix : string) : Prop :=
  exists stem tail, file = stem ++ tail /\ toLowerCase tail = toLowerCase suffix.

Definition hasExtension (file : string) (types : list string) : Prop :=
  exists type, In type types /\ endsWithIgnoringCase file (withDot type).

(** ** A site with pages *)

Module Site.

(** The configuration of the README: [./src] is read, [./pages] is
    rewritten. *)
Definition options : pluginOptions :=
  mkOptions ["./src"] ["./pages"] None (Some "imports.js") []
    ["js"; "jsx"] ["css"; "less"; "sass"; "scss"] None.

Definition tree : node :=
  Directory [("pages", Directory [("p.js", File "foo();")]);
             ("src", Directory [("a.js", File "export const A = 1;")])].

Definition initial : world := mkWorld tree [] [].


End Site.

(** * Properties *)

(** ** Facts about the string operations *)

Module JsStringFacts.

Lemma length_app (a b : string) :
  String.length (a ++ b) = String.length a + String.length b.
Proof. induction a as [|c a IH]; simpl; [reflexivity | now rewrite IH]. Qed.

Lemma app_assoc (a b c : string) : (a ++ b) ++ c = a ++ b ++ c.
Proof. induction a as [|x a IH]; simpl; [reflexivity | now rewrite IH]. Qed.

Lemma app_empty_r (a : string) : a ++ "" = a.
Proof. induction a as [|x a IH]; simpl; [reflexivity | now rewrite IH]. Qed.

Lemma drop_app (a b : string) : drop (String.length a) (a ++ b) = b.
Proof. induction a as [|x a IH]; simpl; [reflexivity | exact IH]. Qed.

Lemma drop_all (a : string) : drop (String.length a) a = "".
Proof. induction a as [|x a IH]; simpl; [reflexivity | exact IH]. Qed.

Lemma take_app (a b : string) : take (String.length a) (a ++ b) = a.
Proof. induction a as [|x a IH]; simpl; [reflexivity | now rewrite IH]. Qed.

Lemma take_all (a : string) : take (String.length a) a = a.
Proof. induction a as [|x a IH]; simpl; [reflexivity | now rewrite IH]. Qed.

Lemma startsWith_app (p s : string) : startsWith (p ++ s) p = true.
Proof.
  induction p as [|c p IH]; simpl; [reflexivity |].
  now rewrite Ascii.eqb_refl, IH.
Qed.

Lemma startsWith_inv (s p : string) :
  startsWith s p = true -> exists rest, s = p ++ rest.
Proof.
  revert s; induction p as [|c p IH]; intros s H; simpl in *.
  - now exists s.
  - destruct s as [|d s]; [discriminate |].
    apply andb_prop in H as [Hc Hs].
    apply Ascii.eqb_eq in Hc; subst d.
    destruct (IH _ Hs) as [rest ->]. now exists rest.
Qed.

(** A prefix no longer than [x] is decided inside [x]. *)
Lemma startsWith_long (x y p : string) :
  String.length p <= String.length x ->
  startsWith (x ++ y) p = startsWith x p.
Proof.
  revert x; induction p as [|c p IH]; intros x H; simpl in *; [reflexivity |].
  destruct x as [|d x]; simpl in *; [lia |].
  rewrite IH by lia. reflexivity.
Qed.

Lemma search_shift (sub s : string) (k : nat) :
  search sub s k = option_map (fun i => k + i) (search sub s 0).
Proof.
  revert k; induction s as [|c s IH]; intros k; simpl.
  - destruct (startsWith "" sub); simpl; [now rewrite Nat.add_0_r | reflexivity].
  - destruct (startsWith (String c s) sub); simpl; [now rewrite Nat.add_0_r |].
    rewrite (IH (S k)), (IH 1).
    destruct (search sub s 0); simpl; [f_equal; lia | reflexivity].
Qed.

Lemma search_cons (sub : string) (c : ascii) (s : string) (k : nat) :
  search sub (String c s) k
  = if startsWith (String c s) sub then Some k else search sub s (S k).
Proof. reflexivity. Qed.

Lemma search_here (sub y : string) (k : nat) : search sub (sub ++ y) k = Some k.
Proof.
  destruct (sub ++ y) as [|c s] eqn:E.
  - destruct sub; [reflexivity | discriminate].
  - rewrite search_cons, <- E, startsWith_app. reflexivity.
Qed.

Lemma search_firstAtEnd (sub a y : string) (k : nat) :
  firstAtEnd sub a -> search sub (a ++ sub ++ y) k = Some (k + String.length a).
Proof.
  unfold firstAtEnd. revert k; induction a as [|c a IH]; intros k H.
  - simpl. rewrite search_here. f_equal. lia.
  - simpl String.append in *. rewrite search_cons in *.
    assert (E : startsWith (String c (a ++ sub ++ y)) sub
                = startsWith (String c (a ++ sub)) sub).
    { rewrite <- (app_assoc a sub y).
      apply (startsWith_long (String c (a ++ sub)) y sub).
      simpl. rewrite length_app. lia. }
    rewrite E. destruct (startsWith (String c (a ++ sub)) sub).
    + discriminate.
    + rewrite IH.
      * f_equal. simpl. lia.
      * rewrite search_shift in H.
        destruct (search sub (a ++ sub) 0) as [i|]; simpl in H; [| discriminate].
        injection H as H. f_equal. lia.
Qed.

Lemma search_none_app (sub a : string) (k : nat) :
  search sub a k = None -> String.length sub = 1 ->
  forall b, search sub (a ++ b) k = search sub b (k + String.length a).
Proof.
  revert k; induction a as [|c a IH]; intros k H L b.
  - simpl. now rewrite Nat.add_0_r.
  - simpl in H. simpl String.append. simpl search at 1.
    change (String c (a ++ b)) with (String c a ++ b).
    rewrite startsWith_long by (simpl; lia).
    destruct (startsWith (String c a) sub); [discriminate |].
    rewrite IH by assumption. f_equal. simpl. lia.
Qed.

Lemma toLowerCase_app (a b : string) :
  toLowerCase (a ++ b) = toLowerCase a ++ toLowerCase b.
Proof. induction a as [|x a IH]; simpl; [reflexivity | now rewrite IH]. Qed.

Lemma endsWith_app (a b : string) : endsWith (a ++ b) b = true.
Proof.
  unfold endsWith. rewrite length_app.
  replace (String.length a + String.length b - String.length b) with (String.length a) by lia.
  rewrite drop_app, String.eqb_refl, Bool.andb_true_r.
  apply Nat.leb_le. lia.
Qed.

Lemma clamp_length (s : string) : clamp s (len s) = String.length s.
Proof. unfold clamp, len. lia. Qed.

Lemma clamp_inside (s : string) (n : nat) :
  n <= String.length s -> clamp s (Z.of_nat n) = n.
Proof. unfold clamp, len. lia. Qed.

Lemma clamp_negative (s : string) (i : Z) : (i <= 0)%Z -> clamp s i = 0.
Proof. unfold clamp, len. lia. Qed.

End JsStringFacts.

Import JsStringFacts.

(** ** The import path of a rewritten file *)

Section ImportPath.

Variable options : pluginOptions.

Lemma repeat_nonnegative (s : string) (n : nat) :
  repeat s (Z.of_nat n) = Some (repeatNat s n).
Proof.
  unfold repeat. destruct (Z.of_nat n <? 0)%Z eqn:E; [apply Z.ltb_lt in E; lia |].
  now rewrite Nat2Z.id.
Qed.

Lemma importLineFrom_two_segments (file name : string) (s : nat) :
  List.length (split "/" file) = s -> 2 <= s ->
  importLineFrom file name = Done ("./" ++ repeatNat "../" (s - 2) ++ name).
Proof.
  intros Hs Hle. unfold importLineFrom, levelsDeep. rewrite Hs.
  replace (Z.of_nat s - 2)%Z with (Z.of_nat (s - 2)) by lia.
  now rewrite repeat_nonnegative.
Qed.

(** A path without a slash has one segment: the count handed to [repeat]
    is [-1] and the call throws. *)
Lemma importLineFrom_one_segment (file name : string) :
  List.length (split "/" file) = 1 ->
  importLineFrom file name = Raised (RangeError "Invalid count value").
Proof.
  intros Hs. unfold importLineFrom, levelsDeep. rewrite Hs. reflexivity.
Qed.

End ImportPath.

(** ** How [importFile] chooses a branch *)

Section Dispatch.

Variable transformSync : string -> jsError + list statement.
Variable options : pluginOptions.

(** C10.  With the output name set to [null] the first two tests of
    [importFile] fail whatever the extension, so every collected file goes
    to the custom handler's branch; a configured handler is called on a
    file the filter accepts, its exports are recorded, and without a
    handler nothing happens. *)
Theorem disabled_output_sends_every_file_to_custom
    (Hnull : outputName_ options = None) :
  (forall fuel file index array st,
     importFile transformSync options fuel file index array st
     = importCustomFile options file index array st)
  /\ (forall custom file index array acc w code exports,
        fileExtensionsCustom options = Some custom ->
        filter options file = true ->
        custom file index array = Some (mkCustomResult (Some code) (Some exports)) ->
        code <> "" ->
        forall fuel,
          importFile transformSync options fuel file index array (acc, w)
          = Done (mkAcc (importsCode acc ++ code ++ "'" ++ LF)
                        (fold_left setTrue exports (exportedFields acc)), w))
  /\ (forall fuel file index array st,
        fileExtensionsCustom options = None ->
        importFile transformSync options fuel file index array st = Done st).
Proof.
  assert (E : forall fuel file index array st,
             importFile transformSync options fuel file index array st
             = importCustomFile options file index array st).
  { intros. unfold importFile, outputName. rewrite Hnull. reflexivity. }
  split; [exact E | split].
  - intros custom file index array acc w code exports Hc Hf Hr Hne fuel.
    rewrite E. unfold importCustomFile. rewrite Hc, Hf, Hr.
    apply String.eqb_neq in Hne. now rewrite Hne.
  - intros fuel file index array [acc w] Hc. rewrite E.
    unfold importCustomFile. now rewrite Hc.
Qed.

(** C7.  When [babel.transformSync] throws on the text it is given - the
    code itself when it is already purged, the purged code otherwise -
    [getExportedFields] prints the exception and returns the empty list;
    nothing is thrown further, and [importFile] goes on with an import
    statement that names no identifier and adds nothing to the exports. *)
Theorem parse_failure_yields_no_fields
    (fuel : nat) (code text : string) (codeIsPurged : bool) (e : jsError) (w : world)
    (Htext : (if codeIsPurged then Done code else purged options fuel code) = Done text)
    (Hthrows : transformSync text = inl e) :
  getExportedFields transformSync options fuel code codeIsPurged w
  = Done ([], log (ConsoleError e) w)
  /\ (forall file acc,
        codeIsPurged = false ->
        filter options file = true ->
        readFileSync (root w) file = inr code ->
        importJsFile transformSync options fuel file (acc, w)
        = Done (mkAcc (importsCode acc ++ "import {} from '" ++ file ++ "';" ++ LF)
                      (exportedFields acc),
                log (ConsoleError e) w)).
Proof.
  assert (G : getExportedFields transformSync options fuel code codeIsPurged w
              = Done ([], log (ConsoleError e) w)).
  { unfold getExportedFields. rewrite Htext. simpl. now rewrite Hthrows. }
  split; [exact G |].
  intros file acc Hp Hf Hr. subst codeIsPurged.
  unfold importJsFile. rewrite Hf, Hr, G. reflexivity.
Qed.

End Dispatch.

(** C8 as the specification words it fails, twice.  With the output name
    set to [null], a file that ends in the js-like extension [js] is not
    treated as js-like by [importFile]: it goes to the custom handler, which
    here declines it, and contributes nothing.  And since only the path is
    lower-cased, an extension configured with a capital letter matches no
    file, not even one that ends in exactly that extension. *)
Lemma file_class_is_not_suffix_match_alone :
  (isFileOfType "./src/p.js" (fileExtensionsJs Sample.noOutput) = true
   /\ importFile Sample.transformSync Sample.noOutput 8 "./src/p.js" 0 ["./src/p.js"]
        (mkAcc "" [], Sample.start)
      = Done (mkAcc "" [], Sample.start))
  /\ ~ (forall file type types,
          In type types ->
          endsWith (toLowerCase file) (toLowerCase ("." ++ type)) = true ->
          isFileOfType file types = true).
Proof.
  split; [split; reflexivity |].
  intros H. specialize (H "a.JS" "JS" ["JS"] (or_introl eq_refl) eq_refl).
  vm_compute in H. discriminate.
Qed.

(** ** The writers *)

Lemma includes_false (s sub : string) : includes s sub = false -> search sub s 0 = None.
Proof. unfold includes. destruct (search sub s 0); [discriminate | reflexivity]. Qed.

Lemma indexOf_absent (s sub : string) : includes s sub = false -> indexOf s sub 0 = (-1)%Z.
Proof.
  intros H. unfold indexOf. rewrite clamp_negative by lia. simpl.
  now rewrite (includes_false _ _ H).
Qed.

Lemma indexOf_first_char (pre post : string) (c : ascii) :
  includes pre (String c "") = false ->
  indexOf (pre ++ String c post) (String c "") 0 = len pre.
Proof.
  intros H. unfold indexOf. rewrite clamp_negative by lia. simpl drop.
  rewrite (search_none_app _ _ _ (includes_false _ _ H) eq_refl).
  change (String c post) with (String c "" ++ post).
  now rewrite search_here.
Qed.

Lemma substring_prefix (a b : string) : substring (a ++ b) 0 (len a) = a.
Proof.
  unfold substring. rewrite clamp_negative by lia.
  unfold len. rewrite clamp_inside by (rewrite length_app; lia).
  rewrite Nat.max_0_l, Nat.min_0_l, Nat.sub_0_r. simpl drop. apply take_app.
Qed.

Lemma getFirstCodeLine_statement (pre post : string) :
  includes pre ";" = false -> getFirstCodeLine (pre ++ ";" ++ post) = trim pre.
Proof.
  intros H. unfold getFirstCodeLine.
  change (";" ++ post) with (String ";" post).
  rewrite (indexOf_first_char pre post ";" H).
  destruct (0 <=? len pre)%Z eqn:E; [| unfold len in E; apply Z.leb_gt in E; lia].
  now rewrite substring_prefix.
Qed.

Lemma getFirstCodeLine_no_semicolon (code : string) :
  includes code ";" = false -> getFirstCodeLine code = trim code.
Proof.
  intros H. unfold getFirstCodeLine. now rewrite (indexOf_absent _ _ H).
Qed.

Lemma write_records (file content : string) (w w' : world) :
  write file content w = Done w' ->
  written w' = (written w ++ [(file, content)])%list /\ console w' = console w.
Proof.
  unfold write. destruct (writeFileSync (root w) file content); [discriminate |].
  intros H. injection H as <-. split; reflexivity.
Qed.

Lemma replaceEntry_lookup (name : string) (f : option node -> option node)
    (entries entries' : list (string * node)) :
  replaceEntry name f entries = Some entries' ->
  exists child', f (findEntry name entries) = Some child'
                 /\ findEntry name entries' = Some child'.
Proof.
  revert entries'; induction entries as [|[n child] entries IH]; intros entries' H; simpl in *.
  - destruct (f None) as [c|]; [| discriminate]. injection H as <-.
    exists c. simpl. now rewrite String.eqb_refl.
  - destruct (String.eqb n name) eqn:E.
    + destruct (f (Some child)) as [c|]; [| discriminate]. injection H as <-.
      exists c. simpl. now rewrite E.
    + destruct (replaceEntry name f entries) as [es|]; [| discriminate].
      injection H as <-. destruct (IH _ eq_refl) as [c [Hf Hfind]].
      exists c. simpl. now rewrite E.
Qed.

Lemma writeNode_lookup (segs : list string) (content : string) (n : option node) (n' : node) :
  writeNode segs content n = Some n' -> lookupNode segs n' = Some (File content).
Proof.
  revert n n'; induction segs as [|seg segs IH]; intros n n' H; simpl in *.
  - destruct n as [[c|es]|]; try discriminate; now injection H as <-.
  - destruct n as [[c|entries]|]; try discriminate.
    destruct (replaceEntry seg (writeNode segs content) entries) as [es|] eqn:E;
      [| discriminate].
    injection H as <-.
    destruct (replaceEntry_lookup _ _ _ _ E) as [c [Hw Hfind]].
    rewrite Hfind. exact (IH _ _ Hw).
Qed.

Lemma write_then_read (file content : string) (w w' : world) :
  write file content w = Done w' -> readFileSync (root w') file = inr content.
Proof.
  unfold write, writeFileSync, readFileSync, stat.
  destruct (String.eqb file "") eqn:E; [discriminate |].
  destruct (writeNode (segments file) content (Some (root w))) as [n'|] eqn:Hw;
    [| discriminate].
  intros H. injection H as <-. cbn [root].
  now rewrite (writeNode_lookup _ _ _ _ Hw).
Qed.

(** C9.  Called without old content, each writer reads the file and takes
    the empty text when the read throws (the file is absent or is not a
    file); an old content that is given is compared as it is.  The
    aggregator's writer writes exactly when the trimmed old and new
    contents differ, the consumers' writer exactly when their first code
    lines differ; otherwise the world is left as it is.  The first code
    line is the trimmed text before the first [;], or the whole trimmed
    text when there is no [;].  A write that returns is recorded once, and
    the file then holds the new content. *)
Theorem writers_write_only_on_difference (file newContent : string) (w : world) :
  let oldContent := match readFileSync (root w) file with
                    | inr content => content
                    | inl _ => ""
                    end in
  setFileContentIfDifferent file newContent None w
  = (if String.eqb (trim oldContent) (trim newContent) then Done w
     else write file newContent w)
  /\ setFileContentIfFirstCodeLineIsDifferent file newContent None w
     = (if String.eqb (getFirstCodeLine oldContent) (getFirstCodeLine newContent)
        then Done w else write file newContent w)
  /\ (forall given,
        setFileContentIfFirstCodeLineIsDifferent file newContent (Some given) w
        = (if String.eqb (getFirstCodeLine given) (getFirstCodeLine newContent)
           then Done w else write file newContent w))
  /\ (stat (root w) file = None -> oldContent = "")
  /\ (forall pre post,
        includes pre ";" = false -> getFirstCodeLine (pre ++ ";" ++ post) = trim pre)
  /\ (forall code, includes code ";" = false -> getFirstCodeLine code = trim code)
  /\ (forall w',
        write file newContent w = Done w' ->
        written w' = (written w ++ [(file, newContent)])%list
        /\ readFileSync (root w') file = inr newContent).
Proof.
  cbv zeta.
  split; [| split; [| split; [| split; [| split; [| split]]]]].
  - unfold setFileContentIfDifferent, oldContentOr.
    now destruct (String.eqb _ _).
  - unfold setFileContentIfFirstCodeLineIsDifferent, oldContentOr.
    now destruct (String.eqb _ _).
  - intros given. unfold setFileContentIfFirstCodeLineIsDifferent, oldContentOr.
    now destruct (String.eqb _ _).
  - intros Hnone. unfold readFileSync. now rewrite Hnone.
  - apply getFirstCodeLine_statement.
  - apply getFirstCodeLine_no_semicolon.
  - intros w' Hwrite. split.
    + now apply write_records in Hwrite.
    + now apply write_then_read in Hwrite.
Qed.

(** ** The purge loop *)

Lemma len_app (a b : string) : len (a ++ b) = (len a + len b)%Z.
Proof. unfold len. rewrite length_app. lia. Qed.

Lemma firstAtEnd_absent (sub x : string) :
  String.length sub = 1 -> includes x sub = false -> firstAtEnd sub x.
Proof.
  intros L H. unfold firstAtEnd.
  rewrite (search_none_app _ _ _ (includes_false _ _ H) L).
  rewrite <- (app_empty_r sub) at 2. rewrite search_here. reflexivity.
Qed.

Lemma includes_app_absent (sub a b : string) :
  String.length sub = 1 -> includes a sub = false -> includes b sub = false ->
  includes (a ++ b) sub = false.
Proof.
  intros L Ha Hb. unfold includes.
  rewrite (search_none_app _ _ _ (includes_false _ _ Ha) L).
  rewrite search_shift, (includes_false _ _ Hb). reflexivity.
Qed.

Lemma indexOf_middle (p m sub s : string) :
  firstAtEnd sub m -> indexOf (p ++ m ++ sub ++ s) sub (len p) = (len p + len m)%Z.
Proof.
  intros H. unfold indexOf, len.
  rewrite clamp_inside by (rewrite length_app; lia).
  rewrite drop_app, (search_firstAtEnd _ _ _ _ H). lia.
Qed.

Lemma substring_middle (p m s : string) :
  substring (p ++ m ++ s) (len p) (len p + len m) = m.
Proof.
  unfold substring, len.
  rewrite clamp_inside by (rewrite length_app; lia).
  replace (Z.of_nat (String.length p) + Z.of_nat (String.length m))%Z
    with (Z.of_nat (String.length p + String.length m)) by lia.
  rewrite clamp_inside by (rewrite !length_app; lia).
  rewrite Nat.min_l, Nat.max_r by lia.
  replace (String.length p + String.length m - String.length p) with (String.length m) by lia.
  rewrite drop_app. apply take_app.
Qed.

Lemma substringFrom_suffix (p s : string) : substringFrom (p ++ s) (len p) = s.
Proof.
  unfold substringFrom, substring.
  rewrite clamp_length. unfold len. rewrite clamp_inside by (rewrite length_app; lia).
  rewrite Nat.min_l, Nat.max_r by (rewrite length_app; lia).
  rewrite drop_app, length_app.
  replace (String.length p + String.length s - String.length p) with (String.length s) by lia.
  apply take_all.
Qed.

Lemma stringIncludesAny_fold (s : string) (l : list string) (acc : bool) :
  fold_left (fun includes_ substring =>
               if negb includes_ then includes s substring else includes_) l acc
  = acc || existsb (includes s) l.
Proof.
  revert acc; induction l as [|x l IH]; intros acc; simpl.
  - now rewrite orb_false_r.
  - rewrite IH. destruct acc; simpl; reflexivity.
Qed.

Lemma stringIncludesAny_existsb (s : string) (l : list string) :
  stringIncludesAny s l = existsb (includes s) l.
Proof. unfold stringIncludesAny. now rewrite stringIncludesAny_fold. Qed.

Lemma trimStart_length (s : string) : String.length (trimStart s) <= String.length s.
Proof.
  induction s as [|c s IH]; simpl; [lia |].
  destruct (isWhiteSpace c); simpl; lia.
Qed.

Lemma trimStart_idempotent (s : string) : trimStart (trimStart s) = trimStart s.
Proof.
  induction s as [|c s IH]; simpl; [reflexivity |].
  destruct (isWhiteSpace c) eqn:E; [exact IH |].
  simpl. now rewrite E.
Qed.

Lemma drop_length (n : nat) (s : string) : String.length (drop n s) = String.length s - n.
Proof.
  revert s; induction n as [|n IH]; intros s; simpl; [lia |].
  destruct s as [|c s]; simpl; [reflexivity | apply IH].
Qed.

Lemma take_length (n : nat) (s : string) :
  String.length (take n s) = Nat.min n (String.length s).
Proof.
  revert s; induction n as [|n IH]; intros s; simpl; [reflexivity |].
  destruct s as [|c s]; simpl; [reflexivity | now rewrite IH].
Qed.

Lemma take_whole (n : nat) (s : string) : String.length s <= n -> take n s = s.
Proof.
  revert s; induction n as [|n IH]; intros s H.
  - destruct s; [reflexivity | simpl in H; lia].
  - destruct s as [|c s]; simpl; [reflexivity |]. rewrite IH; [reflexivity | simpl in H; lia].
Qed.

Lemma clamp_bound (s : string) (i : Z) : clamp s i <= String.length s.
Proof. unfold clamp, len. lia. Qed.

Lemma substringFrom_drop (s : string) (i : Z) : substringFrom s i = drop (clamp s i) s.
Proof.
  unfold substringFrom, substring. rewrite clamp_length.
  pose proof (clamp_bound s i).
  rewrite Nat.min_l, Nat.max_r by lia.
  apply take_whole. rewrite drop_length. lia.
Qed.

Lemma substringFrom_shorter (s : string) (i : Z) :
  (1 <= i)%Z -> s <> "" -> String.length (substringFrom s i) < String.length s.
Proof.
  intros Hi Hs. rewrite substringFrom_drop, drop_length.
  assert (0 < String.length s) by (destruct s; [congruence | simpl; lia]).
  assert (1 <= clamp s i) by (unfold clamp, len; lia). lia.
Qed.

Lemma substringFrom_start (s : string) (i : Z) : (i <= 0)%Z -> substringFrom s i = s.
Proof. intros H. rewrite substringFrom_drop, clamp_negative by exact H. reflexivity. Qed.

Lemma indexOf_lower (s sub : string) (pos : Z) : (-1 <= indexOf s sub pos)%Z.
Proof. unfold indexOf. destruct (search _ _ _); lia. Qed.

Section Purge.

Variable options : pluginOptions.

Lemma containsOur_empty : containsOurImportStatement options "" = false.
Proof.
  unfold containsOurImportStatement. rewrite stringIncludesAny_existsb.
  unfold possibleImportLines.
  induction (_ ++ previousOutputNames options)%list as [|x l IH]; simpl; [reflexivity | exact IH].
Qed.

Lemma not_an_import (s : string) : getFirstImportStatement (String "<" s) = "".
Proof. reflexivity. Qed.

(** A marker and the rest of its line hold no line end, so the first line
    end after the marker closes the line. *)
Ltac marker_line :=
  apply firstAtEnd_absent;
  [reflexivity | apply includes_app_absent; [reflexivity | reflexivity | assumption]].

Lemma purgeStep_conflict (code l1 a l2 b l3 rest : string) :
  trimStart code = conflictBlock l1 a l2 b l3 rest ->
  includes l1 LF = false -> firstAtEnd "=======" a ->
  includes l2 LF = false -> firstAtEnd ">>>>>>>" b ->
  includes l3 LF = false ->
  purgeStep options code
  = if containsOurImportStatement options (trim a)
       && containsOurImportStatement options (trim b)
    then Some rest else None.
Proof.
  intros Htrim H1 Ha H2 Hb H3. unfold purgeStep. rewrite Htrim.
  unfold conflictBlock.
  set (tail := a ++ "=======" ++ l2 ++ LF ++ b ++ ">>>>>>>" ++ l3 ++ LF ++ rest).
  change ("<<<<<<< HEAD" ++ l1 ++ LF ++ tail)
    with (String "<" ("<<<<<< HEAD" ++ l1 ++ LF ++ tail)) at 1.
  rewrite not_an_import, containsOur_empty.
  set (newCode := "<<<<<<< HEAD" ++ l1 ++ LF ++ tail).
  assert (S0 : startsWith newCode "<<<<<<< HEAD" = true) by apply startsWith_app.
  rewrite S0.
  set (p1 := "<<<<<<< HEAD" ++ l1 ++ LF).
  set (p2 := p1 ++ a ++ "=======" ++ l2 ++ LF).
  set (p3 := p2 ++ b ++ ">>>>>>>" ++ l3 ++ LF).
  assert (E1 : newCode
               = p1 ++ a ++ "=======" ++ l2 ++ LF ++ b ++ ">>>>>>>" ++ l3 ++ LF ++ rest).
  { unfold newCode, p1, tail. now rewrite !app_assoc. }
  assert (E2 : newCode = p2 ++ b ++ ">>>>>>>" ++ l3 ++ LF ++ rest).
  { rewrite E1. unfold p2. now rewrite !app_assoc. }
  assert (E3 : newCode = p3 ++ rest).
  { rewrite E2. unfold p3. now rewrite !app_assoc. }
  assert (I1 : (indexOf newCode LF 0 + 1 = len p1)%Z).
  { change newCode with ("" ++ ("<<<<<<< HEAD" ++ l1) ++ LF ++ tail).
    rewrite (indexOf_middle "" ("<<<<<<< HEAD" ++ l1) LF).
    - unfold p1. rewrite <- app_assoc, !len_app. reflexivity.
    - marker_line. }
  rewrite I1.
  assert (P1 : (1 <=? len p1)%Z = true).
  { apply Z.leb_le. unfold p1. rewrite !len_app. change (len LF) with 1%Z. unfold len. lia. }
  rewrite P1.
  assert (I2 : indexOf newCode "=======" (len p1) = (len p1 + len a)%Z).
  { rewrite E1. now apply indexOf_middle. }
  rewrite I2.
  assert (P2 : (0 <=? len p1 + len a)%Z = true) by (apply Z.leb_le; unfold len; lia).
  rewrite P2.
  assert (A : substring newCode (len p1) (len p1 + len a) = a).
  { rewrite E1. apply substring_middle. }
  rewrite A.
  assert (I3 : (indexOf newCode LF (len p1 + len a) + 1 = len p2)%Z).
  { rewrite E1. rewrite <- len_app.
    rewrite <- (app_assoc p1 a).
    change ("=======" ++ l2 ++ LF ++ b ++ ">>>>>>>" ++ l3 ++ LF ++ rest)
      with (("=======" ++ l2) ++ LF ++ (b ++ ">>>>>>>" ++ l3 ++ LF ++ rest)).
    rewrite indexOf_middle.
    - unfold p2. rewrite <- !app_assoc, !len_app. change (len LF) with 1%Z. lia.
    - marker_line. }
  rewrite I3.
  assert (P3 : (1 <=? len p2)%Z = true).
  { apply Z.leb_le. unfold p2. rewrite !len_app. change (len LF) with 1%Z. unfold len. lia. }
  rewrite P3.
  assert (I4 : indexOf newCode ">>>>>>>" (len p2) = (len p2 + len b)%Z).
  { rewrite E2. now apply indexOf_middle. }
  rewrite I4.
  assert (P4 : (0 <=? len p2 + len b)%Z = true) by (apply Z.leb_le; unfold len; lia).
  rewrite P4.
  assert (B : substring newCode (len p2) (len p2 + len b) = b).
  { rewrite E2. apply substring_middle. }
  rewrite B.
  destruct (containsOurImportStatement options (trim a)
            && containsOurImportStatement options (trim b)); [| reflexivity].
  assert (I5 : (indexOf newCode LF (len p2 + len b) + 1 = len p3)%Z).
  { rewrite E2. rewrite <- len_app.
    rewrite <- (app_assoc p2 b).
    change (">>>>>>>" ++ l3 ++ LF ++ rest) with ((">>>>>>>" ++ l3) ++ LF ++ rest).
    rewrite indexOf_middle.
    - unfold p3. rewrite <- !app_assoc, !len_app. change (len LF) with 1%Z. lia.
    - marker_line. }
  rewrite I5, E3. now rewrite substringFrom_suffix.
Qed.

(** When the loop returns, no rule applies to what it returns, and running
    it again on that text returns the text. *)
Lemma purge_fixed_point (fuel : nat) (code result : string) :
  purgeImportedFieldsCode options fuel code = Some result ->
  purgeStep options result = None
  /\ forall fuel', purgeImportedFieldsCode options (S fuel') result = Some result.
Proof.
  revert code; induction fuel as [|fuel IH]; intros code H; simpl in H; [discriminate |].
  destruct (purgeStep options code) as [code'|] eqn:E.
  - exact (IH _ H).
  - injection H as <-. split; [exact E |].
    intros fuel'. simpl. now rewrite E.
Qed.

Lemma purgeStep_trimStart (code : string) :
  purgeStep options (trimStart code) = purgeStep options code.
Proof. unfold purgeStep. now rewrite trimStart_idempotent. Qed.

(** A turn that changes the code makes it shorter, unless it is the turn
    of the conflict rule that assigns the left-trimmed text itself. *)
Lemma purgeStep_shrinks (code code' : string) :
  purgeStep options code = Some code' ->
  String.length code' < String.length code
  \/ (code' = trimStart code /\ startsWith code' "<<<<<<< HEAD" = true
      /\ purgeStep options code' = Some code').
Proof.
  intros H. pose proof H as Hstep. unfold purgeStep in H.
  pose proof (trimStart_length code) as Hlen.
  set (newCode := trimStart code) in *.
  destruct (containsOurImportStatement options (getFirstImportStatement newCode)) eqn:Hours.
  - left.
    assert (Hne : newCode <> "").
    { intros E. rewrite E in Hours. change (getFirstImportStatement "") with "" in Hours.
      now rewrite containsOur_empty in Hours. }
    injection H as <-.
    destruct (indexOf newCode LF (len (getFirstImportStatement newCode)) <? 0)%Z eqn:Hend.
    + destruct newCode; [congruence | simpl in *; lia].
    + apply Z.ltb_ge in Hend.
      pose proof (substringFrom_shorter newCode
                    (indexOf newCode LF (len (getFirstImportStatement newCode)) + 1)
                    ltac:(lia) Hne). lia.
  - destruct (startsWith newCode "<<<<<<< HEAD") eqn:Hhead; [| discriminate].
    repeat match type of H with
           | (if ?b then _ else None) = Some _ => destruct b; [| discriminate]
           end.
    apply (f_equal (fun o => match o with Some x => x | None => "" end)) in H.
    cbv beta iota in H. subst code'.
    set (headEnd := (indexOf newCode LF _ + 1)%Z) in *.
    destruct (Z.leb_spec 1 headEnd) as [Hpos|Hzero].
    + left.
      assert (Hne : newCode <> "") by (destruct newCode; [discriminate | congruence]).
      pose proof (substringFrom_shorter newCode headEnd Hpos Hne). lia.
    + right. rewrite substringFrom_start in * by lia.
      split; [reflexivity |]. split; [exact Hhead |].
      unfold newCode. now rewrite purgeStep_trimStart.
Qed.

Lemma purge_stuck (stuck : string) :
  purgeStep options stuck = Some stuck ->
  forall fuel, purgeImportedFieldsCode options fuel stuck = None.
Proof.
  intros H. induction fuel as [|fuel IH]; cbn [purgeImportedFieldsCode]; [reflexivity |].
  now rewrite H.
Qed.

(** The loop returns within as many turns as the code has code units, and
    one more, unless it reaches a text that begins with the marker
    [<<<<<<< HEAD] and that a turn maps to itself. *)
Lemma purge_returns_or_sticks (fuel : nat) (code : string) :
  String.length code < fuel ->
  (exists result, purgeImportedFieldsCode options fuel code = Some result)
  \/ (exists stuck, startsWith stuck "<<<<<<< HEAD" = true
                    /\ purgeStep options stuck = Some stuck).
Proof.
  revert code; induction fuel as [|fuel IH]; intros code H; [lia |].
  cbn [purgeImportedFieldsCode].
  destruct (purgeStep options code) as [code'|] eqn:E; [| left; eauto].
  destruct (purgeStep_shrinks _ _ E) as [Hlt|[_ [Hhead Hstuck]]].
  - apply IH. lia.
  - right. eauto.
Qed.

(** C5, as amended.  For a text that, left-trimmed, is a conflict block -
    the line of [<<<<<<< HEAD], a first side up to the first [=======],
    the rest of that line, a second side up to the first [>>>>>>>], the
    rest of that line with its line end - followed by [rest]: one turn of
    the purge loop replaces the text by [rest] exactly when each side,
    trimmed, contains somewhere a reference to the output module under its
    current or a previous name, and the loop goes on with [rest]; otherwise
    no rule applies and the loop returns the text as it was given. *)
Theorem conflict_block_collapses_when_both_sides_mention_output
    (code l1 a l2 b l3 rest : string)
    (Htrim : trimStart code = conflictBlock l1 a l2 b l3 rest)
    (Hhead : includes l1 LF = false)
    (HsideA : firstAtEnd "=======" a)
    (Hmiddle : includes l2 LF = false)
    (HsideB : firstAtEnd ">>>>>>>" b)
    (Hend : includes l3 LF = false) :
  let both := containsOurImportStatement options (trim a)
              && containsOurImportStatement options (trim b) in
  purgeStep options code = (if both then Some rest else None)
  /\ forall fuel,
       purgeImportedFieldsCode options (S fuel) code
       = if both then purgeImportedFieldsCode options fuel rest else Some code.
Proof.
  intros both.
  pose proof (purgeStep_conflict code l1 a l2 b l3 rest Htrim Hhead HsideA Hmiddle HsideB Hend)
    as Hstep.
  fold both in Hstep. split; [exact Hstep |].
  intros fuel. cbn [purgeImportedFieldsCode]. rewrite Hstep.
  now destruct both.
Qed.

End Purge.

Lemma conflict_block_collapses_witness :
  purgeStep Sample.options
    (conflictBlock "" Sample.sideB "" Sample.sideB " other" "rest") = Some "rest".
Proof.
  exact (proj1 (conflict_block_collapses_when_both_sides_mention_output Sample.options
                  (conflictBlock "" Sample.sideB "" Sample.sideB " other" "rest")
                  "" Sample.sideB "" Sample.sideB " other" "rest"
                  eq_refl eq_refl eq_refl eq_refl eq_refl eq_refl)).
Defined.

(** C5 as the specification words it fails: the first side of
    [Sample.mixed] starts with the statement [foo();], which is no
    generated import, and the block is collapsed all the same, because the
    side contains a generated import further down. *)
Lemma conflict_block_collapses_without_leading_import :
  leadingStatementIsOurs Sample.options (trim Sample.sideA) = false
  /\ containsOurImportStatement Sample.options (getFirstCodeLine Sample.sideA) = false
  /\ purgeStep Sample.options Sample.mixed = Some "rest".
Proof. vm_compute. repeat split. Qed.

(** C4 at the failing input.  On a conflict block between two generated
    imports whose closing marker line has no line end, a turn of the loop
    sets [changed] and assigns the same text again: the loop has not
    returned after any number of turns. *)
Theorem purge_loops_on_unterminated_conflict :
  purgeStep Sample.options Sample.unterminated = Some Sample.unterminated
  /\ forall fuel,
       purgeImportedFieldsCode Sample.options fuel Sample.unterminated = None.
Proof.
  assert (Hstep : purgeStep Sample.options Sample.unterminated = Some Sample.unterminated)
    by (vm_compute; reflexivity).
  split; [exact Hstep |].
  now apply purge_stuck.
Qed.

(** ** The extractor *)

Lemma definedOnly_app (a b : list (option string)) :
  definedOnly (a ++ b) = (definedOnly a ++ definedOnly b)%list.
Proof.
  induction a as [|[x|] a IH]; simpl; [reflexivity | now rewrite IH | exact IH].
Qed.

Lemma elementNames_flat (elements : list (option pattern)) :
  flatPattern (ArrayPattern elements) = true ->
  definedOnly (elementNames (ArrayPattern elements)) = boundNames (ArrayPattern elements).
Proof.
  simpl. induction elements as [|[e|] elements IH]; simpl; intros H.
  - reflexivity.
  - apply andb_prop in H as [He H]. destruct e; try discriminate.
    simpl. now rewrite IH.
  - now apply IH.
Qed.

Lemma propertyNames_flat (properties : list objectMember) :
  flatPattern (ObjectPattern properties) = true ->
  definedOnly (propertyNames (ObjectPattern properties)) = boundNames (ObjectPattern properties).
Proof.
  simpl. induction properties as [|[key v|r] properties IH]; simpl; intros H.
  - reflexivity.
  - apply andb_prop in H as [Hv H]. destruct v; try discriminate.
    simpl. now rewrite IH.
  - discriminate.
Qed.

Lemma declarators_flat (ds : list pattern) :
  forallb flatPattern ds = true ->
  Permutation
    (definedOnly (map nameOf ds ++ concat (map elementNames ds)
                  ++ concat (map propertyNames ds)))
    (concat (map boundNames ds)).
Proof.
  induction ds as [|d ds IH]; intros H; [constructor |].
  cbn [forallb] in H. apply andb_prop in H as [Hd H]. specialize (IH H).
  rewrite !definedOnly_app in *. cbn [map concat].
  rewrite !definedOnly_app.
  destruct d as [n|elements|properties|t|r]; try discriminate.
  - cbn. now constructor.
  - rewrite (elementNames_flat _ Hd).
    change (propertyNames (ArrayPattern elements)) with (@nil (option string)).
    cbn [nameOf definedOnly app].
    rewrite <- List.app_assoc.
    rewrite Permutation_app_swap_app.
    now apply Permutation_app_head.
  - rewrite (propertyNames_flat _ Hd).
    change (elementNames (ObjectPattern properties)) with (@nil (option string)).
    cbn [nameOf definedOnly app].
    etransitivity.
    { apply Permutation_app_head. apply Permutation_app_swap_app. }
    rewrite Permutation_app_swap_app.
    now apply Permutation_app_head.
Qed.

Lemma specifiers_flat (specs : list moduleExportName) :
  forallb (fun spec => match spec with
                       | ExportedIdentifier _ => true
                       | ExportedStringLiteral _ => false
                       end) specs = true ->
  definedOnly (map (fun spec => match spec with
                                | ExportedIdentifier n => Some n
                                | ExportedStringLiteral _ => None
                                end) specs)
  = map (fun spec => match spec with
                     | ExportedIdentifier n => n
                     | ExportedStringLiteral v => v
                     end) specs.
Proof.
  induction specs as [|[n|v] specs IH]; simpl; intros H; [reflexivity | | discriminate].
  now rewrite IH.
Qed.

Lemma exportedOfNode_flat (node : statement) :
  flatExport node = true ->
  Permutation (definedOnly (exportedOfNode node)) (exportedNames node).
Proof.
  destruct node as [specs decl|t]; simpl; intros H; [| constructor].
  apply andb_prop in H as [Hs Hd].
  rewrite definedOnly_app, (specifiers_flat _ Hs).
  apply Permutation_app_head.
  destruct decl as [[ds|n|n]|]; try discriminate; simpl.
  - now apply declarators_flat.
  - constructor.
Qed.

Lemma exportedFieldsOfBody_flat (body : list statement) :
  forallb flatExport body = true ->
  Permutation (exportedFieldsOfBody body) (concat (map exportedNames body)).
Proof.
  unfold exportedFieldsOfBody.
  induction body as [|node body IH]; intros H; [constructor |].
  cbn [forallb] in H. apply andb_prop in H as [Hn H]. specialize (IH H).
  destruct node as [specs decl|t].
  - cbn [List.filter isExportNamedDeclaration map concat]. rewrite definedOnly_app.
    apply Permutation_app; [now apply exportedOfNode_flat | exact IH].
  - exact IH.
Qed.

(** ** The object of exported names *)

Lemma insertIndex_In (k a : N * string) (l : list (N * string)) :
  In k (insertIndex a l) <-> k = a \/ In k l.
Proof.
  induction l as [|b l IH]; simpl.
  - intuition.
  - destruct (fst a <=? fst b)%N; simpl; rewrite ?IH; intuition.
Qed.

Lemma indexKeys_In (obj : jsObject) (i : N) (key : string) :
  In (i, key) (indexKeys obj) <-> In key obj /\ arrayIndex key = Some i.
Proof.
  induction obj as [|k obj IH]; simpl.
  - intuition.
  - destruct (arrayIndex k) as [j|] eqn:E.
    + rewrite insertIndex_In, IH. split.
      * intros [H|[H1 H2]]; [injection H as -> -> | ]; auto.
      * intros [[->|H1] H2]; [left; congruence | right; auto].
    + rewrite IH. split.
      * intros [H1 H2]; auto.
      * intros [[->|H1] H2]; [congruence | auto].
Qed.

Lemma Object_keys_In (obj : jsObject) (key : string) :
  In key (Object_keys obj) <-> In key obj.
Proof.
  unfold Object_keys. rewrite in_app_iff, in_map_iff, filter_In. split.
  - intros [[[i k] [E H]]|[H _]]; [| exact H].
    simpl in E. subst k. now apply indexKeys_In in H.
  - intros H. destruct (arrayIndex key) as [i|] eqn:E.
    + left. exists (i, key). split; [reflexivity |]. now apply indexKeys_In.
    + right. auto.
Qed.

Lemma setTrue_In (obj : jsObject) (field key : string) :
  In key (setTrue obj field) <-> In key obj \/ (key = field /\ field <> "__proto__").
Proof.
  unfold setTrue. destruct (String.eqb_spec field "__proto__") as [E|E].
  - intuition.
  - destruct (arrayIncludes obj field) eqn:I.
    + unfold arrayIncludes in I. apply existsb_exists in I as [y [Hy Ey]].
      apply String.eqb_eq in Ey. subst y. intuition. now subst.
    + rewrite in_app_iff. simpl. intuition.
Qed.

Lemma fold_setTrue_In (fields : list string) (obj : jsObject) (key : string) :
  In key (fold_left setTrue fields obj)
  <-> In key obj \/ (In key fields /\ key <> "__proto__").
Proof.
  revert obj; induction fields as [|f fields IH]; intros obj; simpl.
  - intuition.
  - rewrite IH, setTrue_In. split.
    + intros [[H|[-> H]]|[H1 H2]]; auto.
    + intros [H|[[->|H1] H2]]; auto.
Qed.


Lemma arrayIncludes_In (l : list string) (x : string) :
  arrayIncludes l x = true <-> In x l.
Proof.
  unfold arrayIncludes. rewrite existsb_exists. split.
  - intros [y [Hy E]]. apply String.eqb_eq in E. now subst.
  - intros H. exists x. split; [assumption | apply String.eqb_refl].
Qed.

(** A name is recorded where it is first seen: a second assignment changes
    nothing, a first one puts the name behind those already there. *)
Lemma setTrue_first_seen (obj : jsObject) (field : string) :
  (In field obj -> setTrue obj field = obj)
  /\ (~ In field obj -> field <> "__proto__" -> setTrue obj field = (obj ++ [field])%list).
Proof.
  unfold setTrue. split.
  - intros H. destruct (String.eqb field "__proto__"); [reflexivity |].
    apply arrayIncludes_In in H. now rewrite H.
  - intros H Hne. apply String.eqb_neq in Hne. rewrite Hne.
    destruct (arrayIncludes obj field) eqn:E; [| reflexivity].
    apply arrayIncludes_In in E. contradiction.
Qed.



(** ** Rewriting a file *)

Lemma replaceEntry_found (name : string) (f : option node -> option node)
    (entries : list (string * node)) (child child' : node) :
  findEntry name entries = Some child -> f (Some child) = Some child' ->
  exists entries', replaceEntry name f entries = Some entries'.
Proof.
  intros Hfind Hf. induction entries as [|[n c] entries IH]; simpl in *; [discriminate |].
  destruct (String.eqb n name).
  - injection Hfind as ->. rewrite Hf. simpl. eauto.
  - destruct (IH Hfind) as [entries' ->]. simpl. eauto.
Qed.

Lemma writeNode_existing (segs : list string) (content old : string) (n : node) :
  lookupNode segs n = Some (File old) ->
  exists n', writeNode segs content (Some n) = Some n'.
Proof.
  revert n; induction segs as [|seg segs IH]; intros n H; simpl in *.
  - injection H as ->. eauto.
  - destruct n as [c|entries]; [discriminate |].
    destruct (findEntry seg entries) as [child|] eqn:E; [| discriminate].
    destruct (IH _ H) as [child' Hc].
    destruct (replaceEntry_found seg (writeNode segs content) entries child child' E Hc)
      as [entries' ->].
    simpl. eauto.
Qed.

Lemma write_existing (w : world) (file content old : string) :
  readFileSync (root w) file = inr old ->
  exists root', write file content w
                = Done (mkWorld root' (console w) (written w ++ [(file, content)])%list).
Proof.
  unfold readFileSync, stat, write, writeFileSync.
  destruct (String.eqb file ""); [discriminate |].
  destruct (lookupNode (segments file) (root w)) as [[c|es]|] eqn:E; try discriminate.
  intros _. destruct (writeNode_existing _ content _ _ E) as [n' ->]. eauto.
Qed.



Section Modify.
Variable transformSync : string -> jsError + list statement.
Variable options : pluginOptions.

Lemma modifyFile_runs (fuel : nat) (file : string) (index : nat) (array : list string)
    (acc : accumulator) (w : world) (name code purgedCode : string) :
  isFileOfType file (fileExtensionsJs options) = true ->
  outputName options = Some name ->
  readFileSync (root w) file = inr code ->
  purgeImportedFieldsCode options fuel code = Some purgedCode ->
  2 <= List.length (split "/" file) ->
  let fields := match transformSync purgedCode with
                | inr body => exportedFieldsOfBody body
                | inl _ => []
                end in
  let from := "./" ++ repeatNat "../" (List.length (split "/" file) - 2) ++ name in
  let newCode := newImportLine options code
                   (join ", " (requiredFields (exportedFields acc) fields)) from
                 ++ LF ++ purgedCode in
  exists w',
    modifyFile transformSync options fuel file index array (acc, w) = Done (acc, w')
    /\ written w'
       = if String.eqb (getFirstCodeLine code) (getFirstCodeLine newCode)
         then written w else (written w ++ [(file, newCode)])%list.
Proof.
  intros Hjs Hout Hread Hpurge Hdeep fields from newCode.
  unfold modifyFile. rewrite Hjs, Hread. unfold purged. rewrite Hpurge.
  cbn [bind]. rewrite Hout. unfold getExportedFields. cbn [bind].
  rewrite (importLineFrom_two_segments file name _ eq_refl Hdeep).
  unfold setFileContentIfFirstCodeLineIsDifferent, oldContentOr.
  fold from.
  destruct (transformSync purgedCode) as [e|body]; cbn [bind]; fold fields; fold newCode.
  - destruct (String.eqb (getFirstCodeLine code) (getFirstCodeLine newCode)) eqn:E; cbn [negb bind].
    + eexists. split; reflexivity.
    + destruct (write_existing (log (ConsoleError e) w) file newCode code Hread) as [root' ->].
      cbn [bind]. eexists. split; reflexivity.
  - destruct (String.eqb (getFirstCodeLine code) (getFirstCodeLine newCode)) eqn:E; cbn [negb bind].
    + eexists. split; reflexivity.
    + destruct (write_existing w file newCode code Hread) as [root' ->].
      cbn [bind]. eexists. split; reflexivity.
Qed.


End Modify.

(** ** A file's contribution to the exports *)

Section Contribution.

Variable transformSync : string -> jsError + list statement.
Variable options : pluginOptions.

(** C6, as amended.  Take a js-like file under an "import" root that the
    filter accepts, with an output name configured, whose purged text
    parses, and whose export declarations have the four shapes at their
    first level: a specifier named by an identifier, and a declarator
    whose target is an identifier, an array pattern of identifiers (and
    holes), or an object pattern whose property values are identifiers.
    Then the extractor returns every name the file exports, once each; the
    import statement appended to the aggregator lists them; and, none of
    them being [__proto__], the keys of [exportedFields] afterwards are the
    keys before and exactly those names. *)
Theorem first_level_exports_are_collected
    (fuel : nat) (file : string) (index : nat) (array : list string)
    (name content text : string) (body : list statement)
    (acc : accumulator) (w : world)
    (Hout : outputName options = Some name)
    (Hjs : isFileOfType file (fileExtensionsJs options) = true)
    (Hfilter : filter options file = true)
    (Hread : readFileSync (root w) file = inr content)
    (Hpurge : purgeImportedFieldsCode options fuel content = Some text)
    (Hparse : transformSync text = inr body)
    (Hflat : forallb flatExport body = true)
    (Hproto : ~ In "__proto__" (concat (map exportedNames body))) :
  exists fields acc',
    getExportedFields transformSync options fuel content false w = Done (fields, w)
    /\ Permutation fields (concat (map exportedNames body))
    /\ importFile transformSync options fuel file index array (acc, w) = Done (acc', w)
    /\ importsCode acc'
       = importsCode acc ++ "import {" ++ join ", " fields ++ "} from '" ++ file ++ "';" ++ LF
    /\ forall x,
         In x (Object_keys (exportedFields acc'))
         <-> In x (Object_keys (exportedFields acc))
             \/ In x (concat (map exportedNames body)).
Proof.
  exists (exportedFieldsOfBody body). eexists.
  assert (G : getExportedFields transformSync options fuel content false w
              = Done (exportedFieldsOfBody body, w)).
  { unfold getExportedFields, purged. rewrite Hpurge. cbn [bind]. now rewrite Hparse. }
  pose proof (exportedFieldsOfBody_flat body Hflat) as Hperm.
  split; [exact G |]. split; [exact Hperm |].
  unfold importFile, importJsFile. rewrite Hout, Hjs, Hfilter, Hread, G.
  cbn [isSome andb bind].
  split; [reflexivity |]. split; [reflexivity |].
  intros x. cbn [exportedFields]. rewrite !Object_keys_In, fold_setTrue_In.
  split.
  - intros [H|[H _]]; [now left | right].
    now apply (Permutation_in _ Hperm).
  - intros [H|H]; [now left | right]. split.
    + now apply (Permutation_in _ (Permutation_sym Hperm)).
    + intros ->. contradiction.
Qed.

End Contribution.

Lemma first_level_exports_witness :
  exists fields acc',
    getExportedFields Sample.transformSync Sample.options 8 Sample.fourShapes false
      (mkWorld Sample.fourShapesTree [] [])
    = Done (fields, mkWorld Sample.fourShapesTree [] [])
    /\ Permutation fields ["A"; "B"; "C"; "D"]
    /\ importFile Sample.transformSync Sample.options 8 "./src/a.js" 0 ["./src/a.js"]
         (mkAcc "" [], mkWorld Sample.fourShapesTree [] [])
       = Done (acc', mkWorld Sample.fourShapesTree [] [])
    /\ importsCode acc'
       = "" ++ "import {" ++ join ", " fields ++ "} from '" ++ "./src/a.js" ++ "';" ++ LF
    /\ forall x,
         In x (Object_keys (exportedFields acc'))
         <-> In x (Object_keys []) \/ In x ["A"; "B"; "C"; "D"].
Proof.
  apply (first_level_exports_are_collected Sample.transformSync Sample.options
           8 "./src/a.js" 0 ["./src/a.js"] "imports.js" Sample.fourShapes Sample.fourShapes
           _ (mkAcc "" []) (mkWorld Sample.fourShapesTree [] [])
           eq_refl eq_refl eq_refl eq_refl eq_refl eq_refl eq_refl).
  vm_compute. intuition discriminate.
Defined.

(** C6 as the specification words it fails.  Both files declare exactly
    [A] and [B] by destructuring, [A] as a property value with a default
    in the first and as an element one level down in the second; the
    extractor looks at the first level of a pattern only and for an
    identifier there, and returns [B] alone. *)
Lemma destructured_names_below_first_level_are_missed :
  (exists body,
     Sample.transformSync Sample.withDefault = inr body
     /\ concat (map exportedNames body) = ["A"; "B"]
     /\ forall w,
          getExportedFields Sample.transformSync Sample.options 8 Sample.withDefault false w
          = Done (["B"], w))
  /\ (exists body,
        Sample.transformSync Sample.nested = inr body
        /\ concat (map exportedNames body) = ["A"; "B"]
        /\ forall w,
             getExportedFields Sample.transformSync Sample.options 8 Sample.nested false w
             = Done (["B"], w)).
Proof.
  split; eexists; (split; [reflexivity |]); split; reflexivity.
Qed.

(** The name [__proto__] is the one name the accumulator cannot hold.  The
    file [export const __proto__ = 1, B = 2;] declares two plain variable
    identifiers; the extractor returns both and the aggregator's import
    statement names both, but the assignment
    [exportedFields['__proto__'] = true] creates no property: the export
    statement written to the output file names [B] alone. *)
Lemma proto_export_is_not_collected :
  getExportedFields Sample.transformSync Sample.options 8 Sample.exporting false
    (mkWorld Sample.exportingTree [] [])
  = Done (["__proto__"; "B"], mkWorld Sample.exportingTree [] [])
  /\ importFile Sample.transformSync Sample.options 8 "./src/a.js" 0 ["./src/a.js"]
       (mkAcc "" [], mkWorld Sample.exportingTree [] [])
     = Done (mkAcc ("import {__proto__, B} from './src/a.js';" ++ LF) ["B"],
             mkWorld Sample.exportingTree [] [])
  /\ exists w',
       onPreInit Sample.transformSync
         (mkOptions ["./src"] [] None (Some "imports.js") [] ["js"; "jsx"] [] None)
         8 (mkWorld Sample.exportingTree [] []) = Done w'
       /\ written w'
          = [("./imports.js",
              "import {__proto__, B} from './src/a.js';" ++ LF ++ LF
                ++ "export {B};" ++ LF)].
Proof.
  split; [vm_compute; reflexivity |].
  split; [vm_compute; reflexivity |].
  eexists. split; vm_compute; reflexivity.
Qed.

(** ** Running twice *)

(** C1 at the failing input.  The project exports nothing and [./src/p.js]
    starts with a generated import that was reformatted as [import { A }].
    The first run splices the empty identifier list into the old statement
    and writes [import {  } from ...]; the expression that recognises the
    statement's shape does not match that line, so the second run builds
    the plain statement [import {} from ...], finds the first code line
    changed and writes the file again. *)
Theorem second_run_writes_again :
  exists w1 w2,
    onPreInit Sample.transformSync Sample.options 8 Sample.start = Done w1
    /\ written w1
       = [("./imports.js", "import {} from './src/p.js';" ++ LF ++ LF ++ "export {};" ++ LF);
          ("./src/p.js", "import {  } from './../imports.js';" ++ LF ++ "foo();")]
    /\ onPreInit Sample.transformSync Sample.options 8 (mkWorld (root w1) [] []) = Done w2
    /\ written w2
       = [("./src/p.js", "import {} from './../imports.js';" ++ LF ++ "foo();")].
Proof.
  do 2 eexists.
  split; [vm_compute; reflexivity |].
  split; [vm_compute; reflexivity |].
  split; vm_compute; reflexivity.
Qed.

(** ** The general statements at sample inputs *)

Lemma disabled_output_witness :
  importFile Sample.transformSync Sample.noOutput 8 "./src/p.js" 0 ["./src/p.js"]
    (mkAcc "" [], Sample.start)
  = importCustomFile Sample.noOutput "./src/p.js" 0 ["./src/p.js"] (mkAcc "" [], Sample.start).
Proof.
  exact (proj1 (disabled_output_sends_every_file_to_custom Sample.transformSync
                  Sample.noOutput eq_refl)
           8 "./src/p.js" 0 ["./src/p.js"] (mkAcc "" [], Sample.start)).
Defined.

Lemma parse_failure_witness :
  getExportedFields Sample.transformSync Sample.options 8 "const = ;" false Sample.start
  = Done ([], log (ConsoleError (SyntaxError "Unexpected token")) Sample.start).
Proof.
  exact (proj1 (parse_failure_yields_no_fields Sample.transformSync Sample.options
                  8 "const = ;" "const = ;" false (SyntaxError "Unexpected token")
                  Sample.start eq_refl eq_refl)).
Defined.

Lemma writers_witness :
  getFirstCodeLine ("  import {A} from './imports.js'" ++ ";" ++ " foo();")
  = "import {A} from './imports.js'".
Proof.
  exact (proj1 (proj2 (proj2 (proj2 (proj2 (writers_write_only_on_difference
                                               "./imports.js" "export {};" Sample.start)))))
           "  import {A} from './imports.js'" " foo();" eq_refl).
Defined.

(** * Further properties *)

(** ** Paths *)

Lemma includes_char_cons (c d : ascii) (s : string) :
  includes (String d s) (String c "") = Ascii.eqb c d || includes s (String c "").
Proof.
  unfold includes. rewrite search_cons. cbn [startsWith].
  rewrite Bool.andb_true_r.
  destruct (Ascii.eqb c d); [reflexivity |]. simpl.
  rewrite search_shift. now destruct (search (String c "") s 0).
Qed.

Lemma includes_char_empty (c : ascii) : includes "" (String c "") = false.
Proof. reflexivity. Qed.

Lemma includes_char_app (c : ascii) (a b : string) :
  includes (a ++ b) (String c "")
  = includes a (String c "") || includes b (String c "").
Proof.
  induction a as [|d a IH]; [reflexivity |].
  cbn [String.append]. rewrite !includes_char_cons, IH. now rewrite Bool.orb_assoc.
Qed.

Lemma take_drop (n : nat) (s : string) : take n s ++ drop n s = s.
Proof.
  revert s; induction n as [|n IH]; intros s; [reflexivity |].
  destruct s as [|c s]; [reflexivity |]. simpl. now rewrite IH.
Qed.

Lemma endsWith_inv (s p : string) : endsWith s p = true -> exists x, s = x ++ p.
Proof.
  unfold endsWith. intros H. apply andb_prop in H as [_ H].
  apply String.eqb_eq in H. exists (take (String.length s - String.length p) s).
  rewrite <- H at 2. now rewrite take_drop.
Qed.

Lemma endsWith_iff (s p : string) : endsWith s p = true <-> exists x, s = x ++ p.
Proof.
  split; [apply endsWith_inv |]. intros [x ->]. apply endsWith_app.
Qed.

Lemma strip_not_slash (s x : string) : purgePath_strip s <> x ++ "/".
Proof.
  revert x; induction s as [|c s IH]; intros x; cbn [purgePath_strip].
  - destruct x; discriminate.
  - destruct (purgePath_strip s) as [|d r] eqn:E.
    + destruct (Ascii.eqb_spec c "/"%char) as [->|Hc].
      * destruct x; discriminate.
      * destruct x as [|e x]; simpl; [congruence |].
        intros H. injection H as _ H. destruct x; discriminate.
    + destruct x as [|e x]; simpl; [discriminate |].
      intros H. injection H as _ H. exact (IH x H).
Qed.

Lemma strip_fixed (s : string) : endsWith s "/" = false -> purgePath_strip s = s.
Proof.
  induction s as [|c s IH]; intros H; [reflexivity |].
  cbn [purgePath_strip].
  destruct s as [|d s].
  - cbn [purgePath_strip]. destruct (Ascii.eqb_spec c "/"%char) as [->|Hc]; [discriminate | reflexivity].
  - assert (Hs : endsWith (String d s) "/" = false).
    { destruct (endsWith (String d s) "/") eqn:E; [| reflexivity].
      apply endsWith_inv in E as [x E]. rewrite E in H.
      change (String c (x ++ "/")) with (String c x ++ "/") in H.
      now rewrite endsWith_app in H. }
    rewrite (IH Hs). reflexivity.
Qed.

Lemma strip_slash (s : string) : purgePath_strip (s ++ "/") = purgePath_strip s.
Proof.
  induction s as [|c s IH]; [reflexivity |].
  cbn [String.append purgePath_strip]. now rewrite IH.
Qed.

Lemma strip_prefix (s : string) : exists slashes, s = purgePath_strip s ++ slashes.
Proof.
  induction s as [|c s [t IH]]; [now exists "" |].
  cbn [purgePath_strip]. destruct (purgePath_strip s) as [|d r].
  - destruct (Ascii.eqb c "/"); [now exists (String c s) |].
    exists t. simpl in *. now rewrite IH at 1.
  - exists t. simpl in *. now rewrite IH at 1.
Qed.

Lemma replaceBackslashes_clean (s : string) : includes (replaceBackslashes s) "\" = false.
Proof.
  induction s as [|c s IH]; [reflexivity |].
  cbn [replaceBackslashes]. rewrite includes_char_cons, IH, Bool.orb_false_r.
  destruct (Ascii.eqb_spec c "\"%char) as [->|H]; [reflexivity |].
  apply Ascii.eqb_neq. congruence.
Qed.

Lemma replaceBackslashes_fixed (s : string) :
  includes s "\" = false -> replaceBackslashes s = s.
Proof.
  induction s as [|c s IH]; [reflexivity |].
  rewrite includes_char_cons. intros H. apply Bool.orb_false_elim in H as [Hc Hs].
  cbn [replaceBackslashes]. rewrite (IH Hs). rewrite Ascii.eqb_sym in Hc. now rewrite Hc.
Qed.

Lemma replaceBackslashes_app (a b : string) :
  replaceBackslashes (a ++ b) = replaceBackslashes a ++ replaceBackslashes b.
Proof. induction a as [|c a IH]; [reflexivity |]. simpl. now rewrite IH. Qed.

Lemma purgePath_clean (path : string) : includes (purgePath path) "\" = false.
Proof.
  unfold purgePath. pose proof (replaceBackslashes_clean path) as H.
  destruct (strip_prefix (replaceBackslashes path)) as [t E]. rewrite E in H.
  rewrite includes_char_app in H. now apply Bool.orb_false_elim in H.
Qed.

Lemma purgePath_no_trailing_slash (path : string) : endsWith (purgePath path) "/" = false.
Proof.
  destruct (endsWith (purgePath path) "/") eqn:E; [| reflexivity].
  apply endsWith_inv in E as [x E]. now apply strip_not_slash in E.
Qed.

(** X1.  [purgePath] returns a path without a backslash and without a
    slash at its end; it leaves such a path as it is, so applying it twice
    changes nothing more, and a slash or a backslash added at the end of
    its argument does not change its result. *)
Theorem purgePath_normalizes (path : string) :
  includes (purgePath path) "\" = false
  /\ endsWith (purgePath path) "/" = false
  /\ purgePath (purgePath path) = purgePath path
  /\ purgePath (path ++ "/") = purgePath path
  /\ purgePath (path ++ "\") = purgePath path
  /\ (includes path "\" = false -> endsWith path "/" = false -> purgePath path = path).
Proof.
  split; [apply purgePath_clean |]. split; [apply purgePath_no_trailing_slash |].
  split; [| split; [| split]].
  - unfold purgePath at 1.
    rewrite (replaceBackslashes_fixed _ (purgePath_clean path)).
    apply strip_fixed, purgePath_no_trailing_slash.
  - unfold purgePath. rewrite replaceBackslashes_app. apply strip_slash.
  - unfold purgePath. rewrite replaceBackslashes_app. apply strip_slash.
  - intros Hb Hs. unfold purgePath. rewrite (replaceBackslashes_fixed _ Hb).
    now apply strip_fixed.
Qed.

(** ** Output names *)

Lemma split_nonempty (sep : ascii) (s : string) : split sep s <> [].
Proof.
  induction s as [|c s IH]; cbn [split]; [discriminate |].
  destruct (Ascii.eqb c sep); [discriminate |].
  destruct (split sep s); [contradiction | discriminate].
Qed.

Lemma split_no_separator (sep : ascii) (s : string) :
  includes s (String sep "") = false -> split sep s = [s].
Proof.
  induction s as [|c s IH]; [reflexivity |].
  rewrite includes_char_cons. intros H. apply Bool.orb_false_elim in H as [Hc Hs].
  cbn [split]. rewrite Ascii.eqb_sym in Hc. rewrite Hc, (IH Hs). reflexivity.
Qed.

(** [a + sep + b] splits into the parts of [a] followed by the parts of [b]. *)
Lemma split_app (sep : ascii) (a b : string) :
  split sep (a ++ String sep b) = (split sep a ++ split sep b)%list.
Proof.
  induction a as [|c a IH]; cbn [String.append split].
  - now rewrite Ascii.eqb_refl.
  - destruct (Ascii.eqb c sep); [now rewrite IH |].
    rewrite IH. destruct (split sep a) eqn:E; [now apply split_nonempty in E |].
    reflexivity.
Qed.

Lemma split_segments_clean (sep : ascii) (s seg : string) :
  In seg (split sep s) -> includes seg (String sep "") = false.
Proof.
  revert seg; induction s as [|c s IH]; intros seg; cbn [split].
  - intros [<-|[]]. reflexivity.
  - destruct (Ascii.eqb c sep) eqn:Hc.
    + intros [<-|H]; [reflexivity | now apply IH].
    + destruct (split sep s) as [|p ps] eqn:E.
      * intros [<-|[]]. rewrite includes_char_cons. rewrite Ascii.eqb_sym, Hc. reflexivity.
      * intros [<-|H].
        -- rewrite includes_char_cons. rewrite Ascii.eqb_sym, Hc. simpl. apply IH. now left.
        -- apply IH. now right.
Qed.

Lemma split_app_tail (sep : ascii) (x y : string) :
  includes y (String sep "") = false ->
  exists init l,
    split sep x = (init ++ [l])%list /\ split sep (x ++ y) = (init ++ [(l ++ y)%string])%list.
Proof.
  intros Hy. induction x as [|c x (init & l & Ex & Exy)].
  - exists [], "". cbn [String.append]. now rewrite (split_no_separator _ _ Hy).
  - cbn [String.append split]. rewrite Ex, Exy. destruct (Ascii.eqb c sep).
    + now exists ("" :: init), l.
    + destruct init as [|p init]; cbn [app].
      * now exists [], (String c l).
      * now exists (String c p :: init), l.
Qed.

Lemma last_split_app (sep : ascii) (x y : string) :
  includes y (String sep "") = false ->
  last (split sep (x ++ y)) "" = last (split sep x) "" ++ y.
Proof.
  intros Hy. destruct (split_app_tail sep x y Hy) as (init & l & -> & ->).
  now rewrite !last_last.
Qed.

Lemma last_In {A : Type} (l : list A) (d : A) : l <> [] -> In (last l d) l.
Proof.
  induction l as [|x l IH]; [congruence |]. intros _.
  destruct l as [|y l]; [now left |]. right. apply IH. discriminate.
Qed.

Lemma split_segments_keep_absent (sep c : ascii) (s seg : string) :
  includes s (String c "") = false -> In seg (split sep s) ->
  includes seg (String c "") = false.
Proof.
  revert seg; induction s as [|d s IH]; intros seg Hs; cbn [split].
  - intros [<-|[]]. reflexivity.
  - rewrite includes_char_cons in Hs. apply Bool.orb_false_elim in Hs as [Hd Hs].
    destruct (Ascii.eqb d sep).
    + intros [<-|H]; [reflexivity | now apply IH].
    + destruct (split sep s) as [|p ps] eqn:E.
      * intros [<-|[]]. now rewrite includes_char_cons, Hd.
      * intros [<-|H].
        -- rewrite includes_char_cons, Hd. simpl. apply IH; [assumption | now left].
        -- apply IH; [assumption | now right].
Qed.

Lemma purgeOutputName_shape (name : string) :
  endsWith (purgeOutputName_string name) ".js" = true
  /\ includes (purgeOutputName_string name) "/" = false
  /\ includes (purgeOutputName_string name) "\" = false.
Proof.
  unfold purgeOutputName_string.
  set (n := if negb (endsWith (purgePath name) ".js")
            then purgePath name ++ ".js" else purgePath name).
  assert (Hjs : endsWith n ".js" = true).
  { unfold n. destruct (endsWith (purgePath name) ".js") eqn:E; [exact E | apply endsWith_app]. }
  assert (Hclean : includes n "\" = false).
  { unfold n. destruct (negb _); [| apply purgePath_clean].
    rewrite includes_char_app, purgePath_clean. reflexivity. }
  assert (Hin : In (last (split "/" n) "") (split "/" n)) by apply last_In, split_nonempty.
  split; [| split].
  - apply endsWith_inv in Hjs as [x ->]. rewrite last_split_app by reflexivity.
    apply endsWith_app.
  - exact (split_segments_clean _ _ _ Hin).
  - exact (split_segments_keep_absent _ _ _ _ Hclean Hin).
Qed.

(** X2.  Whatever text is configured, the output name [purgeOutputName]
    returns ends in [.js], holds neither a slash nor a backslash, and is
    left as it is when it is cleaned again. *)
Theorem purgeOutputName_is_a_js_file_name (name : string) :
  let result := purgeOutputName_string name in
  endsWith result ".js" = true
  /\ includes result "/" = false
  /\ includes result "\" = false
  /\ purgeOutputName_string result = result.
Proof.
  intros r. destruct (purgeOutputName_shape name) as (R1 & R2 & R3). fold r in R1, R2, R3.
  repeat split; try assumption.
  unfold purgeOutputName_string.
  assert (Hp : purgePath r = r).
  { unfold purgePath. rewrite (replaceBackslashes_fixed _ R3). apply strip_fixed.
    destruct (endsWith r "/") eqn:E; [| reflexivity].
    apply endsWith_inv in E as [x E]. rewrite E, includes_char_app in R2.
    now rewrite Bool.orb_true_r in R2. }
  rewrite Hp, R1. cbn [negb]. now rewrite (split_no_separator _ _ R2).
Qed.

(** ** The order of files *)

Lemma nat_of_ascii_inj (x y : ascii) : nat_of_ascii x = nat_of_ascii y -> x = y.
Proof.
  intros H. rewrite <- (ascii_nat_embedding x), <- (ascii_nat_embedding y). now rewrite H.
Qed.

Lemma stringGt_irrefl (a : string) : stringGt a a = false.
Proof.
  induction a as [|x a IH]; [reflexivity |]. cbn [stringGt].
  now rewrite Nat.ltb_irrefl.
Qed.

Lemma stringGt_asym (a b : string) : stringGt a b = true -> stringGt b a = false.
Proof.
  revert b; induction a as [|x a IH]; intros [|y b]; cbn [stringGt]; try discriminate; try reflexivity.
  destruct (Nat.ltb_spec (nat_of_ascii y) (nat_of_ascii x));
    destruct (Nat.ltb_spec (nat_of_ascii x) (nat_of_ascii y));
    try lia; try discriminate; try reflexivity.
  apply IH.
Qed.

Lemma stringGt_total (a b : string) : stringGt a b = false -> a <> b -> stringGt b a = true.
Proof.
  revert b; induction a as [|x a IH]; intros [|y b]; cbn [stringGt];
    try discriminate; try reflexivity; try congruence.
  destruct (Nat.ltb_spec (nat_of_ascii y) (nat_of_ascii x));
    destruct (Nat.ltb_spec (nat_of_ascii x) (nat_of_ascii y));
    try lia; try discriminate; try reflexivity.
  intros Hgt Hne. apply IH; [assumption |].
  assert (x = y) by (apply nat_of_ascii_inj; lia). congruence.
Qed.

Lemma stringGt_trans (a b c : string) :
  stringGt a b = true -> stringGt b c = true -> stringGt a c = true.
Proof.
  revert b c; induction a as [|x a IH]; intros [|y b] [|z c]; cbn [stringGt];
    try discriminate; try reflexivity.
  destruct (Nat.ltb_spec (nat_of_ascii y) (nat_of_ascii x));
    destruct (Nat.ltb_spec (nat_of_ascii x) (nat_of_ascii y));
    destruct (Nat.ltb_spec (nat_of_ascii z) (nat_of_ascii y));
    destruct (Nat.ltb_spec (nat_of_ascii y) (nat_of_ascii z));
    destruct (Nat.ltb_spec (nat_of_ascii z) (nat_of_ascii x));
    destruct (Nat.ltb_spec (nat_of_ascii x) (nat_of_ascii z));
    try lia; try discriminate; try reflexivity.
  apply IH.
Qed.

(** The three outcomes of comparing two segments. *)
Lemma compareString_cases (a b : string) :
  (_compareFileOrderString a b = 1%Z /\ stringGt (toLowerCase a) (toLowerCase b) = true)
  \/ (_compareFileOrderString a b = 0%Z /\ toLowerCase a = toLowerCase b)
  \/ (_compareFileOrderString a b = (-1)%Z /\ stringGt (toLowerCase b) (toLowerCase a) = true).
Proof.
  unfold _compareFileOrderString.
  destruct (stringGt (toLowerCase a) (toLowerCase b)) eqn:G; [now left |].
  destruct (String.eqb_spec (toLowerCase a) (toLowerCase b)) as [E|E].
  - right; left. now split.
  - right; right. split; [reflexivity |]. now apply stringGt_total.
Qed.

Lemma compareString_antisym (a b : string) :
  _compareFileOrderString b a = (- _compareFileOrderString a b)%Z.
Proof.
  destruct (compareString_cases a b) as [[E G]|[[E G]|[E G]]]; rewrite E;
    unfold _compareFileOrderString.
  - rewrite (stringGt_asym _ _ G).
    destruct (String.eqb_spec (toLowerCase b) (toLowerCase a)) as [H|H]; [| reflexivity].
    rewrite H, stringGt_irrefl in G. discriminate.
  - rewrite G, stringGt_irrefl, String.eqb_refl. reflexivity.
  - now rewrite G.
Qed.

Lemma compareArray_antisym (a b : list string) :
  _compareFileOrderArray b a = (- _compareFileOrderArray a b)%Z.
Proof.
  revert b; induction a as [|x a IH]; intros [|y b]; cbn [_compareFileOrderArray List.length];
    try lia.
  rewrite (compareString_antisym x y), IH.
  destruct (_compareFileOrderString x y =? 0)%Z eqn:E.
  - apply Z.eqb_eq in E. rewrite E. reflexivity.
  - apply Z.eqb_neq in E.
    destruct (- _compareFileOrderString x y =? 0)%Z eqn:E'; [apply Z.eqb_eq in E'; lia |].
    reflexivity.
Qed.

Lemma compareArray_zero (a b : list string) :
  _compareFileOrderArray a b = 0%Z <-> map toLowerCase a = map toLowerCase b.
Proof.
  revert b; induction a as [|x a IH]; intros [|y b]; cbn [_compareFileOrderArray List.length map].
  - split; reflexivity.
  - split; [lia | discriminate].
  - split; [lia | discriminate].
  - destruct (compareString_cases x y) as [[E G]|[[E G]|[E G]]]; rewrite E; cbn.
    + split; [discriminate |]. intros H. injection H as H _.
      rewrite H, stringGt_irrefl in G. discriminate.
    + rewrite IH. split; [intros ->; now rewrite G | intros H; now injection H].
    + split; [discriminate |]. intros H. injection H as H _.
      rewrite H, stringGt_irrefl in G. discriminate.
Qed.

Lemma compareArray_nonpositive_cons (x y : string) (a b : list string) :
  (_compareFileOrderArray (x :: a) (y :: b) <= 0)%Z
  <-> stringGt (toLowerCase y) (toLowerCase x) = true
      \/ (toLowerCase x = toLowerCase y /\ (_compareFileOrderArray a b <= 0)%Z).
Proof.
  cbn [_compareFileOrderArray].
  destruct (compareString_cases x y) as [[E G]|[[E G]|[E G]]]; rewrite E; cbn.
  - split; [lia |]. intros [H|[H _]].
    + rewrite (stringGt_asym _ _ G) in H. discriminate.
    + rewrite H, stringGt_irrefl in G. discriminate.
  - split; [now right |]. intros [H|[_ H]]; [| exact H].
    rewrite G, stringGt_irrefl in H. discriminate.
  - split; [now left | lia].
Qed.

Lemma compareArray_trans (a b c : list string) :
  (_compareFileOrderArray a b <= 0)%Z -> (_compareFileOrderArray b c <= 0)%Z ->
  (_compareFileOrderArray a c <= 0)%Z.
Proof.
  revert b c; induction a as [|x a IH]; intros b c Hab Hbc.
  - destruct c; cbn [_compareFileOrderArray List.length]; lia.
  - destruct b as [|y b]; [cbn [_compareFileOrderArray List.length] in Hab; lia |].
    destruct c as [|z c]; [cbn [_compareFileOrderArray List.length] in Hbc; lia |].
    apply compareArray_nonpositive_cons in Hab, Hbc. apply compareArray_nonpositive_cons.
    destruct Hab as [G1|[E1 H1]], Hbc as [G2|[E2 H2]].
    + left. exact (stringGt_trans _ _ _ G2 G1).
    + left. now rewrite <- E2.
    + left. now rewrite E1.
    + right. split; [congruence | exact (IH _ _ H1 H2)].
Qed.

Lemma compareArray_prefix (a b : list string) :
  _compareFileOrderArray a (a ++ b) = (- Z.of_nat (List.length b))%Z.
Proof.
  induction a as [|x a IH]; cbn [app].
  - destruct b; cbn [_compareFileOrderArray List.length]; lia.
  - cbn [_compareFileOrderArray].
    destruct (compareString_cases x x) as [[E G]|[[E G]|[E G]]];
      try (rewrite stringGt_irrefl in G; discriminate).
    rewrite E. cbn. exact IH.
Qed.

(** X3.  [compareFileOrder] is a consistent comparator for
    [Array.prototype.sort]: swapping its arguments negates its result, it
    returns [0] exactly when the two paths have the same segments up to
    letter casing, and "not after" is transitive. *)
Theorem compareFileOrder_orders_lowercased_segments (a b c : string) :
  compareFileOrder b a = (- compareFileOrder a b)%Z
  /\ (compareFileOrder a b = 0%Z
      <-> map toLowerCase (split "/" a) = map toLowerCase (split "/" b))
  /\ ((compareFileOrder a b <= 0)%Z -> (compareFileOrder b c <= 0)%Z ->
      (compareFileOrder a c <= 0)%Z).
Proof.
  unfold compareFileOrder. split; [apply compareArray_antisym |].
  split; [apply compareArray_zero | apply compareArray_trans].
Qed.

(** X4.  A path is ordered before every path that continues it with a
    slash: the comparison returns minus the number of added segments. *)
Theorem compareFileOrder_puts_a_path_before_its_extensions (path below : string) :
  compareFileOrder path (path ++ "/" ++ below)
  = (- Z.of_nat (List.length (split "/" below)))%Z
  /\ (compareFileOrder path (path ++ "/" ++ below) < 0)%Z
  /\ (compareFileOrder (path ++ "/" ++ below) path > 0)%Z.
Proof.
  assert (E : compareFileOrder path (path ++ "/" ++ below)
              = (- Z.of_nat (List.length (split "/" below)))%Z).
  { unfold compareFileOrder. change ("/" ++ below) with (String "/" below).
    rewrite split_app. apply compareArray_prefix. }
  assert (L : 0 < List.length (split "/" below)).
  { pose proof (split_nonempty "/" below). destruct (split "/" below); [contradiction | simpl; lia]. }
  split; [exact E |]. split; [lia |].
  unfold compareFileOrder in *. rewrite compareArray_antisym. lia.
Qed.

Section Sorting.
Variable compare : string -> string -> Z.
Hypothesis compare_total : forall x y, (0 < compare x y)%Z -> (compare y x <= 0)%Z.
Hypothesis compare_trans :
  forall x y z, (compare x y <= 0)%Z -> (compare y z <= 0)%Z -> (compare x z <= 0)%Z.

Lemma sortInsert_perm (x : string) (l : list string) :
  Permutation (sortInsert compare x l) (x :: l).
Proof.
  induction l as [|y l IH]; cbn [sortInsert]; [reflexivity |].
  destruct (compare x y <=? 0)%Z; [reflexivity |].
  rewrite IH. apply perm_swap.
Qed.

Lemma sort_perm (l : list string) : Permutation (sort compare l) l.
Proof.
  induction l as [|x l IH]; [reflexivity |].
  cbn [sort fold_right]. fold (sort compare l). rewrite sortInsert_perm. now constructor.
Qed.

Lemma sortInsert_sorted (x : string) (l : list string) :
  StronglySorted (fun a b => (compare a b <= 0)%Z) l ->
  StronglySorted (fun a b => (compare a b <= 0)%Z) (sortInsert compare x l).
Proof.
  induction l as [|y l IH]; intros H; cbn [sortInsert].
  - repeat constructor.
  - inversion H as [|? ? Hl Hy]; subst.
    destruct (compare x y <=? 0)%Z eqn:E.
    + apply Z.leb_le in E. constructor; [exact H |].
      constructor; [exact E |].
      eapply Forall_impl; [| exact Hy]. intros z Hz. exact (compare_trans _ _ _ E Hz).
    + apply Z.leb_gt in E. constructor; [now apply IH |].
      apply Forall_forall. intros z Hz.
      apply (Permutation_in _ (sortInsert_perm x l)) in Hz. destruct Hz as [<-|Hz].
      * now apply compare_total.
      * rewrite Forall_forall in Hy. now apply Hy.
Qed.

Lemma sort_sorted (l : list string) :
  StronglySorted (fun a b => (compare a b <= 0)%Z) (sort compare l).
Proof.
  induction l as [|x l IH]; [constructor |].
  cbn [sort fold_right]. fold (sort compare l). now apply sortInsert_sorted.
Qed.

Lemma sort_of_sorted (l : list string) :
  StronglySorted (fun a b => (compare a b <= 0)%Z) l -> sort compare l = l.
Proof.
  induction l as [|x l IH]; intros H; [reflexivity |].
  inversion H as [|? ? Hl Hx]; subst.
  cbn [sort fold_right]. fold (sort compare l). rewrite (IH Hl).
  destruct l as [|y l]; [reflexivity |]. cbn [sortInsert].
  inversion Hx; subst.
  destruct (compare x y <=? 0)%Z eqn:E; [reflexivity |]. apply Z.leb_gt in E. lia.
Qed.
End Sorting.

(** X5.  Sorting with [compareFileOrder] rearranges the collected files
    without losing or repeating one, each file of the result is not after
    any later one, sorting again changes nothing, and a list that is
    already in order is returned as it is. *)
Theorem sorted_files_are_the_collected_files_in_order (files : list string) :
  Permutation (sort compareFileOrder files) files
  /\ StronglySorted (fun a b => (compareFileOrder a b <= 0)%Z) (sort compareFileOrder files)
  /\ sort compareFileOrder (sort compareFileOrder files) = sort compareFileOrder files
  /\ (StronglySorted (fun a b => (compareFileOrder a b <= 0)%Z) files ->
      sort compareFileOrder files = files).
Proof.
  assert (T : forall x y, (0 < compareFileOrder x y)%Z -> (compareFileOrder y x <= 0)%Z).
  { intros x y H. unfold compareFileOrder in *. rewrite compareArray_antisym. lia. }
  assert (R : forall x y z, (compareFileOrder x y <= 0)%Z -> (compareFileOrder y z <= 0)%Z ->
                            (compareFileOrder x z <= 0)%Z).
  { intros x y z. unfold compareFileOrder. apply compareArray_trans. }
  split; [apply sort_perm |]. split; [now apply sort_sorted |].
  split; [apply sort_of_sorted; now apply sort_sorted | apply sort_of_sorted].
Qed.

(** ** The collector *)

(** Induction on a tree, with the property known of every entry of a
    directory. *)
Lemma node_induction (P : node -> Prop)
    (Hfile : forall content, P (File content))
    (Hdir : forall entries, Forall (fun e => P (snd e)) entries -> P (Directory entries)) :
  forall n, P n.
Proof.
  fix IH 1. intros [content|entries]; [apply Hfile |]. apply Hdir.
  induction entries as [|[name child] entries IHentries]; constructor;
    [apply IH | exact IHentries].
Qed.

Lemma getAllFiles_directory (entries : list (string * node)) (path : string)
    (acc : list string) :
  getAllFiles_node (Directory entries) path acc
  = fold_left (fun acc e => getAllFiles_node (snd e) (path ++ "/" ++ fst e) acc) entries acc.
Proof.
  cbn [getAllFiles_node]. revert acc.
  induction entries as [|[name child] entries IH]; intros acc; [reflexivity |].
  cbn [fold_left fst snd]. apply IH.
Qed.

Lemma wellFormed_directory (entries : list (string * node)) :
  wellFormed (Directory entries)
  <-> NoDup (map fst entries)
      /\ Forall (fun e => validName (fst e) = true /\ wellFormed (snd e)) entries.
Proof.
  cbn [wellFormed]. apply and_iff_compat_l.
  induction entries as [|[name child] entries IH].
  - split; constructor.
  - rewrite Forall_cons_iff, <- IH. cbn [fst snd]. tauto.
Qed.

Lemma fileCount_directory (entries : list (string * node)) :
  fileCount (Directory entries) = list_sum (map (fun e => fileCount (snd e)) entries).
Proof.
  cbn [fileCount]. induction entries as [|[name child] entries IH]; [reflexivity |].
  cbn [map list_sum snd]. now rewrite IH.
Qed.

Lemma fold_left_extends {A B : Type} (F : list B -> A -> list B) (G : A -> list B)
    (l : list A) :
  Forall (fun e => forall acc, F acc e = (acc ++ G e)%list) l ->
  forall acc, fold_left F l acc = (acc ++ concat (map G l))%list.
Proof.
  induction 1 as [|e l He _ IH]; intros acc; cbn [fold_left map concat].
  - now rewrite List.app_nil_r.
  - now rewrite He, IH, List.app_assoc.
Qed.

(** The accumulator is only extended. *)
Lemma getAllFiles_node_acc (n : node) :
  forall path acc,
    getAllFiles_node n path acc = (acc ++ getAllFiles_node n path [])%list.
Proof.
  induction n as [content|entries IH] using node_induction; intros path acc.
  - reflexivity.
  - rewrite !getAllFiles_directory.
    assert (H : Forall (fun e => forall acc,
                          getAllFiles_node (snd e) (path ++ "/" ++ fst e) acc
                          = (acc ++ getAllFiles_node (snd e) (path ++ "/" ++ fst e) [])%list)
                  entries).
    { eapply Forall_impl; [| exact IH]. intros e He acc'. apply He. }
    rewrite (fold_left_extends _ _ _ H acc), (fold_left_extends _ _ _ H []). reflexivity.
Qed.

(** The files of a directory are the files of its entries, one entry
    after the other. *)
Lemma getAllFiles_entries (entries : list (string * node)) (path : string) :
  getAllFiles_node (Directory entries) path []
  = concat (map (fun e => getAllFiles_node (snd e) (path ++ "/" ++ fst e) []) entries).
Proof.
  rewrite getAllFiles_directory.
  rewrite (fold_left_extends _ (fun e => getAllFiles_node (snd e) (path ++ "/" ++ fst e) [])).
  - reflexivity.
  - apply Forall_forall. intros e _ acc. apply getAllFiles_node_acc.
Qed.

Lemma getAllFiles_count (n : node) :
  forall path, List.length (getAllFiles_node n path []) = fileCount n.
Proof.
  induction n as [content|entries IH] using node_induction; intros path.
  - reflexivity.
  - rewrite getAllFiles_entries, fileCount_directory.
    induction IH as [|e entries He _ IHes]; [reflexivity |].
    cbn [map concat list_sum]. now rewrite List.length_app, He, IHes.
Qed.

(** Every listed path continues the path of the root, with nothing or with
    a slash and more. *)
Lemma getAllFiles_below (n : node) :
  forall path file,
    In file (getAllFiles_node n path []) ->
    exists tail, file = path ++ tail /\ (tail = "" \/ startsWith tail "/" = true).
Proof.
  induction n as [content|entries IH] using node_induction; intros path file.
  - intros [<-|[]]. exists "". now rewrite app_empty_r; auto.
  - rewrite getAllFiles_entries, in_concat. intros (l & Hl & Hfile).
    apply in_map_iff in Hl as (e & <- & He).
    rewrite Forall_forall in IH.
    destruct (IH e He _ _ Hfile) as (tail & -> & _).
    exists ("/" ++ fst e ++ tail). rewrite !app_assoc. auto.
Qed.

Lemma segments_app (a b : string) :
  segments (a ++ "/" ++ b) = (segments a ++ segments b)%list.
Proof.
  unfold segments. change ("/" ++ b) with (String "/" b).
  now rewrite split_app, filter_app.
Qed.

Lemma segments_name (name : string) : validName name = true -> segments name = [name].
Proof.
  unfold validName. intros H. apply andb_prop in H as [H Hs]. apply andb_prop in H as [He Hd].
  apply negb_true_iff in Hs, He, Hd.
  unfold segments. rewrite (split_no_separator _ _ Hs). cbn [List.filter].
  now rewrite He, Hd.
Qed.

Lemma lookupNode_app (l1 l2 : list string) (n : node) :
  lookupNode (l1 ++ l2) n
  = match lookupNode l1 n with Some m => lookupNode l2 m | None => None end.
Proof.
  revert n; induction l1 as [|seg l1 IH]; intros n; [reflexivity |].
  cbn [app lookupNode]. destruct n as [c|entries]; [reflexivity |].
  destruct (findEntry seg entries); [apply IH | reflexivity].
Qed.

Lemma findEntry_unique (entries : list (string * node)) (name : string) (child : node) :
  NoDup (map fst entries) -> In (name, child) entries -> findEntry name entries = Some child.
Proof.
  induction entries as [|[n c] entries IH]; intros Hnd Hin; [contradiction |].
  cbn [map fst] in Hnd. inversion Hnd as [|? ? Hnot Hnd']; subst.
  cbn [findEntry]. destruct Hin as [E|Hin].
  - injection E as -> ->. now rewrite String.eqb_refl.
  - destruct (String.eqb_spec n name) as [->|Hne]; [| now apply IH].
    exfalso. apply Hnot. apply in_map_iff. now exists (name, child).
Qed.

(** In a well-formed tree every listed path leads back to a file. *)
Lemma getAllFiles_sound (n : node) :
  forall root path file,
    wellFormed n -> lookupNode (segments path) root = Some n ->
    In file (getAllFiles_node n path []) ->
    exists content, lookupNode (segments file) root = Some (File content).
Proof.
  induction n as [content|entries IH] using node_induction; intros root path file Hwf Hlook.
  - intros [<-|[]]. eauto.
  - rewrite getAllFiles_entries, in_concat. intros (l & Hl & Hfile).
    apply in_map_iff in Hl as ([name child] & <- & He). cbn [fst snd] in Hfile.
    apply wellFormed_directory in Hwf as [Hnd Hall].
    rewrite Forall_forall in IH, Hall.
    destruct (Hall _ He) as [Hname Hchild]. cbn [fst snd] in *.
    apply (IH _ He root (path ++ "/" ++ name) file Hchild); [| exact Hfile].
    rewrite segments_app, lookupNode_app, Hlook, (segments_name _ Hname).
    cbn [lookupNode]. now rewrite (findEntry_unique _ _ _ Hnd He).
Qed.

(** Every file of the tree is listed. *)
Lemma findEntry_In (entries : list (string * node)) (name : string) (child : node) :
  findEntry name entries = Some child -> In (name, child) entries.
Proof.
  induction entries as [|[n c] entries IH]; cbn [findEntry]; [discriminate |].
  destruct (String.eqb_spec n name) as [->|Hne].
  - intros H. injection H as ->. now left.
  - intros H. right. now apply IH.
Qed.

Lemma getAllFiles_complete (segs : list string) :
  forall n path content,
    lookupNode segs n = Some (File content) ->
    In (pathBelow path segs) (getAllFiles_node n path []).
Proof.
  induction segs as [|seg segs IH]; intros n path content H.
  - cbn in H. injection H as ->. now left.
  - cbn [lookupNode] in H. destruct n as [c|entries]; [discriminate |].
    destruct (findEntry seg entries) as [child|] eqn:E; [| discriminate].
    rewrite getAllFiles_entries, in_concat.
    exists (getAllFiles_node child (path ++ "/" ++ seg) []). split.
    + apply in_map_iff. exists (seg, child). split; [reflexivity | now apply findEntry_In].
    + cbn [pathBelow fold_left]. exact (IH _ _ _ H).
Qed.

Lemma app_inv_head (a x y : string) : a ++ x = a ++ y -> x = y.
Proof. induction a as [|c a IH]; simpl; intros H; [exact H | injection H as H; auto]. Qed.

Lemma name_prefix_unique (n1 n2 t1 t2 : string) :
  includes n1 "/" = false -> includes n2 "/" = false ->
  (t1 = "" \/ startsWith t1 "/" = true) -> (t2 = "" \/ startsWith t2 "/" = true) ->
  n1 ++ t1 = n2 ++ t2 -> n1 = n2.
Proof.
  revert n2; induction n1 as [|c n1 IH]; intros [|d n2] H1 H2 T1 T2 E; cbn [String.append] in E.
  - reflexivity.
  - exfalso. rewrite includes_char_cons in H2. apply Bool.orb_false_elim in H2 as [Hd _].
    destruct T1 as [->|T1]; [discriminate |]. subst t1. cbn [startsWith] in T1.
    rewrite Bool.andb_true_r in T1. congruence.
  - exfalso. rewrite includes_char_cons in H1. apply Bool.orb_false_elim in H1 as [Hc _].
    destruct T2 as [->|T2]; [discriminate |]. subst t2. cbn [startsWith] in T2.
    rewrite Bool.andb_true_r in T2. congruence.
  - injection E as -> E. f_equal.
    rewrite includes_char_cons in H1, H2.
    apply Bool.orb_false_elim in H1 as [_ H1]. apply Bool.orb_false_elim in H2 as [_ H2].
    exact (IH _ H1 H2 T1 T2 E).
Qed.

Lemma NoDup_concat_map {A : Type} (G : A -> list string) (key : A -> string) (l : list A) :
  NoDup (map key l) ->
  Forall (fun e => NoDup (G e)) l ->
  (forall e1 e2 f, In e1 l -> In e2 l -> In f (G e1) -> In f (G e2) -> key e1 = key e2) ->
  NoDup (concat (map G l)).
Proof.
  induction l as [|e l IH]; intros Hk Hg Hsep; [constructor |].
  cbn [map concat] in *. inversion Hk as [|? ? Hnot Hk']; subst.
  inversion Hg as [|? ? He Hg']; subst.
  apply NoDup_app; [exact He | |].
  - apply IH; [assumption | assumption |].
    intros e1 e2 f H1 H2. apply Hsep; now right.
  - intros f Hf Hin. apply in_concat in Hin as (x & Hx & Hfx).
    apply in_map_iff in Hx as (e2 & <- & He2).
    apply Hnot. rewrite (Hsep e e2 f (or_introl eq_refl) (or_intror He2) Hf Hfx).
    now apply in_map.
Qed.

Lemma getAllFiles_NoDup (n : node) :
  forall path, wellFormed n -> NoDup (getAllFiles_node n path []).
Proof.
  induction n as [content|entries IH] using node_induction; intros path Hwf.
  - repeat constructor. intros [].
  - apply wellFormed_directory in Hwf as [Hnd Hall].
    rewrite getAllFiles_entries. rewrite Forall_forall in IH, Hall.
    apply (NoDup_concat_map _ fst); [exact Hnd | |].
    + apply Forall_forall. intros e He. apply IH; [exact He | now apply Hall].
    + intros e1 e2 f H1 H2 F1 F2.
      apply getAllFiles_below in F1 as (t1 & E1 & T1), F2 as (t2 & E2 & T2).
      rewrite E1, !app_assoc in E2. apply app_inv_head in E2.
      change ("/" ++ fst e1 ++ t1 = "/" ++ fst e2 ++ t2) in E2. injection E2 as E2.
      destruct (Hall _ H1) as [V1 _], (Hall _ H2) as [V2 _].
      unfold validName in V1, V2.
      apply andb_prop in V1 as [_ V1], V2 as [_ V2]. apply negb_true_iff in V1, V2.
      exact (name_prefix_unique _ _ _ _ V1 V2 T1 T2 E2).
Qed.

(** X6.  For a root that exists and a well-formed tree below it,
    [getAllFiles] prints nothing and lists every file below the root, once
    each: as many paths as there are files, each one continuing the root's
    path and leading back to a file, and the path of every file of the
    tree among them. *)
Theorem getAllFiles_lists_each_file_once (path : string) (w : world) (n : node)
    (Hstat : stat (root w) path = Some n) (Hwf : wellFormed n) :
  let files := fst (getAllFiles path w) in
  snd (getAllFiles path w) = w
  /\ List.length files = fileCount n
  /\ NoDup files
  /\ (forall file,
        In file files ->
        startsWith file path = true
        /\ exists content, readFileSync (root w) file = inr content)
  /\ (forall segs content,
        lookupNode segs n = Some (File content) -> In (pathBelow path segs) files).
Proof.
  unfold getAllFiles. rewrite Hstat. cbn [fst snd].
  split; [reflexivity |]. split; [apply getAllFiles_count |].
  split; [now apply getAllFiles_NoDup |]. split.
  - intros file Hin. split.
    + apply getAllFiles_below in Hin as (tail & -> & _). apply startsWith_app.
    + unfold stat in Hstat. destruct (String.eqb_spec path "") as [|Hne]; [discriminate |].
      destruct (getAllFiles_sound n (root w) path file Hwf Hstat Hin) as [content Hc].
      exists content. unfold readFileSync, stat.
      apply getAllFiles_below in Hin as (tail & -> & _).
      destruct (String.eqb_spec (path ++ tail) "") as [E|_].
      * destruct path; [congruence | discriminate].
      * now rewrite Hc.
  - intros segs content. apply getAllFiles_complete.
Qed.

(** ** More on the purge loop *)

Lemma search_char_found (c : ascii) (s : string) (i k : nat) :
  search (String c "") s k = Some i ->
  exists pre rest,
    s = pre ++ String c rest /\ includes pre (String c "") = false
    /\ i = k + String.length pre.
Proof.
  revert k; induction s as [|d s IH]; intros k; [discriminate |].
  rewrite search_cons. cbn [startsWith]. rewrite Bool.andb_true_r.
  destruct (Ascii.eqb_spec c d) as [<-|Hne].
  - intros H. injection H as <-. exists "", s. repeat split. simpl. lia.
  - intros H. destruct (IH _ H) as (pre & rest & -> & Hpre & ->).
    exists (String d pre), rest. repeat split.
    + rewrite includes_char_cons, Hpre. apply Ascii.eqb_neq in Hne. now rewrite Hne.
    + simpl. lia.
Qed.

Lemma trimStart_suffix (s : string) : exists ws, s = ws ++ trimStart s.
Proof.
  induction s as [|c s [ws IH]]; [now exists "" |].
  cbn [trimStart]. destruct (isWhiteSpace c); [| now exists ""].
  exists (String c ws). simpl. now rewrite <- IH.
Qed.

Lemma includes_middle (a sub b : string) : includes (a ++ sub ++ b) sub = true.
Proof.
  unfold includes. induction a as [|c a IH].
  - cbn [String.append]. now rewrite search_here.
  - cbn [String.append]. rewrite search_cons.
    destruct (startsWith _ sub); [reflexivity |].
    rewrite search_shift. destruct (search sub (a ++ sub ++ b) 0); [reflexivity | discriminate].
Qed.

Section PurgeMore.
Variable options : pluginOptions.

Lemma containsOur_iff (code : string) :
  containsOurImportStatement options code = true
  <-> exists name,
        (outputName options = Some name \/ In name (previousOutputNames options))
        /\ includes code ("./" ++ name ++ "';") = true.
Proof.
  unfold containsOurImportStatement. rewrite stringIncludesAny_existsb, existsb_exists.
  unfold possibleImportLines. split.
  - intros (line & Hin & Hinc). apply in_map_iff in Hin as (name & <- & Hin).
    exists name. split; [| exact Hinc]. apply in_app_iff in Hin as [Hin|Hin]; [left | now right].
    destruct (outputName options) as [n|]; [| contradiction].
    destruct Hin as [->|[]]. reflexivity.
  - intros (name & Hname & Hinc). exists ("./" ++ name ++ "';"). split; [| exact Hinc].
    apply in_map_iff. exists name. split; [reflexivity |]. apply in_app_iff.
    destruct Hname as [->|Hin]; [left; now left | now right].
Qed.

(** X9.  [getFirstImportStatement] returns either the empty text, or - the
    text starting with [import {] after optional white space - the text up
    to and including its first semicolon. *)
Theorem first_import_statement_ends_at_first_semicolon (code : string) :
  getFirstImportStatement code = ""
  \/ (Regex.test regexStartsWithImport code = true
      /\ exists pre rest,
           code = pre ++ ";" ++ rest /\ includes pre ";" = false
           /\ getFirstImportStatement code = pre ++ ";").
Proof.
  unfold getFirstImportStatement.
  destruct (Regex.test regexStartsWithImport code) eqn:T; [| now left].
  cbn [negb]. unfold indexOf. rewrite clamp_negative by lia. cbn [drop].
  destruct (search ";" code 0) as [i|] eqn:E.
  - right. split; [reflexivity |].
    destruct (search_char_found _ _ _ _ E) as (pre & rest & -> & Hpre & ->).
    exists pre, rest. repeat split; [exact Hpre |].
    cbn [Nat.add]. replace (Z.of_nat (String.length pre) + 1)%Z with (len (pre ++ ";")).
    + change (pre ++ String ";" rest) with (pre ++ ";" ++ rest).
      rewrite <- app_assoc. apply substring_prefix.
    + unfold len. rewrite length_app. simpl. lia.
  - left. change (-1 + 1)%Z with 0%Z. unfold substring.
    rewrite clamp_negative by lia. reflexivity.
Qed.

Lemma purgeStep_suffix (code code' : string) :
  purgeStep options code = Some code' -> exists removed, code = removed ++ code'.
Proof.
  unfold purgeStep. destruct (trimStart_suffix code) as [ws Hws].
  set (newCode := trimStart code) in *.
  assert (D : forall i, exists removed, code = removed ++ substringFrom newCode i).
  { intros i. rewrite substringFrom_drop. exists (ws ++ take (clamp newCode i) newCode).
    now rewrite app_assoc, take_drop. }
  destruct (containsOurImportStatement options (getFirstImportStatement newCode)).
  - intros H. injection H as <-.
    destruct (_ <? 0)%Z; [exists code; now rewrite app_empty_r | apply D].
  - destruct (startsWith newCode "<<<<<<< HEAD"); [| discriminate].
    intros H.
    repeat match type of H with
           | (if ?b then _ else None) = Some _ => destruct b; [| discriminate]
           end.
    apply (f_equal (fun o => match o with Some x => x | None => "" end)) in H.
    cbv beta iota in H. subst code'. apply D.
Qed.

Lemma purge_suffix (fuel : nat) (code result : string) :
  purgeImportedFieldsCode options fuel code = Some result ->
  exists removed, code = removed ++ result.
Proof.
  revert code; induction fuel as [|fuel IH]; intros code; cbn [purgeImportedFieldsCode];
    [discriminate |].
  destruct (purgeStep options code) as [code'|] eqn:E.
  - intros H. destruct (IH _ H) as [r2 ->].
    destruct (purgeStep_suffix _ _ E) as [r1 ->].
    exists (r1 ++ r2). now rewrite app_assoc.
  - intros H. injection H as <-. now exists "".
Qed.

(** X12.  With more fuel than the text has code units, the purge loop
    either returns a text on which neither rule applies any more, or it
    returns with no amount of fuel: it never stops halfway for lack of
    turns. *)
Theorem purge_returns_or_never_does (fuel : nat) (code : string) :
  String.length code < fuel ->
  (exists result,
     purgeImportedFieldsCode options fuel code = Some result
     /\ purgeStep options result = None)
  \/ (forall fuel', purgeImportedFieldsCode options fuel' code = None).
Proof.
  revert code; induction fuel as [|fuel IH]; intros code H; [lia |].
  cbn [purgeImportedFieldsCode].
  destruct (purgeStep options code) as [code'|] eqn:E; [| left; eauto].
  assert (Hnever : (forall fuel', purgeImportedFieldsCode options fuel' code' = None) ->
                   forall fuel', purgeImportedFieldsCode options fuel' code = None).
  { intros Hn [|fuel']; cbn [purgeImportedFieldsCode]; [reflexivity |]. rewrite E. apply Hn. }
  destruct (purgeStep_shrinks _ _ _ E) as [Hlt|[_ [_ Hstuck]]].
  - destruct (IH code' ltac:(lia)) as [Hret|Hn]; [now left | right; now apply Hnever].
  - right. apply Hnever. now apply purge_stuck.
Qed.
End PurgeMore.

Lemma statement_of_line (stmt rest : string) :
  Regex.test regexStartsWithImport (stmt ++ ";" ++ rest) = true ->
  includes stmt ";" = false ->
  getFirstImportStatement (stmt ++ ";" ++ rest) = stmt ++ ";".
Proof.
  intros T H. unfold getFirstImportStatement. rewrite T. cbn [negb].
  change (";" ++ rest) with (String ";" rest). rewrite (indexOf_first_char _ _ _ H).
  replace (len stmt + 1)%Z with (len (stmt ++ ";")).
  - change (stmt ++ String ";" rest) with (stmt ++ ";" ++ rest).
    rewrite <- app_assoc. apply substring_prefix.
  - rewrite len_app. reflexivity.
Qed.

Section Rule1.
Variable options : pluginOptions.

(** Rule 1 on a text whose first statement is ours: the statement goes, and
    with it the rest of the line it ends on. *)
Lemma purgeStep_removes_our_line (code stmt lineRest rest : string) :
  trimStart code = stmt ++ ";" ++ lineRest ++ LF ++ rest ->
  Regex.test regexStartsWithImport (trimStart code) = true ->
  includes stmt ";" = false ->
  containsOurImportStatement options (stmt ++ ";") = true ->
  includes lineRest LF = false ->
  purgeStep options code = Some rest.
Proof.
  intros Htrim T Hs Hours Hline. unfold purgeStep. rewrite Htrim in *.
  rewrite (statement_of_line _ _ T Hs), Hours.
  rewrite <- (app_assoc stmt ";" (lineRest ++ LF ++ rest)).
  rewrite (indexOf_middle (stmt ++ ";") lineRest LF rest)
    by (apply firstAtEnd_absent; [reflexivity | exact Hline]).
  destruct (len (stmt ++ ";") + len lineRest <? 0)%Z eqn:E;
    [apply Z.ltb_lt in E; unfold len in E; lia |].
  f_equal.
  replace (len (stmt ++ ";") + len lineRest + 1)%Z
    with (len ((stmt ++ ";") ++ lineRest ++ LF)).
  - rewrite <- (app_assoc lineRest LF rest), <- (app_assoc (stmt ++ ";")).
    apply substringFrom_suffix.
  - rewrite !len_app. change (len LF) with 1%Z. lia.
Qed.

Lemma purgeStep_removes_our_last_line (code stmt lineRest : string) :
  trimStart code = stmt ++ ";" ++ lineRest ->
  Regex.test regexStartsWithImport (trimStart code) = true ->
  includes stmt ";" = false ->
  containsOurImportStatement options (stmt ++ ";") = true ->
  includes lineRest LF = false ->
  purgeStep options code = Some "".
Proof.
  intros Htrim T Hs Hours Hline. unfold purgeStep. rewrite Htrim in *.
  rewrite (statement_of_line _ _ T Hs), Hours.
  assert (E : indexOf (stmt ++ ";" ++ lineRest) LF (len (stmt ++ ";")) = (-1)%Z).
  { rewrite <- app_assoc. unfold indexOf, len.
    rewrite clamp_inside by (rewrite (length_app (stmt ++ ";") lineRest); lia).
    rewrite drop_app, search_shift, (includes_false _ _ Hline). reflexivity. }
  rewrite E. reflexivity.
Qed.
End Rule1.

Lemma repeatNat_clean (k : nat) : includes (repeatNat "../" k) ";" = false.
Proof.
  induction k as [|k IH]; [reflexivity |].
  cbn [repeatNat]. now rewrite includes_char_app, IH.
Qed.

Lemma repeatNat_snoc (s : string) (k : nat) : repeatNat s (S k) = repeatNat s k ++ s.
Proof.
  induction k as [|k IH]; cbn [repeatNat] in *; [now rewrite app_empty_r |].
  rewrite app_assoc. f_equal. exact IH.
Qed.

(** However many levels the path climbs, it ends in [./<name>]. *)
Lemma climbing_path_ends_in_name (k : nat) (name : string) :
  exists front, "./" ++ repeatNat "../" k ++ name = front ++ "./" ++ name.
Proof.
  destruct k as [|k].
  - now exists "".
  - exists ("./" ++ repeatNat "../" k ++ "."). rewrite repeatNat_snoc.
    rewrite !app_assoc. reflexivity.
Qed.

Section RoundTrip.
Variable options : pluginOptions.

Lemma plain_line_is_ours (name fields : string) (k : nat) :
  outputName options = Some name ->
  containsOurImportStatement options
    (("import {" ++ fields ++ "} from '" ++ "./" ++ repeatNat "../" k ++ name ++ "'") ++ ";")
  = true.
Proof.
  intros Hout. apply containsOur_iff. exists name. split; [now left |].
  destruct (climbing_path_ends_in_name k name) as [front E].
  assert (E' : "./" ++ repeatNat "../" k ++ name ++ "'" = front ++ "./" ++ name ++ "'").
  { transitivity (("./" ++ repeatNat "../" k ++ name) ++ "'").
    - now rewrite !app_assoc.
    - rewrite E. now rewrite !app_assoc. }
  rewrite E'.
  replace (("import {" ++ fields ++ "} from '" ++ front ++ "./" ++ name ++ "'") ++ ";")
    with (("import {" ++ fields ++ "} from '" ++ front) ++ ("./" ++ name ++ "';") ++ "").
  - apply includes_middle.
  - rewrite app_empty_r, !app_assoc. reflexivity.
Qed.

Lemma purge_undoes_injection (name fields purgedCode : string) (k fuel : nat) :
  outputName options = Some name ->
  includes fields ";" = false ->
  includes name ";" = false ->
  purgeStep options purgedCode = None ->
  purgeImportedFieldsCode options (S (S fuel))
    ("import {" ++ fields ++ "} from '" ++ ("./" ++ repeatNat "../" k ++ name) ++ "';"
       ++ LF ++ purgedCode)
  = Some purgedCode.
Proof.
  intros Hout Hf Hn Hp.
  set (stmt := "import {" ++ fields ++ "} from '" ++ "./" ++ repeatNat "../" k ++ name ++ "'").
  assert (E : "import {" ++ fields ++ "} from '" ++ ("./" ++ repeatNat "../" k ++ name) ++ "';"
                ++ LF ++ purgedCode
              = stmt ++ ";" ++ "" ++ LF ++ purgedCode).
  { unfold stmt. rewrite !app_assoc. reflexivity. }
  rewrite E. clear E.
  assert (Hstep : purgeStep options (stmt ++ ";" ++ "" ++ LF ++ purgedCode) = Some purgedCode).
  { apply (purgeStep_removes_our_line options _ stmt "" purgedCode).
    - reflexivity.
    - reflexivity.
    - unfold stmt. rewrite !includes_char_app, Hf, Hn, repeatNat_clean. reflexivity.
    - now apply plain_line_is_ours.
    - reflexivity. }
  cbn [purgeImportedFieldsCode]. now rewrite Hstep, Hp.
Qed.
End RoundTrip.

(** ** What a run writes *)

Lemma forEachFrom_invariant {S : Type} (f : string -> nat -> list string -> S -> outcome S)
    (I : S -> S -> Prop) (array : list string) :
  (forall s, I s s) -> (forall s1 s2 s3, I s1 s2 -> I s2 s3 -> I s1 s3) ->
  forall rest i s s',
    (forall x j s1 s2, In x rest -> f x j array s1 = Done s2 -> I s1 s2) ->
    forEachFrom f array rest i s = Done s' -> I s s'.
Proof.
  intros Hrefl Htrans. induction rest as [|x rest IH]; intros i s s' Hf; cbn [forEachFrom].
  - intros H. injection H as <-. apply Hrefl.
  - destruct (f x i array s) as [s1| |] eqn:E; cbn [bind]; try discriminate.
    intros H. apply (Htrans _ s1).
    + apply (Hf x i); [now left | exact E].
    + apply (IH (Datatypes.S i)); [| exact H]. intros y j a b Hy. apply Hf. now right.
Qed.

Lemma sort_In (compare : string -> string -> Z) (l : list string) (x : string) :
  In x (sort compare l) -> In x l.
Proof.
  revert x; induction l as [|y l IH]; intros x; [intros [] |].
  cbn [sort fold_right]. fold (sort compare l).
  generalize (sort compare l) IH. clear IH. intros sorted IH.
  induction sorted as [|z sorted IHs]; cbn [sortInsert].
  - intros [<-|[]]. now left.
  - destruct (compare y z <=? 0)%Z.
    + intros [<-|H]; [now left | right; now apply IH].
    + intros [<-|H]; [right; apply IH; now left |].
      assert (IH' : forall x, In x sorted -> In x l) by (intros a Ha; apply IH; now right).
      destruct (IHs IH' H) as [->|Hx]; [now left | now right].
Qed.

Section Run.
Variable transformSync : string -> jsError + list statement.
Variable options : pluginOptions.

Lemma getExportedFields_world (fuel : nat) (code : string) (isPurged : bool)
    (w : world) (fields : list string) (w' : world) :
  getExportedFields transformSync options fuel code isPurged w = Done (fields, w') ->
  root w' = root w /\ written w' = written w.
Proof.
  unfold getExportedFields.
  destruct (if isPurged then Done code else purged options fuel code) as [text| |];
    cbn [bind]; try discriminate.
  destruct (transformSync text); intros H; injection H as _ <-; split; reflexivity.
Qed.

(** The import phase reads and records; it changes no file. *)
Lemma importFile_invariant (fuel : nat) (file : string) (index : nat)
    (array : list string) (acc acc' : accumulator) (w w' : world) :
  importFile transformSync options fuel file index array (acc, w) = Done (acc', w') ->
  root w' = root w
  /\ written w' = written w
  /\ (exists added, importsCode acc' = importsCode acc ++ added)
  /\ (forall key, In key (exportedFields acc) -> In key (exportedFields acc'))
  /\ (filter options file = false -> acc' = acc /\ w' = w).
Proof.
  assert (Hsame : forall a w0, (a, w0) = (acc', w') -> a = acc -> w0 = w ->
            root w' = root w /\ written w' = written w
            /\ (exists added, importsCode acc' = importsCode acc ++ added)
            /\ (forall key, In key (exportedFields acc) -> In key (exportedFields acc'))
            /\ (filter options file = false -> acc' = acc /\ w' = w)).
  { intros a w0 E -> ->. injection E as <- <-. repeat split; auto.
    exists "". now rewrite app_empty_r. }
  unfold importFile.
  destruct (isSome (outputName options) && isFileOfType file (fileExtensionsJs options)).
  - unfold importJsFile. destruct (filter options file) eqn:F.
    + destruct (readFileSync (root w) file) as [e|content]; [discriminate |].
      destruct (getExportedFields transformSync options fuel content false w)
        as [[fields w1]| |] eqn:G; cbn [bind]; try discriminate.
      intros H. injection H as <- <-.
      destruct (getExportedFields_world _ _ _ _ _ _ G) as [R W].
      repeat split; try assumption; try discriminate.
      * cbn [importsCode]. eexists. reflexivity.
      * intros key Hk. cbn [exportedFields]. apply fold_setTrue_In. now left.
    + intros H. injection H as H1 H2. now apply (Hsame acc w); [f_equal | |].
  - destruct (isSome (outputName options) && isFileOfType file (fileExtensionsOther options)).
    + unfold importOtherFile. destruct (filter options file) eqn:F.
      * intros H. injection H as <- <-. repeat split; try discriminate; auto.
        cbn [importsCode]. eexists. reflexivity.
      * intros H. injection H as H1 H2. now apply (Hsame acc w); [f_equal | |].
    + unfold importCustomFile. destruct (fileExtensionsCustom options) as [custom|].
      * destruct (filter options file) eqn:F.
        -- intros H. injection H as <- <-. repeat split; try discriminate; auto.
           ++ cbn [importsCode].
              destruct (custom file index array) as [[[code|] exports]|];
                try (exists ""; now rewrite app_empty_r).
              destruct (String.eqb code ""); [exists ""; now rewrite app_empty_r |].
              eexists. reflexivity.
           ++ intros key Hk. cbn [exportedFields].
              destruct (custom file index array) as [[code [exports|]]|]; try assumption.
              apply fold_setTrue_In. now left.
        -- intros H. injection H as H1 H2. now apply (Hsame acc w); [f_equal | |].
      * intros H. injection H as H1 H2. now apply (Hsame acc w); [f_equal | |].
Qed.

(** What [modifyFile] may write is the file it is called on, and only
    when the file is js-like. *)
Lemma modifyFile_invariant (fuel : nat) (file : string) (index : nat)
    (array : list string) (acc acc' : accumulator) (w w' : world) :
  modifyFile transformSync options fuel file index array (acc, w) = Done (acc', w') ->
  acc' = acc
  /\ (written w' = written w
      \/ (isFileOfType file (fileExtensionsJs options) = true
          /\ exists content, written w' = (written w ++ [(file, content)])%list)).
Proof.
  unfold modifyFile.
  destruct (isFileOfType file (fileExtensionsJs options)) eqn:Hjs.
  2:{ intros H. injection H as <- <-. auto. }
  destruct (readFileSync (root w) file) as [e|code]; [discriminate |].
  destruct (purged options fuel code) as [purgedCode| |]; cbn [bind]; try discriminate.
  assert (Hw : forall newCode w1 w2,
             written w1 = written w ->
             setFileContentIfFirstCodeLineIsDifferent file newCode (Some code) w1 = Done w2 ->
             written w2 = written w
             \/ (true = true /\ exists content, written w2 = (written w ++ [(file, content)])%list)).
  { intros newCode w1 w2 E. unfold setFileContentIfFirstCodeLineIsDifferent.
    destruct (negb _).
    - intros H. apply write_records in H as [H _]. right. split; [reflexivity |].
      exists newCode. now rewrite H, E.
    - intros H. injection H as <-. now left. }
  destruct (outputName options) as [name|].
  - destruct (getExportedFields transformSync options fuel purgedCode true w)
      as [[fields w1]| |] eqn:G; cbn [bind]; try discriminate.
    destruct (importLineFrom file name) as [from| |]; cbn [bind]; try discriminate.
    destruct (setFileContentIfFirstCodeLineIsDifferent _ _ _ w1) as [w2| |] eqn:S;
      cbn [bind]; try discriminate.
    intros H. injection H as <- <-. split; [reflexivity |].
    destruct (getExportedFields_world _ _ _ _ _ _ G) as [_ W].
    exact (Hw _ _ _ W S).
  - destruct (setFileContentIfFirstCodeLineIsDifferent _ _ _ w) as [w2| |] eqn:S;
      cbn [bind]; try discriminate.
    intros H. injection H as <- <-. split; [reflexivity |].
    exact (Hw _ _ _ eq_refl S).
Qed.
End Run.

Lemma getAllFiles_world (path : string) (w : world) :
  root (snd (getAllFiles path w)) = root w
  /\ written (snd (getAllFiles path w)) = written w.
Proof. unfold getAllFiles. destruct (stat (root w) path); split; reflexivity. Qed.

Lemma getAllFiles_In_below (path : string) (w : world) (file : string) :
  In file (fst (getAllFiles path w)) -> startsWith file path = true.
Proof.
  unfold getAllFiles. destruct (stat (root w) path) as [n|]; cbn [fst]; [| intros []].
  intros H. apply getAllFiles_below in H as (tail & -> & _). apply startsWith_app.
Qed.

Lemma forEachRoot_invariant (f : string -> nat -> list string -> state -> outcome state)
    (I : state -> state -> Prop) :
  (forall s, I s s) -> (forall s1 s2 s3, I s1 s2 -> I s2 s3 -> I s1 s3) ->
  (forall acc w path, I (acc, w) (acc, snd (getAllFiles path w))) ->
  forall roots st st',
    (forall path x j array s1 s2,
       In path roots -> startsWith x (purgePath path) = true ->
       f x j array s1 = Done s2 -> I s1 s2) ->
    forEachRoot f roots st = Done st' -> I st st'.
Proof.
  intros Hrefl Htrans Hlog. induction roots as [|path roots IH]; intros st st' Hf;
    cbn [forEachRoot].
  - intros H. injection H as <-. apply Hrefl.
  - destruct (getAllFiles (purgePath path) (snd st)) as [files w] eqn:G.
    destruct (forEach f (sort compareFileOrder files) (fst st, w)) as [s1| |] eqn:E;
      cbn [bind]; try discriminate.
    intros H. apply (Htrans _ (fst st, w)).
    { destruct st as [acc w0]. cbn [fst snd] in *.
      replace w with (snd (getAllFiles (purgePath path) w0)) by now rewrite G.
      apply Hlog. }
    apply (Htrans _ s1).
    + unfold forEach in E.
      apply (forEachFrom_invariant f I _ Hrefl Htrans _ _ _ _) in E; [exact E |].
      intros x j s2 s3 Hx. apply (Hf path); [now left |].
      apply sort_In in Hx. apply (getAllFiles_In_below _ (snd st)). now rewrite G.
    + apply IH; [| exact H]. intros p x j a s2 s3 Hp. apply Hf. now right.
Qed.

Section Whole.
Variable transformSync : string -> jsError + list statement.
Variable options : pluginOptions.

Lemma import_phase_writes_nothing (fuel : nat) (roots : list string) (st st' : state) :
  forEachRoot (importFile transformSync options fuel) roots st = Done st' ->
  root (snd st') = root (snd st) /\ written (snd st') = written (snd st).
Proof.
  apply (forEachRoot_invariant _
           (fun s1 s2 => root (snd s2) = root (snd s1) /\ written (snd s2) = written (snd s1))).
  - now split.
  - intros s1 s2 s3 [R1 W1] [R2 W2]. split; congruence.
  - intros acc w path. cbn [snd]. apply getAllFiles_world.
  - intros path x j array [a1 w1] [a2 w2] _ _ H.
    apply importFile_invariant in H as (R & W & _). now split.
Qed.

Lemma modify_phase_writes_managed (fuel : nat) (st st' : state) :
  forEachRoot (modifyFile transformSync options fuel) (modify_ options) st = Done st' ->
  exists new, written (snd st') = (written (snd st) ++ new)%list /\ Forall (managed options) new.
Proof.
  apply (forEachRoot_invariant _
           (fun s1 s2 => exists new, written (snd s2) = (written (snd s1) ++ new)%list
                                     /\ Forall (managed options) new)).
  - intros s. exists []. now rewrite List.app_nil_r.
  - intros s1 s2 s3 (n1 & W1 & F1) (n2 & W2 & F2). exists (n1 ++ n2)%list.
    rewrite W2, W1, List.app_assoc. split; [reflexivity | now apply Forall_app].
  - intros acc w path. cbn [snd]. exists [].
    rewrite List.app_nil_r. split; [apply getAllFiles_world | constructor].
  - intros path x j array [a1 w1] [a2 w2] Hp Hx H.
    apply modifyFile_invariant in H as (_ & [W|(Hjs & content & W)]); cbn [snd].
    + exists []. now rewrite List.app_nil_r.
    + exists [(x, content)]. split; [exact W |]. constructor; [| constructor].
      split; [exact Hjs |]. now exists path.
Qed.

(** X14.  A run that returns has written, in this order, at most the
    aggregator [./<outputName>] (and only when an output name is
    configured) and then only js-like files below one of the "modify"
    roots. *)
Theorem run_writes_only_what_it_manages (fuel : nat) (w w' : world) :
  onPreInit transformSync options fuel w = Done w' ->
  exists aggregator modified,
    written w' = (written w ++ aggregator ++ modified)%list
    /\ (aggregator = []
        \/ exists name content,
             outputName options = Some name /\ aggregator = [("./" ++ name, content)])
    /\ Forall (managed options) modified.
Proof.
  unfold onPreInit.
  destruct (forEachRoot (importFile transformSync options fuel) (import_ options) _)
    as [[acc w1]| |] eqn:P1; cbn [bind]; try discriminate.
  apply import_phase_writes_nothing in P1 as [_ W1]. cbn [snd written] in W1.
  destruct (match outputName options with Some _ => _ | None => _ end) as [w2| |] eqn:P2;
    cbn [bind]; try discriminate.
  destruct (forEachRoot (modifyFile transformSync options fuel) (modify_ options) (acc, w2))
    as [st'| |] eqn:P3; cbn [bind]; try discriminate.
  intros H. injection H as <-.
  apply modify_phase_writes_managed in P3 as (modified & W3 & F3). cbn [snd] in W3.
  assert (A : exists aggregator,
             written w2 = (written w ++ aggregator)%list
             /\ (aggregator = []
                 \/ exists name content,
                      outputName options = Some name
                      /\ aggregator = [("./" ++ name, content)])).
  { destruct (outputName options) as [name|].
    - unfold setFileContentIfDifferent in P2. destruct (negb _).
      + apply write_records in P2 as [P2 _]. eexists. split; [now rewrite P2, W1 |].
        right. eauto.
      + injection P2 as <-. exists []. rewrite List.app_nil_r. auto.
    - injection P2 as <-. exists []. rewrite List.app_nil_r. auto. }
  destruct A as (aggregator & W2 & HA).
  exists aggregator, modified. split; [| split; assumption].
  now rewrite W3, W2, List.app_assoc.
Qed.
End Whole.

(** ** The set of exported names *)

Lemma insertIndex_perm (k : N * string) (l : list (N * string)) :
  Permutation (insertIndex k l) (k :: l).
Proof.
  induction l as [|k' l IH]; cbn [insertIndex]; [reflexivity |].
  destruct (fst k <=? fst k')%N; [reflexivity |]. rewrite IH. apply perm_swap.
Qed.

Lemma Object_keys_perm (obj : jsObject) : Permutation (Object_keys obj) obj.
Proof.
  unfold Object_keys. induction obj as [|key obj IH]; [reflexivity |].
  cbn [indexKeys List.filter]. destruct (arrayIndex key) as [i|].
  - rewrite insertIndex_perm. cbn [map snd app]. now constructor.
  - rewrite <- Permutation_middle. now constructor.
Qed.

Lemma setTrue_NoDup (obj : jsObject) (field : string) :
  NoDup obj -> NoDup (setTrue obj field).
Proof.
  intros H. unfold setTrue. destruct (String.eqb field "__proto__"); [exact H |].
  destruct (arrayIncludes obj field) eqn:E; [exact H |].
  apply NoDup_app; [exact H | repeat constructor; intros [] |].
  intros x Hx [<-|[]]. apply arrayIncludes_In in Hx. congruence.
Qed.

Lemma fold_setTrue_NoDup (fields : list string) (obj : jsObject) :
  NoDup obj -> NoDup (fold_left setTrue fields obj).
Proof.
  revert obj; induction fields as [|f fields IH]; intros obj H; [exact H |].
  cbn [fold_left]. apply IH. now apply setTrue_NoDup.
Qed.

(** X17.  The names recorded with [exportedFields[field] = true] form a
    set: [Object.keys] lists each name once, it lists exactly the names
    recorded before or now, except a new [__proto__], and is a
    rearrangement of the order of insertion. *)
Theorem exported_names_form_a_set (fields : list string) (obj : jsObject) :
  NoDup obj ->
  let keys := Object_keys (fold_left setTrue fields obj) in
  NoDup keys
  /\ Permutation keys (fold_left setTrue fields obj)
  /\ (forall key, In key keys <-> In key obj \/ (In key fields /\ key <> "__proto__"))
  /\ (~ In "__proto__" obj -> ~ In "__proto__" keys).
Proof.
  intros Hnd keys.
  assert (P : Permutation keys (fold_left setTrue fields obj)) by apply Object_keys_perm.
  assert (M : forall key, In key keys <-> In key obj \/ (In key fields /\ key <> "__proto__")).
  { intros key. unfold keys. rewrite Object_keys_In. apply fold_setTrue_In. }
  split; [| split; [exact P | split; [exact M |]]].
  - apply (Permutation_NoDup (Permutation_sym P)). now apply fold_setTrue_NoDup.
  - intros Hno Hin. apply M in Hin as [Hin|[_ Hne]]; [contradiction | congruence].
Qed.

(** ** Single steps of a run *)

Section Misc.
Variable transformSync : string -> jsError + list statement.
Variable options : pluginOptions.

(** X18.  [setFileContentIfFirstCodeLineIsDifferent] does not write when
    the old and the new text agree, up to surrounding white space, on what
    precedes their first semicolon, however much they differ after it. *)
Theorem unchanged_first_statement_is_not_written
    (file pre pre' x y : string) (w : world) :
  includes pre ";" = false -> includes pre' ";" = false -> trim pre = trim pre' ->
  setFileContentIfFirstCodeLineIsDifferent file (pre' ++ ";" ++ y)
    (Some (pre ++ ";" ++ x)) w = Done w.
Proof.
  intros H H' E. unfold setFileContentIfFirstCodeLineIsDifferent, oldContentOr.
  rewrite (getFirstCodeLine_statement _ _ H), (getFirstCodeLine_statement _ _ H'), E.
  now rewrite String.eqb_refl.
Qed.

(** X16.  With the output disabled, [modifyFile] on a js-like file writes
    at most the purged text of that file - the file's text without a
    prefix of it - and does so exactly when the first code line changed;
    it prints nothing and leaves the accumulator alone. *)
Theorem disabled_output_only_purges
    (fuel : nat) (file : string) (index : nat) (array : list string)
    (acc : accumulator) (w : world) (code purgedCode : string) :
  outputName options = None ->
  isFileOfType file (fileExtensionsJs options) = true ->
  readFileSync (root w) file = inr code ->
  purgeImportedFieldsCode options fuel code = Some purgedCode ->
  (exists removed, code = removed ++ purgedCode)
  /\ exists w',
       modifyFile transformSync options fuel file index array (acc, w) = Done (acc, w')
       /\ console w' = console w
       /\ written w'
          = if String.eqb (getFirstCodeLine code) (getFirstCodeLine purgedCode)
            then written w else (written w ++ [(file, purgedCode)])%list.
Proof.
  intros Hout Hjs Hread Hpurge. split; [exact (purge_suffix options _ _ _ Hpurge) |].
  unfold modifyFile, purged. rewrite Hjs, Hread, Hpurge. cbn [bind]. rewrite Hout.
  unfold setFileContentIfFirstCodeLineIsDifferent, oldContentOr.
  destruct (String.eqb (getFirstCodeLine code) (getFirstCodeLine purgedCode));
    cbn [negb bind].
  - eexists. repeat split.
  - destruct (write_existing w file purgedCode code Hread) as [root' ->].
    cbn [bind]. eexists. repeat split.
Qed.

(** X7.  For a configured root that does not exist, [getAllFiles] returns
    no file and prints the warning with the cleaned path; the run goes on
    with the next root, the callback not being called for this one. *)
Theorem missing_root_is_skipped_with_a_warning
    (f : string -> nat -> list string -> state -> outcome state)
    (path : string) (roots : list string) (acc : accumulator) (w : world) :
  stat (root w) (purgePath path) = None ->
  getAllFiles (purgePath path) w
  = ([], log (ConsoleWarn "[gatsby-plugin-automatic-importer] Path does not exist:"
                (purgePath path)) w)
  /\ forEachRoot f (path :: roots) (acc, w)
     = forEachRoot f roots
         (acc, log (ConsoleWarn "[gatsby-plugin-automatic-importer] Path does not exist:"
                      (purgePath path)) w).
Proof.
  intros H. assert (G : getAllFiles (purgePath path) w
              = ([], log (ConsoleWarn "[gatsby-plugin-automatic-importer] Path does not exist:"
                            (purgePath path)) w)).
  { unfold getAllFiles. now rewrite H. }
  split; [exact G |]. cbn [forEachRoot snd fst]. rewrite G. reflexivity.
Qed.

(** X15.  The "import" phase changes no file and writes nothing; it only
    appends to the import lines and adds names to the exported set, and
    when the configured filter rejects every file it leaves both as they
    were. *)
Theorem import_phase_changes_no_file (fuel : nat) (roots : list string) (st st' : state) :
  forEachRoot (importFile transformSync options fuel) roots st = Done st' ->
  root (snd st') = root (snd st)
  /\ written (snd st') = written (snd st)
  /\ (exists added, importsCode (fst st') = importsCode (fst st) ++ added)
  /\ (forall key, In key (exportedFields (fst st)) -> In key (exportedFields (fst st')))
  /\ ((forall file, filter options file = false) -> fst st' = fst st).
Proof.
  intros H.
  pose proof (forEachRoot_invariant (importFile transformSync options fuel)
    (fun s1 s2 =>
       root (snd s2) = root (snd s1)
       /\ written (snd s2) = written (snd s1)
       /\ (exists added, importsCode (fst s2) = importsCode (fst s1) ++ added)
       /\ (forall key, In key (exportedFields (fst s1)) -> In key (exportedFields (fst s2)))
       /\ ((forall file, filter options file = false) -> fst s2 = fst s1))) as Inv.
  apply Inv with (roots := roots); [| | | | exact H]; clear Inv H.
  - intros s. repeat split; auto. exists "". now rewrite app_empty_r.
  - intros s1 s2 s3 (R1 & W1 & (a1 & C1) & K1 & F1) (R2 & W2 & (a2 & C2) & K2 & F2).
    split; [congruence |]. split; [congruence |]. split.
    + exists (a1 ++ a2). now rewrite C2, C1, app_assoc.
    + split; [auto |]. intros Hf. now rewrite (F2 Hf), (F1 Hf).
  - intros acc w path. cbn [snd fst]. destruct (getAllFiles_world path w) as [R W].
    repeat split; auto. exists "". now rewrite app_empty_r.
  - intros path x j array [a1 w1] [a2 w2] _ _ Hrun.
    apply importFile_invariant in Hrun as (R & W & C & K & F). cbn [fst snd].
    repeat split; auto. intros Hf. now destruct (F (Hf x)).
Qed.
End Misc.

(** ** The expression that splices the import line *)

Lemma star_greedy {A : Type} (p : ascii -> bool) (x s : string) (k : string -> option A) :
  allChars p x = true ->
  Regex.star p (x ++ s) k
  = match Regex.star p s k with
    | Some r => Some r
    | None => retreat x s k
    end.
Proof.
  induction x as [|c x IH]; intros H; cbn [String.append retreat].
  - now destruct (Regex.star p s k).
  - cbn [allChars] in H. apply andb_prop in H as [Hc Hx].
    cbn [Regex.star]. rewrite Hc, (IH Hx).
    destruct (Regex.star p s k); [reflexivity |].
    now destruct (retreat x s k).
Qed.

Lemma take_front (a b : string) :
  take (String.length (a ++ b) - String.length b) (a ++ b) = a.
Proof.
  rewrite length_app. replace (String.length a + String.length b - String.length b)
    with (String.length a) by lia. apply take_app.
Qed.

Lemma replacer_stages :
  regexImportReplacer
  = Regex.Cat group1
      (Regex.Cat (Regex.Star (Regex.noneOf "}"))
         (Regex.Cat group2 (Regex.Cat (Regex.Star Regex.dot) group3))).
Proof. reflexivity. Qed.

Section Stages.
Context {A : Type}.

Lemma run_group1 (Y : string) (caps : list string)
    (k : string -> list string -> option A) (r : A) :
  (forall k' : string -> option A, Regex.star Regex.space Y k' = k' Y) ->
  k Y (caps ++ ["import {"])%list = Some r ->
  Regex.run group1 ("import {" ++ Y) caps k = Some r.
Proof.
  intros HY Hk. unfold group1. cbn [Regex.run Regex.seq Regex.litI].
  cbn [String.append Regex.star Regex.space isWhiteSpace Regex.run Regex.chrI].
  pose proof (take_front "import {" Y) as T. cbn [String.append] in T.
  rewrite !Ascii.eqb_refl, HY, T, Hk. reflexivity.
Qed.

(** Group 2 on the last code unit of the list, the closing brace and
    [from]. *)
Lemma run_group2 (c : ascii) (Z : string) (caps : list string)
    (k : string -> list string -> option A) (r : A) :
  Regex.nonSpace c = true ->
  k Z (caps ++ [String c "} from '"])%list = Some r ->
  Regex.run group2 (String c ("} from '" ++ Z)) caps k = Some r.
Proof.
  intros Hc Hk. unfold group2. cbn [Regex.run Regex.seq Regex.litI].
  rewrite Hc. cbn [orb].
  cbn [String.append Regex.star Regex.space isWhiteSpace Regex.run Regex.chrI].
  rewrite !Ascii.eqb_refl. cbn [isQuote Ascii.eqb Bool.eqb orb].
  pose proof (take_front (String c "} from '") Z) as T. cbn [String.append] in T.
  rewrite T, Hk. reflexivity.
Qed.

(** Group 2 cannot start at the closing brace itself. *)
Lemma run_group2_at_brace (Z : string) (caps : list string)
    (k : string -> list string -> option A) :
  Regex.run group2 ("} from '" ++ Z) caps k = None.
Proof. reflexivity. Qed.

Lemma run_tail (path : string) (caps : list string)
    (k : string -> list string -> option A) (r : A) :
  allChars Regex.dot path = true ->
  k "" (caps ++ ["';"])%list = Some r ->
  Regex.run (Regex.Cat (Regex.Star Regex.dot) group3) (path ++ "';") caps k = Some r.
Proof.
  intros Hp Hk. cbn [Regex.run]. rewrite (star_greedy _ _ _ _ Hp).
  unfold group3. cbn. rewrite Hk. reflexivity.
Qed.

Lemma run_list (body : string) (c : ascii) (Z : string) (caps : list string)
    (k : string -> list string -> option A) (r : A) :
  allChars (Regex.noneOf "}") body = true ->
  Regex.nonSpace c = true -> c <> "}"%char ->
  k Z (caps ++ [String c "} from '"])%list = Some r ->
  Regex.run (Regex.Cat (Regex.Star (Regex.noneOf "}")) group2)
    (body ++ String c ("} from '" ++ Z)) caps k = Some r.
Proof.
  intros Hb Hc Hne Hk. cbn [Regex.run]. rewrite (star_greedy _ _ _ _ Hb).
  assert (Hp : Regex.noneOf "}" c = true).
  { unfold Regex.noneOf, Regex.oneOf. cbn. rewrite Bool.orb_false_r.
    apply negb_true_iff, Ascii.eqb_neq. exact Hne. }
  cbn [Regex.star]. rewrite Hp.
  cbn [String.append Regex.star Regex.noneOf Regex.oneOf list_ascii_of_string existsb
       Ascii.eqb Bool.eqb orb andb negb].
  pose proof (run_group2_at_brace Z caps k) as Hbrace. cbn [String.append] in Hbrace.
  rewrite Hbrace.
  pose proof (run_group2 c Z caps k r Hc Hk) as Hlast. cbn [String.append] in Hlast.
  rewrite Hlast. reflexivity.
Qed.

End Stages.

Lemma exec_plain_line (body : string) (c : ascii) (path : string) :
  allChars (Regex.noneOf "}") body = true ->
  Regex.nonSpace c = true -> c <> "}"%char ->
  (forall (k' : string -> option (list string * string)),
     Regex.star Regex.space (body ++ String c ("} from '" ++ path ++ "';")) k'
     = k' (body ++ String c ("} from '" ++ path ++ "';"))) ->
  allChars Regex.dot path = true ->
  Regex.exec regexImportReplacer
    ("import {" ++ body ++ String c ("} from '" ++ path ++ "';"))
  = Some (["import {"; String c "} from '"; "';"], "").
Proof.
  intros Hb Hc Hne Hstart Hp. unfold Regex.exec. rewrite replacer_stages.
  cbn [Regex.run].
  apply run_group1; [exact Hstart |].
  apply (run_list body c (path ++ "';") _ _ _ Hb Hc Hne).
  apply (run_tail path _ _ _ Hp). reflexivity.
Qed.

Lemma allChars_app (p : ascii -> bool) (a b : string) :
  allChars p (a ++ b) = allChars p a && allChars p b.
Proof.
  induction a as [|c a IH]; [reflexivity |]. cbn [String.append allChars].
  now rewrite IH, Bool.andb_assoc.
Qed.

Lemma allChars_impl (p q : ascii -> bool) (s : string) :
  (forall c, p c = true -> q c = true) -> allChars p s = true -> allChars q s = true.
Proof.
  intros H. induction s as [|c s IH]; [reflexivity |]. cbn [allChars].
  intros E. apply andb_prop in E as [Hc Hs]. now rewrite (H _ Hc), (IH Hs).
Qed.

Lemma allChars_absent (p : ascii -> bool) (c : ascii) (s : string) :
  p c = false -> allChars p s = true -> includes s (String c "") = false.
Proof.
  intros Hc. induction s as [|d s IH]; [reflexivity |]. cbn [allChars].
  intros E. apply andb_prop in E as [Hd Hs]. rewrite includes_char_cons, (IH Hs).
  destruct (Ascii.eqb_spec c d) as [->|]; [congruence | reflexivity].
Qed.

(** A string that is not empty has a last code unit. *)
Lemma last_char (s : string) : s <> "" -> exists body c, s = body ++ String c "".
Proof.
  induction s as [|c s IH]; [congruence |]. intros _.
  destruct s as [|d s]; [now exists "", c |].
  destruct IH as (body & e & E); [discriminate |].
  exists (String c body), e. simpl. now rewrite <- E.
Qed.

Lemma star_space_stops (s rest : string) (A : Type) (k : string -> option A) :
  s <> "" -> allChars nameChar s = true ->
  Regex.star Regex.space (s ++ rest) k = k (s ++ rest).
Proof.
  destruct s as [|c s]; [congruence |]. intros _. cbn [allChars].
  intros E. apply andb_prop in E as [Hc _]. unfold nameChar in Hc.
  apply andb_prop in Hc as [Hc _]. apply negb_true_iff in Hc.
  cbn [String.append Regex.star]. unfold Regex.space. now rewrite Hc.
Qed.

(** The list [join ", " names] of plain names: made of code units that are
    no closing brace and no semicolon, with a name's code unit at both
    ends. *)
Lemma join_plain (names : list string) :
  names <> [] -> Forall (fun n => plainName n = true) names ->
  join ", " names <> ""
  /\ allChars (fun c => Regex.noneOf "};" c) (join ", " names) = true
  /\ (exists first rest, join ", " names = String first rest /\ nameChar first = true)
  /\ (exists body c, join ", " names = body ++ String c "" /\ nameChar c = true).
Proof.
  assert (P : forall n, plainName n = true ->
            n <> "" /\ allChars (fun c => Regex.noneOf "};" c) n = true
            /\ (exists first rest, n = String first rest /\ nameChar first = true)
            /\ (exists body c, n = body ++ String c "" /\ nameChar c = true)).
  { intros n H. unfold plainName in H. apply andb_prop in H as [Hne Hall].
    apply negb_true_iff, String.eqb_neq in Hne. split; [exact Hne |]. split.
    - apply (allChars_impl nameChar); [| exact Hall].
      intros c Hc. unfold nameChar in Hc. apply andb_prop in Hc as [_ Hc].
      unfold Regex.noneOf, Regex.oneOf in *. cbn in *.
      destruct (Ascii.eqb c "{"), (Ascii.eqb c "}"), (Ascii.eqb c ","), (Ascii.eqb c ";");
        simpl in *; congruence.
    - split.
      + destruct n as [|f r]; [congruence |]. exists f, r. split; [reflexivity |].
        cbn [allChars] in Hall. now apply andb_prop in Hall as [Hf _].
      + destruct (last_char n Hne) as (body & c & E). exists body, c. split; [exact E |].
        rewrite E, allChars_app in Hall. apply andb_prop in Hall as [_ Hc].
        cbn [allChars] in Hc. now rewrite Bool.andb_true_r in Hc. }
  induction names as [|n names IH]; [congruence |]. intros _ Hall.
  inversion Hall as [|? ? Hn Hrest]; subst.
  destruct (P n Hn) as (N1 & N2 & (f & r & N3 & N3') & (b & c & N4 & N4')).
  destruct names as [|m names]; [cbn [join]; repeat split; eauto |].
  destruct (IH ltac:(discriminate) Hrest) as (J1 & J2 & _ & (b' & c' & J4 & J4')).
  change (join ", " (n :: m :: names)) with (n ++ ", " ++ join ", " (m :: names)).
  split; [destruct n; [congruence | discriminate] |]. split.
  - rewrite !allChars_app, N2, J2. reflexivity.
  - split.
    + exists f, (r ++ ", " ++ join ", " (m :: names)). split; [now rewrite N3 | exact N3'].
    + exists (n ++ ", " ++ b'), c'. split; [| exact J4'].
      rewrite J4, !app_assoc. reflexivity.
Qed.

Lemma nameChar_facts (c : ascii) :
  nameChar c = true ->
  Regex.nonSpace c = true /\ c <> "}"%char /\ c <> ","%char.
Proof.
  unfold nameChar, Regex.nonSpace, Regex.noneOf, Regex.oneOf. cbn.
  intros H. apply andb_prop in H as [H1 H2]. split; [exact H1 |].
  split; intros ->; discriminate.
Qed.

(** On a plain import line whose list is made of plain names the
    expression matches; its groups are the opening, the last code unit of
    the list with what closes the list, and the closing of the statement. *)
Lemma exec_generated_line (names : list string) (path : string) :
  names <> [] -> Forall (fun n => plainName n = true) names ->
  allChars Regex.dot path = true ->
  exists c,
    c <> ","%char
    /\ Regex.exec regexImportReplacer
         ("import {" ++ join ", " names ++ "} from '" ++ path ++ "';")
       = Some (["import {"; String c "} from '"; "';"], "").
Proof.
  intros Hne Hall Hp.
  destruct (join_plain names Hne Hall) as (J1 & J2 & (f & r & J3 & J3') & (b & c & J4 & J4')).
  destruct (nameChar_facts c J4') as (C1 & C2 & C3).
  exists c. split; [exact C3 |].
  assert (E : "import {" ++ join ", " names ++ "} from '" ++ path ++ "';"
              = "import {" ++ b ++ String c ("} from '" ++ path ++ "';")).
  { rewrite J4, app_assoc. reflexivity. }
  rewrite E. apply exec_plain_line; try assumption.
  - rewrite J4, allChars_app in J2. apply andb_prop in J2 as [J2 _].
    apply (allChars_impl (fun c => Regex.noneOf "};" c)); [| exact J2].
    intros d. unfold Regex.noneOf, Regex.oneOf. cbn.
    destruct (Ascii.eqb d "}"); simpl; congruence.
  - intros k'.
    assert (E2 : b ++ String c ("} from '" ++ path ++ "';")
                 = String f r ++ "} from '" ++ path ++ "';").
    { rewrite <- J3, J4, app_assoc. reflexivity. }
    rewrite E2. destruct (nameChar_facts f J3') as (F1 & _).
    cbn [String.append Regex.star]. unfold Regex.space.
    unfold Regex.nonSpace in F1. apply negb_true_iff in F1. now rewrite F1.
Qed.

Lemma replaceImport_generated_line (names : list string) (path fields from : string) :
  names <> [] -> Forall (fun n => plainName n = true) names ->
  allChars Regex.dot path = true ->
  replaceImport ("import {" ++ join ", " names ++ "} from '" ++ path ++ "';") fields from
  = "import {" ++ fields ++ "} from '" ++ from ++ "';".
Proof.
  intros Hne Hall Hp. unfold replaceImport.
  destruct (exec_generated_line names path Hne Hall Hp) as (c & Hc & ->).
  cbn [nth startsWith]. rewrite Bool.andb_true_r.
  assert (E : Ascii.eqb ","%char c = false) by (apply Ascii.eqb_neq; congruence).
  rewrite E. cbn [negb].
  change (substringFrom (String c "} from '") 1) with "} from '".
  rewrite app_empty_r. reflexivity.
Qed.

Lemma starts_with_import (text : string) :
  Regex.test regexStartsWithImport ("import {" ++ text) = true.
Proof. reflexivity. Qed.

Lemma repeatNat_dots (k : nat) : allChars Regex.dot (repeatNat "../" k) = true.
Proof. induction k as [|k IH]; [reflexivity |]. cbn [repeatNat]. now rewrite allChars_app, IH. Qed.

Section Own.
Variable transformSync : string -> jsError + list statement.
Variable options : pluginOptions.

Lemma newImportLine_on_generated (names : list string) (path fields from rest : string) :
  names <> [] -> Forall (fun n => plainName n = true) names ->
  allChars Regex.dot path = true -> includes path ";" = false ->
  newImportLine options
    ("import {" ++ join ", " names ++ "} from '" ++ path ++ "';" ++ LF ++ rest) fields from
  = "import {" ++ fields ++ "} from '" ++ from ++ "';".
Proof.
  intros Hne Hall Hp Hsemi. unfold newImportLine.
  set (stmt := "import {" ++ join ", " names ++ "} from '" ++ path ++ "'").
  assert (E : "import {" ++ join ", " names ++ "} from '" ++ path ++ "';" ++ LF ++ rest
              = stmt ++ ";" ++ LF ++ rest).
  { unfold stmt. rewrite !app_assoc. reflexivity. }
  rewrite E.
  assert (S : getFirstImportStatement (stmt ++ ";" ++ LF ++ rest) = stmt ++ ";").
  { apply statement_of_line; [rewrite <- E; apply starts_with_import |].
    destruct (join_plain names Hne Hall) as (_ & J2 & _).
    unfold stmt. rewrite !includes_char_app, Hsemi.
    rewrite (allChars_absent (fun c => Regex.noneOf "};" c) ";" _ eq_refl J2). reflexivity. }
  rewrite S.
  destruct (negb (stmt ++ ";" =? "") && containsOurImportStatement options (stmt ++ ";")
            && Regex.test regexImportReplacer (stmt ++ ";")); [| reflexivity].
  assert (E2 : stmt ++ ";" = "import {" ++ join ", " names ++ "} from '" ++ path ++ "';").
  { unfold stmt. rewrite !app_assoc. reflexivity. }
  rewrite E2. now apply replaceImport_generated_line.
Qed.

(** X20.  A file that consists of the import line [modifyFile] generates
    for it - the required names, not empty and plain, and the climbing path
    to the output file - followed by text on which purge has nothing to
    do, is rebuilt to exactly its own text and is not written. *)
Theorem modifyFile_keeps_its_own_import
    (fuel : nat) (file : string) (index : nat) (array : list string)
    (acc : accumulator) (w : world) (name purgedCode : string) :
  isFileOfType file (fileExtensionsJs options) = true ->
  outputName options = Some name ->
  2 <= List.length (split "/" file) ->
  includes name ";" = false -> allChars Regex.dot name = true ->
  purgeStep options purgedCode = None ->
  let fields := match transformSync purgedCode with
                | inr body => exportedFieldsOfBody body
                | inl _ => []
                end in
  let required := requiredFields (exportedFields acc) fields in
  let from := "./" ++ repeatNat "../" (List.length (split "/" file) - 2) ++ name in
  let code := "import {" ++ join ", " required ++ "} from '" ++ from ++ "';"
              ++ LF ++ purgedCode in
  required <> [] -> Forall (fun n => plainName n = true) required ->
  readFileSync (root w) file = inr code ->
  newImportLine options code (join ", " required) from ++ LF ++ purgedCode = code
  /\ exists w',
       modifyFile transformSync options (S (S fuel)) file index array (acc, w)
       = Done (acc, w')
       /\ written w' = written w.
Proof.
  intros Hjs Hout Hdeep Hsemi Hdots Hfixed fields required from code Hne Hall Hread.
  assert (Hfrom : allChars Regex.dot from = true /\ includes from ";" = false).
  { unfold from. split.
    - rewrite !allChars_app, repeatNat_dots, Hdots. reflexivity.
    - rewrite !includes_char_app, repeatNat_clean, Hsemi. reflexivity. }
  destruct Hfrom as [Fd Fs].
  assert (Hline : newImportLine options code (join ", " required) from ++ LF ++ purgedCode
                  = code).
  { unfold code. rewrite (newImportLine_on_generated required from _ from purgedCode Hne Hall Fd Fs).
    rewrite !app_assoc. reflexivity. }
  split; [exact Hline |].
  assert (Hpurge : purgeImportedFieldsCode options (S (S fuel)) code = Some purgedCode).
  { unfold code, from. apply purge_undoes_injection; try assumption.
    destruct (join_plain required Hne Hall) as (_ & J2 & _).
    exact (allChars_absent (fun c => Regex.noneOf "};" c) ";" _ eq_refl J2). }
  destruct (modifyFile_runs transformSync options (S (S fuel)) file index array acc w
              name code purgedCode Hjs Hout Hread Hpurge Hdeep) as (w' & Hrun & Hw).
  exists w'. split; [exact Hrun |].
  fold fields required from in Hw. rewrite Hline, String.eqb_refl in Hw. exact Hw.
Qed.
End Own.

(** ** The import statement of a rewritten file *)

Lemma star_sound {A : Type} (p : ascii -> bool) (s : string) (k : string -> option A)
    (res : A) :
  Regex.star p s k = Some res ->
  exists x s', s = x ++ s' /\ allChars p x = true /\ k s' = Some res.
Proof.
  induction s as [|c s IH]; cbn [Regex.star]; intros H.
  - now exists "", "".
  - destruct (p c) eqn:Hc; [| now exists "", (String c s)].
    destruct (Regex.star p s k) as [r|] eqn:E.
    + destruct (IH H) as (x & s' & -> & Hall & Hk) .
      exists (String c x), s'. cbn [allChars String.append]. now rewrite Hc, Hall.
    + now exists "", (String c s).
Qed.

(** The matcher answers only with a match: what it hands to its
    continuation is the text left after a front part that the expression
    can take, with the captures of that part added. *)
Lemma run_sound {A : Type} (r : Regex.re) :
  forall (s : string) (caps : list string) (k : string -> list string -> option A) (res : A),
    Regex.run r s caps k = Some res ->
    exists x s' new,
      s = x ++ s' /\ matches r x new /\ k s' (caps ++ new)%list = Some res.
Proof.
  induction r as [|p|p|r1 IH1 r2 IH2|r IH]; intros s caps k res; cbn [Regex.run matches].
  - intros H. exists "", s, []. rewrite List.app_nil_r. auto.
  - destruct s as [|c s]; [discriminate |]. destruct (p c) eqn:Hc; [| discriminate].
    intros H. exists (String c ""), s, []. rewrite List.app_nil_r.
    split; [reflexivity |]. split; [now exists c | exact H].
  - intros H. destruct (star_sound _ _ _ _ H) as (x & s' & -> & Hall & Hk).
    exists x, s', []. rewrite List.app_nil_r. auto.
  - intros H. destruct (IH1 _ _ _ _ H) as (x1 & mid & c1 & -> & M1 & H2).
    destruct (IH2 _ _ _ _ H2) as (x2 & s' & c2 & -> & M2 & Hk).
    exists (x1 ++ x2), s', (c1 ++ c2)%list. rewrite List.app_assoc, app_assoc.
    split; [reflexivity |]. split; [| exact Hk]. now exists x1, x2, c1, c2.
  - intros H. destruct (IH _ _ _ _ H) as (x & s' & inner & -> & M & Hk).
    rewrite take_front in Hk.
    exists x, s', (inner ++ [x])%list. rewrite List.app_assoc.
    split; [reflexivity |]. split; [| exact Hk]. now exists inner.
Qed.

Lemma exec_sound (r : Regex.re) (s rest : string) (groups : list string) :
  Regex.exec r s = Some (groups, rest) -> exists x, s = x ++ rest /\ matches r x groups.
Proof.
  unfold Regex.exec. intros H.
  destruct (run_sound r _ _ _ _ H) as (x & s' & new & -> & M & E).
  cbn [app] in E. injection E as <- <-. now exists x.
Qed.

(** A literal code unit under the flag [i]: a letter of the two words of
    the statement matches itself in either casing, a punctuation mark only
    itself. *)
Lemma chrI_exact (l c : ascii) :
  Regex.oneOf "importfrom{};" l = true ->
  Ascii.eqb (Regex.canonicalize c) (Regex.canonicalize l) = true ->
  lowerChar c = l /\ (Regex.oneOf "{};" l = true -> c = l).
Proof.
  assert (All : forall a : ascii, In a (map ascii_of_nat (List.seq 0 256))).
  { intros a. apply in_map_iff. exists (nat_of_ascii a).
    split; [apply ascii_nat_embedding |]. apply in_seq. pose proof (nat_ascii_bounded a). lia. }
  assert (T : forallb (fun l =>
                forallb (fun c =>
                  implb (Regex.oneOf "importfrom{};" l
                         && Ascii.eqb (Regex.canonicalize c) (Regex.canonicalize l))
                        (Ascii.eqb (lowerChar c) l
                         && implb (Regex.oneOf "{};" l) (Ascii.eqb c l)))
                  (map ascii_of_nat (List.seq 0 256)))
                (map ascii_of_nat (List.seq 0 256)) = true).
  { vm_compute. reflexivity. }
  intros Hl Hc. rewrite forallb_forall in T. specialize (T l (All l)).
  rewrite forallb_forall in T. specialize (T c (All c)). rewrite Hl, Hc in T.
  cbn [andb implb] in T. apply andb_prop in T as [T1 T2].
  apply Ascii.eqb_eq in T1. split; [exact T1 |].
  intros Hp. rewrite Hp in T2. now apply Ascii.eqb_eq in T2.
Qed.

Lemma matches_litI (l x : string) (caps : list string) :
  allChars (Regex.oneOf "importfrom{};") l = true ->
  matches (Regex.litI l) x caps -> caps = [] /\ toLowerCase x = l.
Proof.
  revert x caps; induction l as [|c l IH]; intros x caps Hl; cbn [Regex.litI matches].
  - intros [-> ->]. auto.
  - cbn [allChars] in Hl. apply andb_prop in Hl as [Hc Hl].
    intros (x1 & x2 & c1 & c2 & -> & (d & -> & Hd & ->) & M & ->).
    destruct (IH _ _ Hl M) as [-> E]. split; [reflexivity |].
    cbn [String.append toLowerCase]. rewrite E.
    now rewrite (proj1 (chrI_exact c d Hc Hd)).
Qed.

Lemma matches_mark (l : ascii) (x : string) (caps : list string) :
  Regex.oneOf "{};" l = true ->
  matches (Regex.chrI l) x caps -> caps = [] /\ x = String l "".
Proof.
  intros Hl. cbn [Regex.chrI matches]. intros (d & -> & Hd & ->). split; [reflexivity |].
  assert (H : Regex.oneOf "importfrom{};" l = true).
  { revert Hl. unfold Regex.oneOf. cbn [list_ascii_of_string existsb].
    intros H. repeat (apply orb_prop in H as [H|H]; [rewrite H, ?orb_true_r; reflexivity |]).
    discriminate. }
  now rewrite (proj2 (chrI_exact l d H Hd) Hl).
Qed.

Lemma substringFrom_one (c : ascii) (s : string) : substringFrom (String c s) 1 = s.
Proof.
  rewrite substringFrom_drop. unfold clamp, len. cbn [String.length].
  replace (Z.to_nat (Z.min (Z.max 1 0) (Z.of_nat (S (String.length s))))) with 1 by lia.
  reflexivity.
Qed.

(** What [regexImportReplacer] takes, piece by piece. *)
Lemma replacer_matches (x : string) (groups : list string) :
  matches regexImportReplacer x groups ->
  exists ws0 imp ws1 ws2 gap c ws3 ws4 frm ws5 q1 path q2 ws6 tail,
    allChars Regex.space (ws0 ++ ws1 ++ ws2 ++ ws3 ++ ws4 ++ ws5 ++ ws6) = true
    /\ toLowerCase imp = "import" /\ toLowerCase frm = "from"
    /\ (Regex.nonSpace c || Ascii.eqb c ","%char) = true
    /\ allChars (Regex.noneOf "}") gap = true
    /\ allChars Regex.dot path = true
    /\ isQuote q1 = true /\ isQuote q2 = true
    /\ groups = [ws0 ++ imp ++ ws1 ++ "{" ++ ws2;
                 String c (ws3 ++ "}" ++ ws4 ++ frm ++ ws5 ++ String q1 "");
                 String q2 (ws6 ++ ";" ++ tail)]
    /\ x = (ws0 ++ imp ++ ws1 ++ "{" ++ ws2) ++ gap
           ++ String c (ws3 ++ "}" ++ ws4 ++ frm ++ ws5 ++ String q1 "") ++ path
           ++ String q2 (ws6 ++ ";" ++ tail).
Proof.
  unfold regexImportReplacer. cbn [Regex.seq matches].
  intros (g1 & x1 & k1 & m1 & -> & (i1 & G1 & ->) & R1 & ->).
  destruct G1 as (ws0 & y1 & a1 & b1 & -> & (W0 & ->) & G1 & ->).
  destruct G1 as (imp & y2 & a2 & b2 & -> & Himp & G1 & ->).
  apply matches_litI in Himp as [-> Himp]; [| reflexivity].
  destruct G1 as (ws1 & y3 & a3 & b3 & -> & (W1 & ->) & G1 & ->).
  destruct G1 as (ob & ws2 & a4 & b4 & -> & Hob & (W2 & ->) & ->).
  apply matches_mark in Hob as [-> ->]; [| reflexivity].
  destruct R1 as (gap & x2 & k2 & m2 & -> & (Hgap & ->) & R2 & ->).
  destruct R2 as (g2 & x3 & k3 & m3 & -> & (i2 & G2 & ->) & R3 & ->).
  destruct G2 as (c0 & y4 & a5 & b5 & -> & (c & -> & Hc & ->) & G2 & ->).
  destruct G2 as (ws3 & y5 & a6 & b6 & -> & (W3 & ->) & G2 & ->).
  destruct G2 as (cb & y6 & a7 & b7 & -> & Hcb & G2 & ->).
  apply matches_mark in Hcb as [-> ->]; [| reflexivity].
  destruct G2 as (ws4 & y7 & a8 & b8 & -> & (W4 & ->) & G2 & ->).
  destruct G2 as (frm & y8 & a9 & b9 & -> & Hfrm & G2 & ->).
  apply matches_litI in Hfrm as [-> Hfrm]; [| reflexivity].
  destruct G2 as (ws5 & y9 & a10 & b10 & -> & (W5 & ->) & (q1 & -> & Hq1 & ->) & ->).
  destruct R3 as (path & x4 & k4 & m4 & -> & (Hpath & ->) & (i3 & G3 & ->) & ->).
  destruct G3 as (q0 & y10 & a11 & b11 & -> & (q2 & -> & Hq2 & ->) & G3 & ->).
  destruct G3 as (ws6 & y11 & a12 & b12 & -> & (W6 & ->) & G3 & ->).
  destruct G3 as (sc & tail & a13 & b13 & -> & Hsc & (_ & ->) & ->).
  apply matches_mark in Hsc as [-> ->]; [| reflexivity].
  exists ws0, imp, ws1, ws2, gap, c, ws3, ws4, frm, ws5, q1, path, q2, ws6, tail.
  rewrite !allChars_app, W0, W1, W2, W3, W4, W5, W6.
  repeat (split; [reflexivity || assumption |]).
  cbn [app String.append]. rewrite !app_assoc. reflexivity.
Qed.

(** The replacement on a statement the expression matches. *)
Lemma replaceImport_spliced (statement fields from : string) :
  Regex.test regexImportReplacer statement = true ->
  splicedLine fields from (replaceImport statement fields from).
Proof.
  unfold Regex.test, replaceImport.
  destruct (Regex.exec regexImportReplacer statement) as [[groups rest]|] eqn:E;
    [intros _ | discriminate].
  apply exec_sound in E as (x & -> & M).
  apply replacer_matches in M
    as (ws0 & imp & ws1 & ws2 & gap & c & ws3 & ws4 & frm & ws5 & q1 & path & q2 & ws6 & tail
        & W & Himp & Hfrm & Hc & Hgap & Hpath & Hq1 & Hq2 & -> & ->).
  cbn [nth].
  exists ws0, imp, ws1, ws2, (if Ascii.eqb c ","%char then "," else ""), ws3, ws4, frm, ws5,
         q1, q2, ws6, (tail ++ rest).
  split; [exact W |]. split; [exact Himp |]. split; [exact Hfrm |].
  split; [destruct (Ascii.eqb c ","%char); auto |].
  split; [exact Hq1 |]. split; [exact Hq2 |].
  cbn [startsWith]. rewrite Bool.andb_true_r.
  destruct (Ascii.eqb_spec ","%char c) as [<-|Hne].
  - cbn [negb]. rewrite Ascii.eqb_refl. cbn [String.append]. rewrite !app_assoc.
    cbn [String.append]. rewrite !app_assoc. reflexivity.
  - cbn [negb]. rewrite substringFrom_one.
    destruct (Ascii.eqb_spec c ","%char) as [->|_]; [congruence |].
    cbn [String.append]. rewrite !app_assoc. cbn [String.append]. rewrite !app_assoc.
    reflexivity.
Qed.

(** The import line of [modifyFile]: the plain statement, or the old
    statement with the new list and the new path in it. *)
Lemma newImportLine_shape (options : pluginOptions) (code fields from : string) :
  (newImportLine options code fields from = "import {" ++ fields ++ "} from '" ++ from ++ "';"
   \/ splicedLine fields from (newImportLine options code fields from))
  /\ (containsOurImportStatement options (getFirstImportStatement code) = false ->
      newImportLine options code fields from
      = "import {" ++ fields ++ "} from '" ++ from ++ "';").
Proof.
  unfold newImportLine. split.
  - destruct (negb (getFirstImportStatement code =? "")
              && containsOurImportStatement options (getFirstImportStatement code)
              && Regex.test regexImportReplacer (getFirstImportStatement code)) eqn:E;
      [right | now left].
    apply andb_prop in E as [_ E]. now apply replaceImport_spliced.
  - intros H. rewrite H. now rewrite Bool.andb_false_r.
Qed.

Section Injected.

Variable transformSync : string -> jsError + list statement.
Variable options : pluginOptions.

(** C2, as amended.  Take a js-like file under a "modify" root whose
    collected path is the segment [.], then [d] directories, then the file
    name - the form of every path collected from a root that is configured
    with [./] in front - with an output name configured, its text readable
    and purged.  The number of [../] steps is [d], the number of segments
    of the path minus two, so [./p.js] is at depth 0 and [./pages/p.js] at
    depth 1.  [modifyFile] returns, and the statement it puts in front of
    the purged text - and writes, when the first code line changes - names
    exactly the path [./], [d] times [../], and the output name between its
    quotes: it is the plain statement, always so when the text did not start
    with a statement of ours, or else the old statement with the new list
    and this path spliced in. *)
Theorem import_path_climbs_segments_minus_two
    (fuel : nat) (file : string) (index : nat) (array : list string)
    (acc : accumulator) (w : world) (name code purgedCode base : string)
    (dirs : list string)
    (Hjs : isFileOfType file (fileExtensionsJs options) = true)
    (Hout : outputName options = Some name)
    (Hread : readFileSync (root w) file = inr code)
    (Hpurge : purgeImportedFieldsCode options fuel code = Some purgedCode)
    (Hpath : split "/" file = ("." :: dirs ++ [base])%list) :
  let fields := match transformSync purgedCode with
                | inr body => exportedFieldsOfBody body
                | inl _ => []
                end in
  let importLineFields := join ", " (requiredFields (exportedFields acc) fields) in
  let from := "./" ++ repeatNat "../" (List.length dirs) ++ name in
  let line := newImportLine options code importLineFields from in
  List.length dirs = List.length (split "/" file) - 2
  /\ importLineFrom file name = Done from
  /\ (exists w',
        modifyFile transformSync options fuel file index array (acc, w) = Done (acc, w')
        /\ written w'
           = if String.eqb (getFirstCodeLine code)
                           (getFirstCodeLine (line ++ LF ++ purgedCode))
             then written w
             else (written w ++ [(file, (line ++ LF ++ purgedCode)%string)])%list)
  /\ (line = "import {" ++ importLineFields ++ "} from '" ++ from ++ "';"
      \/ splicedLine importLineFields from line)
  /\ (containsOurImportStatement options (getFirstImportStatement code) = false ->
      line = "import {" ++ importLineFields ++ "} from '" ++ from ++ "';").
Proof.
  intros fields importLineFields from line.
  assert (L : List.length dirs = List.length (split "/" file) - 2).
  { rewrite Hpath. cbn [List.length]. rewrite List.length_app. cbn [List.length]. lia. }
  assert (Hdeep : 2 <= List.length (split "/" file)).
  { rewrite Hpath. cbn [List.length]. rewrite List.length_app. cbn [List.length]. lia. }
  split; [exact L |]. split; [| split; [| split]].
  - unfold from. rewrite L. now apply importLineFrom_two_segments.
  - destruct (modifyFile_runs transformSync options fuel file index array acc w
                name code purgedCode Hjs Hout Hread Hpurge Hdeep) as (w' & Hrun & Hw).
    rewrite <- L in Hw. exists w'. split; [exact Hrun | exact Hw].
  - apply newImportLine_shape.
  - apply newImportLine_shape.
Qed.


End Injected.

Lemma import_path_climbs_witness :
  importLineFrom "./pages/p.js" "imports.js" = Done "./../imports.js"
  /\ exists w',
       modifyFile Sample.transformSync Site.options 8 "./pages/p.js" 0 ["./pages/p.js"]
         (Sample.collected, Site.initial) = Done (Sample.collected, w')
       /\ written w'
          = [("./pages/p.js", "import {A, B} from './../imports.js';" ++ LF ++ "foo();")].
Proof.
  pose proof (import_path_climbs_segments_minus_two
                Sample.transformSync Site.options 8 "./pages/p.js" 0 ["./pages/p.js"]
                Sample.collected Site.initial "imports.js" "foo();" "foo();" "p.js"
                ["pages"] eq_refl eq_refl eq_refl eq_refl eq_refl) as (_ & Hfrom & Hrun & _).
  split; [exact Hfrom | exact Hrun].
Defined.

(** C2 as the specification words it fails.  The path [./pages/p.js] is
    its own normal form and has three segments, one less is two; yet the
    run of the plugin over [./pages] writes a statement that climbs one
    level, which is where the output file is.  Nor does the example of the
    specification hold: the path [pages/p.js], collected from a root
    configured without [./], gets no [../] at all. *)
Lemma import_path_segments_minus_one_fails :
  purgePath "./pages/p.js" = "./pages/p.js"
  /\ List.length (split "/" "./pages/p.js") - 1 = 2
  /\ (exists w',
        onPreInit Sample.transformSync Site.options 8 Site.initial = Done w'
        /\ written w'
           = [("./imports.js",
               "import {A} from './src/a.js';" ++ LF ++ LF ++ "export {A};" ++ LF);
              ("./pages/p.js", "import {A} from './../imports.js';" ++ LF ++ "foo();")])
  /\ ~ (forall file name,
          startsWith file "./" = true ->
          importLineFrom file name
          = Done ("./" ++ repeatNat "../" (List.length (split "/" file) - 1) ++ name))
  /\ importLineFrom "pages/p.js" "imports.js" = Done "./imports.js".
Proof.
  split; [reflexivity |]. split; [reflexivity |].
  split; [eexists; split; vm_compute; reflexivity |].
  split; [| reflexivity].
  intros H. specialize (H "./pages/p.js" "imports.js" eq_refl). vm_compute in H. discriminate.
Qed.



(** ** The class of a file *)

Lemma toLowerCase_drop (n : nat) (s : string) :
  toLowerCase (drop n s) = drop n (toLowerCase s).
Proof.
  revert s; induction n as [|n IH]; intros s; [reflexivity |].
  destruct s as [|c s]; [reflexivity |]. cbn [drop toLowerCase]. apply IH.
Qed.

Lemma endsWith_lowercased (file suffix : string) :
  endsWith (toLowerCase file) suffix = true
  <-> exists stem tail, file = stem ++ tail /\ toLowerCase tail = suffix.
Proof.
  split.
  - intros H. apply endsWith_inv in H as [x Hx].
    exists (take (String.length x) file), (drop (String.length x) file).
    split; [now rewrite take_drop |].
    now rewrite toLowerCase_drop, Hx, drop_app.
  - intros (stem & tail & -> & <-). rewrite toLowerCase_app. apply endsWith_app.
Qed.

Lemma withDot_lowercase (type : string) :
  toLowerCase type = type -> toLowerCase (withDot type) = withDot type.
Proof.
  intros H. unfold withDot. destruct (startsWith type "."); [exact H |].
  cbn [String.append toLowerCase]. now rewrite H.
Qed.

Lemma isFileOfType_hasExtension (file : string) (types : list string) :
  Forall (fun type => toLowerCase type = type) types ->
  isFileOfType file types = true <-> hasExtension file types.
Proof.
  intros Hlow. rewrite Forall_forall in Hlow.
  unfold isFileOfType, hasExtension, endsWithIgnoringCase. rewrite existsb_exists.
  split; intros (type & Hin & H); exists type; (split; [exact Hin |]).
  - apply endsWith_lowercased in H as (stem & tail & -> & H).
    exists stem, tail. split; [reflexivity |].
    now rewrite (withDot_lowercase type (Hlow _ Hin)).
  - apply endsWith_lowercased. destruct H as (stem & tail & -> & H).
    exists stem, tail. split; [reflexivity |].
    now rewrite (withDot_lowercase type (Hlow _ Hin)) in H.
Qed.

Section FileClass.

Variable transformSync : string -> jsError + list statement.
Variable options : pluginOptions.

(** C8, as amended.  With an output name configured and the extensions
    configured in lower case, the branch [importFile] takes is determined by
    a suffix match that ignores letter casing, an extension without a
    leading dot being given one: a file that has a js-like extension is
    handled as js-like, whatever the casing of its path; one that has none
    but has a plain-include extension is handled as plain-include; one that
    has neither goes to the custom handler.  The test of the code and the
    suffix match of the specification agree on every path. *)
Theorem file_class_by_lowercased_suffix (name : string)
    (Hout : outputName options = Some name)
    (HlowerJs : Forall (fun type => toLowerCase type = type) (fileExtensionsJs options))
    (HlowerOther : Forall (fun type => toLowerCase type = type)
                     (fileExtensionsOther options)) :
  (forall file,
     (isFileOfType file (fileExtensionsJs options) = true
      <-> hasExtension file (fileExtensionsJs options))
     /\ (isFileOfType file (fileExtensionsOther options) = true
         <-> hasExtension file (fileExtensionsOther options)))
  /\ forall fuel file index array st,
       (hasExtension file (fileExtensionsJs options) ->
        importFile transformSync options fuel file index array st
        = importJsFile transformSync options fuel file st)
       /\ (~ hasExtension file (fileExtensionsJs options) ->
           hasExtension file (fileExtensionsOther options) ->
           importFile transformSync options fuel file index array st
           = importOtherFile options file st)
       /\ (~ hasExtension file (fileExtensionsJs options) ->
           ~ hasExtension file (fileExtensionsOther options) ->
           importFile transformSync options fuel file index array st
           = importCustomFile options file index array st).
Proof.
  assert (J : forall file, isFileOfType file (fileExtensionsJs options) = true
                           <-> hasExtension file (fileExtensionsJs options)).
  { intros file. now apply isFileOfType_hasExtension. }
  assert (O : forall file, isFileOfType file (fileExtensionsOther options) = true
                           <-> hasExtension file (fileExtensionsOther options)).
  { intros file. now apply isFileOfType_hasExtension. }
  split; [intros file; split; [apply J | apply O] |].
  intros fuel file index array st. unfold importFile. rewrite Hout. cbn [isSome andb].
  specialize (J file). specialize (O file).
  destruct (isFileOfType file (fileExtensionsJs options)) eqn:EJ;
    destruct (isFileOfType file (fileExtensionsOther options)) eqn:EO;
    repeat split; intros; try reflexivity;
    try (exfalso; tauto);
    try (assert (false = true) by tauto; discriminate).
Qed.

End FileClass.

Lemma file_class_witness :
  importFile Sample.transformSync Sample.options 8 "./src/App.JSX" 0 ["./src/App.JSX"]
    (mkAcc "" [], Sample.start)
  = importJsFile Sample.transformSync Sample.options 8 "./src/App.JSX"
      (mkAcc "" [], Sample.start).
Proof.
  apply (proj1 (proj2 (file_class_by_lowercased_suffix Sample.transformSync Sample.options
                         "imports.js" eq_refl
                         (Forall_cons _ eq_refl (Forall_cons _ eq_refl (Forall_nil _)))
                         (Forall_cons _ eq_refl (Forall_cons _ eq_refl
                            (Forall_cons _ eq_refl (Forall_cons _ eq_refl (Forall_nil _))))))
                        8 "./src/App.JSX" 0 ["./src/App.JSX"] (mkAcc "" [], Sample.start))).
  exists "jsx". split; [right; left; reflexivity |].
  exists "./src/App", ".JSX". split; reflexivity.
Defined.

(** ** The writers, called again *)

Lemma oldContent_after_write (file content : string) (w w' : world) :
  write file content w = Done w' -> oldContentOr w' file None = content.
Proof.
  intros H. unfold oldContentOr. now rewrite (write_then_read _ _ _ _ H).
Qed.

(** X21.  Each writer settles after one call: when a call without old
    content returns, the same call on the world it leaves writes nothing
    and leaves that world as it is. *)
Theorem writers_settle_after_one_call (file newContent : string) (w w' : world) :
  (setFileContentIfDifferent file newContent None w = Done w' ->
   setFileContentIfDifferent file newContent None w' = Done w')
  /\ (setFileContentIfFirstCodeLineIsDifferent file newContent None w = Done w' ->
      setFileContentIfFirstCodeLineIsDifferent file newContent None w' = Done w').
Proof.
  split.
  - unfold setFileContentIfDifferent.
    destruct (String.eqb (trim (oldContentOr w file None)) (trim newContent)) eqn:E;
      cbn [negb]; intros H.
    + injection H as <-. now rewrite E.
    + now rewrite (oldContent_after_write _ _ _ _ H), String.eqb_refl.
  - unfold setFileContentIfFirstCodeLineIsDifferent.
    destruct (String.eqb (getFirstCodeLine (oldContentOr w file None))
                         (getFirstCodeLine newContent)) eqn:E;
      cbn [negb]; intros H.
    + injection H as <-. now rewrite E.
    + now rewrite (oldContent_after_write _ _ _ _ H), String.eqb_refl.
Qed.

(** ** Summary of the purge rules and of the splice *)

(** X8.  [containsOurImportStatement] holds of a text exactly when the text
    contains [./<name>';] for the cleaned current output name or one of the
    cleaned previous output names. *)
Theorem our_statement_mentions_an_output_name (options : pluginOptions) (code : string) :
  containsOurImportStatement options code = true
  <-> exists name,
        (outputName options = Some name \/ In name (previousOutputNames options))
        /\ includes code ("./" ++ name ++ "';") = true.
Proof. apply containsOur_iff. Qed.

(** X10.  When the text starts, after white space, with an import statement
    of ours, one turn of the purge loop removes the whole line of that
    statement, with whatever follows the semicolon on that line; when the
    line is the last one, nothing is left. *)
Theorem generated_import_line_is_removed
    (options : pluginOptions) (code stmt lineRest rest : string) :
  Regex.test regexStartsWithImport (trimStart code) = true ->
  includes stmt ";" = false ->
  containsOurImportStatement options (stmt ++ ";") = true ->
  includes lineRest LF = false ->
  (trimStart code = stmt ++ ";" ++ lineRest ++ LF ++ rest ->
   purgeStep options code = Some rest)
  /\ (trimStart code = stmt ++ ";" ++ lineRest -> purgeStep options code = Some "").
Proof.
  intros T Hs Hours Hline. split; intros Htrim.
  - now apply (purgeStep_removes_our_line options code stmt lineRest rest).
  - now apply (purgeStep_removes_our_last_line options code stmt lineRest).
Qed.

(** X11.  What the purge loop returns is the end of the text it was given:
    it only removes from the front. *)
Theorem purge_only_removes_a_prefix
    (options : pluginOptions) (fuel : nat) (code result : string) :
  purgeImportedFieldsCode options fuel code = Some result ->
  exists removed, code = removed ++ result.
Proof. apply purge_suffix. Qed.

(** X13.  Purge undoes the injection of [modifyFile]: the plain import
    line for the output name, at any depth, put with a line end in front of
    a text on which purge has nothing to do, is purged back to that
    text. *)
Theorem purge_undoes_plain_injection
    (options : pluginOptions) (name fields purgedCode : string) (k fuel : nat) :
  outputName options = Some name ->
  includes fields ";" = false ->
  includes name ";" = false ->
  purgeStep options purgedCode = None ->
  purgeImportedFieldsCode options (S (S fuel))
    ("import {" ++ fields ++ "} from '" ++ ("./" ++ repeatNat "../" k ++ name) ++ "';"
       ++ LF ++ purgedCode)
  = Some purgedCode.
Proof. apply purge_undoes_injection. Qed.

(** X19.  On a plain import line - a list of plain names, not empty, and a
    path on one line - [regexImportReplacer] matches, and the replacement
    of [modifyFile] rebuilds the plain line with the new list and the new
    path: the splice keeps nothing of the old list. *)
Theorem splice_rebuilds_the_plain_line
    (names : list string) (path fields from : string) :
  names <> [] -> Forall (fun n => plainName n = true) names ->
  allChars Regex.dot path = true ->
  let line := "import {" ++ join ", " names ++ "} from '" ++ path ++ "';" in
  Regex.test regexImportReplacer line = true
  /\ replaceImport line fields from = "import {" ++ fields ++ "} from '" ++ from ++ "';".
Proof.
  intros Hne Hall Hp line. split.
  - unfold Regex.test, line.
    destruct (exec_generated_line names path Hne Hall Hp) as (c & _ & ->). reflexivity.
  - now apply replaceImport_generated_line.
Qed.

(** ** The further properties at sample inputs *)

Lemma purgePath_clean_witness : purgePath "./src" = "./src".
Proof.
  apply (proj2 (proj2 (proj2 (proj2 (proj2 (purgePath_normalizes "./src")))))); reflexivity.
Defined.

Lemma compareFileOrder_orders_witness :
  (compareFileOrder "./src/components/App.jsx" "./src/style.css" <= 0)%Z.
Proof.
  apply (proj2 (proj2 (compareFileOrder_orders_lowercased_segments
                         "./src/components/App.jsx" "./src/p.js" "./src/style.css")));
    vm_compute; discriminate.
Defined.

Lemma sorted_files_witness :
  sort compareFileOrder ["./src/components/App.jsx"; "./src/p.js"; "./src/style.css"]
  = ["./src/components/App.jsx"; "./src/p.js"; "./src/style.css"].
Proof.
  apply (proj2 (proj2 (proj2 (sorted_files_are_the_collected_files_in_order
           ["./src/components/App.jsx"; "./src/p.js"; "./src/style.css"])))).
  repeat constructor; vm_compute; discriminate.
Defined.

Lemma getAllFiles_lists_witness :
  let files := fst (getAllFiles "./src" Project.initial) in
  snd (getAllFiles "./src" Project.initial) = Project.initial
  /\ List.length files = fileCount Project.src
  /\ NoDup files
  /\ (forall file,
        In file files ->
        startsWith file "./src" = true
        /\ exists content, readFileSync (root Project.initial) file = inr content)
  /\ (forall segs content,
        lookupNode segs Project.src = Some (File content) ->
        In (pathBelow "./src" segs) files).
Proof.
  apply (getAllFiles_lists_each_file_once "./src" Project.initial Project.src).
  - reflexivity.
  - simpl. repeat split; repeat constructor; simpl; intuition discriminate.
Defined.

Lemma missing_root_witness :
  getAllFiles (purgePath "./lib/") Sample.start
  = ([], log (ConsoleWarn "[gatsby-plugin-automatic-importer] Path does not exist:" "./lib")
           Sample.start).
Proof.
  exact (proj1 (missing_root_is_skipped_with_a_warning
                  (fun _ _ _ st => Done st) "./lib/" [] Sample.collected Sample.start eq_refl)).
Defined.

Lemma generated_import_line_witness :
  purgeStep Sample.options Project.remarked = Some "foo();".
Proof.
  apply (proj1 (generated_import_line_is_removed Sample.options Project.remarked
                  "import {A} from './imports.js'" " // generated" "foo();"
                  eq_refl eq_refl eq_refl eq_refl)).
  reflexivity.
Defined.

Lemma purge_only_removes_witness : exists removed, Sample.spaced = removed ++ "foo();".
Proof.
  apply (purge_only_removes_a_prefix Sample.options 8). vm_compute. reflexivity.
Defined.

Lemma purge_returns_witness :
  (exists result,
     purgeImportedFieldsCode Sample.options 64 Sample.spaced = Some result
     /\ purgeStep Sample.options result = None)
  \/ (forall fuel', purgeImportedFieldsCode Sample.options fuel' Sample.spaced = None).
Proof.
  apply (purge_returns_or_never_does Sample.options 64 Sample.spaced).
  apply Nat.ltb_lt. vm_compute. reflexivity.
Defined.

Lemma purge_undoes_witness :
  purgeImportedFieldsCode Sample.options 2 Project.imported = Some "foo();".
Proof.
  apply (purge_undoes_plain_injection Sample.options "imports.js" "A, B" "foo();" 1 0);
    vm_compute; reflexivity.
Defined.

Lemma run_writes_witness :
  exists w',
    onPreInit Sample.transformSync Sample.options 8 Project.initial = Done w'
    /\ exists aggregator modified,
         written w' = (written Project.initial ++ aggregator ++ modified)%list
         /\ (aggregator = []
             \/ exists name content,
                  outputName Sample.options = Some name
                  /\ aggregator = [("./" ++ name, content)])
         /\ Forall (managed Sample.options) modified.
Proof.
  eexists. split; [vm_compute; reflexivity |].
  apply (run_writes_only_what_it_manages Sample.transformSync Sample.options 8 Project.initial).
  vm_compute. reflexivity.
Defined.

Lemma import_phase_witness :
  exists st',
    forEachRoot (importFile Sample.transformSync Sample.options 8) ["./src"]
      (mkAcc "" [], Project.initial) = Done st'
    /\ root (snd st') = Project.layout
    /\ written (snd st') = [].
Proof.
  eexists. split; [vm_compute; reflexivity |].
  destruct (import_phase_changes_no_file Sample.transformSync Sample.options 8 ["./src"]
              (mkAcc "" [], Project.initial) _ eq_refl) as (R & W & _).
  split; [exact R | exact W].
Defined.

Lemma disabled_purge_witness :
  exists w',
    modifyFile Sample.transformSync Project.retired 8 "./src/p.js" 0 []
      (Sample.collected, Sample.start) = Done (Sample.collected, w')
    /\ console w' = []
    /\ written w' = [("./src/p.js", "foo();")].
Proof.
  exact (proj2 (disabled_output_only_purges Sample.transformSync Project.retired 8
                  "./src/p.js" 0 [] Sample.collected Sample.start Sample.spaced "foo();"
                  eq_refl eq_refl eq_refl eq_refl)).
Defined.

Lemma exported_names_witness :
  NoDup (Object_keys (fold_left setTrue ["B"; "__proto__"; "A"; "B"] [])).
Proof.
  apply (exported_names_form_a_set ["B"; "__proto__"; "A"; "B"] []). constructor.
Defined.

Lemma unchanged_first_statement_witness :
  setFileContentIfFirstCodeLineIsDifferent "./src/p.js"
    (" import {A} from './imports.js' ;" ++ LF ++ "bar();")
    (Some ("import {A} from './imports.js';" ++ LF ++ "foo();")) Sample.start
  = Done Sample.start.
Proof.
  apply (unchanged_first_statement_is_not_written "./src/p.js"
           "import {A} from './imports.js'" " import {A} from './imports.js' "
           (LF ++ "foo();") (LF ++ "bar();") Sample.start); reflexivity.
Defined.

Lemma splice_rebuilds_witness :
  replaceImport "import {A, B} from './../imports.js';" "C" "./imports.js"
  = "import {C} from './imports.js';".
Proof.
  apply (proj2 (splice_rebuilds_the_plain_line ["A"; "B"] "./../imports.js" "C" "./imports.js"
                  ltac:(discriminate) ltac:(repeat constructor) eq_refl)).
Defined.

Lemma modifyFile_keeps_witness :
  exists w',
    modifyFile Sample.transformSync Sample.options 2 "./src/p.js" 0 []
      (Sample.collected, Project.initial) = Done (Sample.collected, w')
    /\ written w' = [].
Proof.
  apply (modifyFile_keeps_its_own_import Sample.transformSync Sample.options 0 "./src/p.js"
           0 [] Sample.collected Project.initial "imports.js" "foo();");
    try (vm_compute; reflexivity).
  - vm_compute. lia.
  - vm_compute. discriminate.
  - vm_compute. repeat constructor.
Defined.
Lemma writers_settle_witness :
  exists w',
    setFileContentIfDifferent "./imports.js" "export {};" None Sample.start = Done w'
    /\ setFileContentIfDifferent "./imports.js" "export {};" None w' = Done w'.
Proof.
  eexists. split; [vm_compute; reflexivity |].
  apply (proj1 (writers_settle_after_one_call "./imports.js" "export {};" Sample.start _)).
  vm_compute. reflexivity.
Defined.
